(** * ts-evtx: a shallow embedding of the EVTX decoder and message pipeline

    The development follows the TypeScript sources:
    - [BinaryReader] (binary/BinaryReader.ts): cursor over an immutable slab;
    - [VariantValueParser] (evtx/VariantValueParser.ts);
    - [RootNode], [Record] (evtx/Record.ts);
    - [OpenStartElementNode], [NameStringNode], [TemplateInstanceNode]
      (evtx/node-specialisations.ts);
    - [ChunkHeader], [TemplateNode] (evtx/ChunkHeader.ts, evtx/TemplateNode.ts);
    - [BXmlParser.parseEmbeddedRootNodeAtOffset] (evtx/BXmlParser.ts);
    - [ActualTemplateNode.buildArgsFromLayout] (evtx/ActualTemplateNode.ts);
    - [applyMessageTemplate], [placeholderMax] and the fit computation (api.ts).

    JavaScript numbers that hold byte offsets and counts are modelled as [Z];
    JavaScript strings as lists of UTF-16 code units; exceptions as an
    explicit [Throw] outcome that keeps the cursor where the throw left it. *)

From Stdlib Require Import ZArith List Lia Bool Strings.Byte String Ascii.
From Stdlib Require Import DecimalString HexadecimalString.
From stdpp Require Import base tactics option list gmap.

Open Scope Z_scope.

(** ** JavaScript strings *)

(** A JavaScript string is a sequence of 16-bit code units. *)
Definition jsstring := list Z.

Definition js (s : string) : jsstring :=
  List.map (fun c => Z.of_N (N_of_ascii c)) (list_ascii_of_string s).

Definition jsjoin (sep : jsstring) (l : list jsstring) : jsstring :=
  match l with
  | [] => []
  | x :: tl => x ++ List.concat (List.map (fun y => sep ++ y) tl)
  end.

(** ** BinaryReader *)

Module BinaryReader.

(** Outcome of a call that may throw. *)
Inductive outcome (A : Type) : Type :=
| Ret (a : A)
| Throw.
Arguments Ret {A} a.
Arguments Throw {A}.

(** A computation over a reader: the slab is immutable, the only state is
    [position].  A throw keeps the position reached before it. *)
Definition Rd (A : Type) : Type := list byte -> Z -> outcome A * Z.

Definition ret {A} (a : A) : Rd A := fun _ p => (Ret a, p).
Definition throw {A} : Rd A := fun _ p => (Throw, p).
Definition bind {A B} (m : Rd A) (k : A -> Rd B) : Rd B :=
  fun buf p =>
    match m buf p with
    | (Ret a, p') => k a buf p'
    | (Throw, p') => (Throw, p')
    end.
(** [try { m } catch { h }] *)
Definition try_catch {A} (m : Rd A) (h : Rd A) : Rd A :=
  fun buf p =>
    match m buf p with
    | (Ret a, p') => (Ret a, p')
    | (Throw, p') => h buf p'
    end.

#[global] Instance Rd_ret : MRet Rd := @ret.
#[global] Instance Rd_bind : MBind Rd := fun A B k m => bind m k.

(** A read that looks at the slab without moving the cursor. *)
Definition inspect {A} (f : list byte -> A) : Rd A := fun buf p => (Ret (f buf), p).

Definition byteLength (buf : list byte) : Z := Z.of_nat (List.length buf).
Definition bz (b : byte) : Z := Z.of_N (Byte.to_N b).

(** [size] getter *)
Definition size : Rd Z := inspect byteLength.
Definition tell : Rd Z := fun _ p => (Ret p, p).

Definition seek (position : Z) : Rd unit :=
  fun buf p =>
    if (position <? 0) || (byteLength buf <? position)
    then (Throw, p) else (Ret tt, position).

Definition byteAt (buf : list byte) (offset : Z) : Z :=
  bz (List.nth (Z.to_nat offset) buf x00).

Definition peek : Rd Z :=
  fun buf p =>
    if byteLength buf <=? p then (Throw, p) else (Ret (byteAt buf p), p).

(** private checkBounds *)
Definition checkBounds (offset length : Z) : Rd unit :=
  fun buf p =>
    if (offset <? 0) || (byteLength buf <? offset + length)
    then (Throw, p) else (Ret tt, p).

(** Little- and big-endian value of a run of bytes (DataView getters). *)
Fixpoint le_val (bs : list byte) : Z :=
  match bs with
  | [] => 0
  | b :: tl => bz b + 256 * le_val tl
  end.
Definition be_val (bs : list byte) : Z := le_val (List.rev bs).

Definition slice (buf : list byte) (offset length : Z) : list byte :=
  List.firstn (Z.to_nat length) (List.skipn (Z.to_nat offset) buf).

Definition signed (bits v : Z) : Z :=
  if 2 ^ (bits - 1) <=? v then v - 2 ^ bits else v.

(** absolute position methods *)
Definition u8At (offset : Z) : Rd Z :=
  checkBounds offset 1;; inspect (fun buf => le_val (slice buf offset 1)).
Definition i8At (offset : Z) : Rd Z :=
  checkBounds offset 1;;
  inspect (fun buf => signed 8 (le_val (slice buf offset 1))).
Definition u16leAt (offset : Z) : Rd Z :=
  checkBounds offset 2;; inspect (fun buf => le_val (slice buf offset 2)).
Definition i16leAt (offset : Z) : Rd Z :=
  checkBounds offset 2;;
  inspect (fun buf => signed 16 (le_val (slice buf offset 2))).
Definition u32leAt (offset : Z) : Rd Z :=
  checkBounds offset 4;; inspect (fun buf => le_val (slice buf offset 4)).
Definition u32beAt (offset : Z) : Rd Z :=
  checkBounds offset 4;; inspect (fun buf => be_val (slice buf offset 4)).
Definition i32leAt (offset : Z) : Rd Z :=
  checkBounds offset 4;;
  inspect (fun buf => signed 32 (le_val (slice buf offset 4))).
(** [(hi << 32n) | lo] of two unsigned 32-bit halves *)
Definition u64leAt (offset : Z) : Rd Z :=
  checkBounds offset 8;;
  lo ← inspect (fun buf => le_val (slice buf offset 4));
  hi ← inspect (fun buf => le_val (slice buf (offset + 4) 4));
  mret (Z.lor (Z.shiftl hi 32) lo).
Definition i64leAt (offset : Z) : Rd Z :=
  checkBounds offset 8;;
  unsignedValue ← u64leAt offset;
  if 2 ^ 63 <=? unsignedValue then mret (unsignedValue - 2 ^ 64)
  else mret unsignedValue.
(** Floats are kept as their raw bit pattern; only the bytes read matter here. *)
Definition f32leAt (offset : Z) : Rd Z :=
  checkBounds offset 4;; inspect (fun buf => le_val (slice buf offset 4)).
Definition f64leAt (offset : Z) : Rd Z :=
  checkBounds offset 8;; inspect (fun buf => le_val (slice buf offset 8)).

Definition bytesAt (offset length : Z) : Rd (list byte) :=
  checkBounds offset length;; inspect (fun buf => slice buf offset length).

(** [this.position += n] *)
Definition advance (n : Z) : Rd unit := fun _ p => (Ret tt, p + n).

(** streaming read methods: read at the position, then advance *)
Definition streaming {A} (at_ : Z -> Rd A) (n : Z) : Rd A :=
  pos ← tell; value ← at_ pos; advance n;; mret value.

Definition u8 : Rd Z := streaming u8At 1.
Definition u16le : Rd Z := streaming u16leAt 2.
Definition u32le : Rd Z := streaming u32leAt 4.
Definition u32be : Rd Z := streaming u32beAt 4.
Definition u64le : Rd Z := streaming u64leAt 8.
Definition i8 : Rd Z := streaming i8At 1.
Definition i16le : Rd Z := streaming i16leAt 2.
Definition i32le : Rd Z := streaming i32leAt 4.
Definition i64le : Rd Z := streaming i64leAt 8.
Definition f32le : Rd Z := streaming f32leAt 4.
Definition f64le : Rd Z := streaming f64leAt 8.

Definition readBuffer (length : Z) : Rd (list byte) :=
  streaming (fun pos => bytesAt pos length) length.

(** [wstring()]: u16 length in code units, then that many u16 code units. *)
Fixpoint read_units (n : nat) : Rd jsstring :=
  match n with
  | O => mret []
  | S n' => c ← u16le; rest ← read_units n'; mret (c :: rest)
  end.
Definition wstring : Rd jsstring :=
  length ← u16le; read_units (Z.to_nat length).

(** the value [u64leAt] assembles from the eight bytes at [p] *)
Definition u64_of (buf : list byte) (p : Z) : Z :=
  Z.lor (Z.shiftl (le_val (slice buf (p + 4) 4)) 32) (le_val (slice buf p 4)).

(** the value [u16leAt] reads at [p] *)
Definition u16_at (buf : list byte) (p : Z) : Z := le_val (slice buf p 2).

(** The cursor invariant: [seek] and the checked reads keep the position
    inside [0, byteLength]. *)
Definition in_bounds (buf : list byte) (p : Z) : Prop := 0 <= p <= byteLength buf.

Definition keeps_bounds {A} (m : Rd A) : Prop :=
  forall buf p, in_bounds buf p -> in_bounds buf (snd (m buf p)).

(** [at_ pos] reads [n] bytes at [pos] without moving the cursor. *)
Definition reads_at {A} (at_ : Z -> Rd A) (n : Z) : Prop :=
  forall pos buf p,
    snd (at_ pos buf p) = p
    /\ (forall a, fst (at_ pos buf p) = Ret a -> 0 <= pos /\ pos + n <= byteLength buf).

End BinaryReader.

(** ** The JavaScript host

    What the sources take from the platform rather than from this repository:
    text decoders, the local time zone used by the [Date] constructor, and the
    printing of dates. *)
Class Host : Type := {
  (** [new TextDecoder('utf-16le').decode(bytes)] *)
  utf16le_decode : list byte -> jsstring;
  (** [new TextDecoder('utf-8').decode(bytes)] *)
  utf8_decode : list byte -> jsstring;
  (** local time zone adjustment, in ms, for a local time value *)
  LocalTZA : Z -> Z;
  (** [Date.prototype.toISOString] on a valid time value *)
  toISOString : Z -> jsstring;
  (** [String(x)] of a non-integral number, given its bit pattern *)
  String_of_float : Z -> jsstring;
}.

(** ** Date (ECMAScript time values, ms since 1970-01-01T00:00:00Z) *)

Module JsDate.

(** A [Date] holds a time value or is invalid ([None]). *)
Definition Date := option Z.

Definition TimeClip (t : Z) : Date :=
  if Z.abs t <=? 8640000000000000 then Some t else None.

(** [new Date(ms)] *)
Definition ofMillis (ms : Z) : Date := TimeClip ms.

Definition msPerDay : Z := 86400000.

Definition DayFromYear (y : Z) : Z :=
  365 * (y - 1970) + (y - 1969) / 4 - (y - 1901) / 100 + (y - 1601) / 400.

Definition InLeapYear (y : Z) : bool :=
  if negb (y mod 4 =? 0) then false
  else if negb (y mod 100 =? 0) then true
  else y mod 400 =? 0.

(** days before the first of month [m] (0-based) in a year *)
Definition daysBeforeMonth (m : Z) (leap : bool) : Z :=
  let l := if leap then 1 else 0 in
  match m with
  | 0 => 0 | 1 => 31 | 2 => 59 + l | 3 => 90 + l | 4 => 120 + l
  | 5 => 151 + l | 6 => 181 + l | 7 => 212 + l | 8 => 243 + l
  | 9 => 273 + l | 10 => 304 + l | _ => 334 + l
  end.

Definition MakeDay (year month date : Z) : Z :=
  let ym := year + month / 12 in
  let mn := month mod 12 in
  DayFromYear ym + daysBeforeMonth mn (InLeapYear ym) + date - 1.

Definition MakeTime (hour min sec ms : Z) : Z :=
  hour * 3600000 + min * 60000 + sec * 1000 + ms.

Definition MakeDate (day time : Z) : Z := day * msPerDay + time.

(** The time value the seven fields denote when read as UTC ([Date.UTC]). *)
Definition utcOfFields (year month date hours minutes seconds ms : Z) : Z :=
  let yr := if (0 <=? year) && (year <=? 99) then 1900 + year else year in
  MakeDate (MakeDay yr month date) (MakeTime hours minutes seconds ms).

(** [new Date(year, month, date, hours, minutes, seconds, ms)]: the fields are
    read as LOCAL time and converted with the host's zone. *)
Definition ofLocalFields `{Host} (year month date hours minutes seconds ms : Z) : Date :=
  let finalDate := utcOfFields year month date hours minutes seconds ms in
  TimeClip (finalDate - LocalTZA finalDate).

End JsDate.

(** [Number(b)] of a BigInt: exact below 2^53, which covers every value the
    decoder passes (a 64-bit tick count divided by 10000). *)
Definition Number_of_BigInt (b : Z) : Z := b.

(** ** Text helpers used by the decoders *)

Fixpoint drop_leading_nuls (l : jsstring) : jsstring :=
  match l with
  | 0 :: tl => drop_leading_nuls tl
  | _ => l
  end.

(** [s.replace(/\0+$/, '')] *)
Definition strip_trailing_nuls (s : jsstring) : jsstring :=
  List.rev (drop_leading_nuls (List.rev s)).

(** [String(n)] / [n.toString()] of an integer *)
Definition dec (n : Z) : jsstring :=
  js (DecimalString.NilZero.string_of_int (Z.to_int n)).

(** [n.toString(16)] of a non-negative integer *)
Definition hex (n : Z) : jsstring :=
  js (HexadecimalString.NilZero.string_of_int (Z.to_hex_int n)).

(** [s.padStart(n, '0')] *)
Definition padStart0 (n : nat) (s : jsstring) : jsstring :=
  List.repeat 48 (n - List.length s) ++ s.

(** [s.toUpperCase()] on ASCII text *)
Definition toUpperCase (s : jsstring) : jsstring :=
  List.map (fun c => if (97 <=? c) && (c <=? 122) then c - 32 else c) s.

(** [s.split('\u0000')] *)
Fixpoint split_nul (s : jsstring) : list jsstring :=
  match s with
  | [] => [[]]
  | c :: tl =>
      if c =? 0 then [] :: split_nul tl
      else match split_nul tl with
           | [] => [[c]]
           | w :: ws => (c :: w) :: ws
           end
  end.

(** ** VariantValueParser *)

Module VariantType.
Abbreviation Null := (0x00) (only parsing).
Abbreviation WString := (0x01) (only parsing).
Abbreviation String := (0x02) (only parsing).
Abbreviation SignedByte := (0x03) (only parsing).
Abbreviation UnsignedByte := (0x04) (only parsing).
Abbreviation SignedWord := (0x05) (only parsing).
Abbreviation UnsignedWord := (0x06) (only parsing).
Abbreviation SignedDWord := (0x07) (only parsing).
Abbreviation UnsignedDWord := (0x08) (only parsing).
Abbreviation SignedQWord := (0x09) (only parsing).
Abbreviation UnsignedQWord := (0x0a) (only parsing).
Abbreviation Float := (0x0b) (only parsing).
Abbreviation Double := (0x0c) (only parsing).
Abbreviation Boolean := (0x0d) (only parsing).
Abbreviation Binary := (0x0e) (only parsing).
Abbreviation Guid := (0x0f) (only parsing).
Abbreviation Size := (0x10) (only parsing).
Abbreviation FileTime := (0x11) (only parsing).
Abbreviation SystemTime := (0x12) (only parsing).
Abbreviation Sid := (0x13) (only parsing).
Abbreviation Hex32 := (0x14) (only parsing).
Abbreviation Hex64 := (0x15) (only parsing).
Abbreviation BXml := (0x21) (only parsing).
Abbreviation WStringArray := (0x81) (only parsing).
End VariantType.

(** The object a BXml variant is kept as ([length] is [bxLength] here). *)
Record BXmlValue : Type := {
  bxmlData : option (list byte);
  bxLength : option Z;
  isBXml : bool;
  isEmpty : bool;
  baseOffset : option Z;
}.

(** [ParsedVariant] *)
Inductive ParsedVariant : Type :=
| PVNull
| PVString (s : jsstring)
| PVNumber (n : Z)
| PVFloat (bits : Z)
| PVBigInt (n : Z)
| PVDate (d : JsDate.Date)
| PVBool (b : bool)
| PVBytes (bs : list byte)
| PVObject (o : BXmlValue)
| PVArray (l : list jsstring).

Module VariantValueParser.
Import BinaryReader.

Section Parser.
Context `{Host}.

(** [ParsedVariantResult] *)
Record ParsedVariantResult : Type := {
  value : ParsedVariant;
  consumedBytes : Z;
}.

Definition parseWString : Rd jsstring :=
  length ← u16le;
  if length =? 0 then mret []
  else
    pos ← tell;
    bytes ← bytesAt pos (length * 2);
    pos ← tell;
    seek (pos + length * 2);;
    mret (utf16le_decode bytes).

Definition parseWStringWithLength (declaredLength : Z) : Rd jsstring :=
  if declaredLength =? 0 then mret []
  else
    pos ← tell;
    bytes ← bytesAt pos declaredLength;
    pos ← tell;
    seek (pos + declaredLength);;
    mret (strip_trailing_nuls (utf16le_decode bytes)).

Definition parseString : Rd jsstring :=
  length ← u16le;
  if length =? 0 then mret []
  else
    pos ← tell;
    bytes ← bytesAt pos length;
    pos ← tell;
    seek (pos + length);;
    mret (utf8_decode bytes).

Definition parseStringWithLength (declaredLength : Z) : Rd jsstring :=
  if declaredLength =? 0 then mret []
  else
    pos ← tell;
    bytes ← bytesAt pos declaredLength;
    pos ← tell;
    seek (pos + declaredLength);;
    mret (strip_trailing_nuls (utf8_decode bytes)).

Definition parseBinary : Rd (list byte) :=
  length ← u32le;
  if length =? 0 then mret []
  else
    pos ← tell;
    bytes ← bytesAt pos length;
    pos ← tell;
    seek (pos + length);;
    mret bytes.

Definition parseGuid : Rd jsstring :=
  data1 ← u32le;
  data2 ← u16le;
  data3 ← u16le;
  pos ← tell;
  data4 ← bytesAt pos 8;
  pos ← tell;
  seek (pos + 8);;
  let data4Hex := List.concat (List.map (fun b => padStart0 2 (hex (bz b))) data4) in
  mret (toUpperCase
          (js "{" ++ padStart0 8 (hex data1) ++ js "-" ++ padStart0 4 (hex data2)
           ++ js "-" ++ padStart0 4 (hex data3) ++ js "-" ++ List.firstn 4 data4Hex
           ++ js "-" ++ List.skipn 4 data4Hex ++ js "}")).

Definition FILETIME_EPOCH_DIFF : Z := 11644473600000.

Definition parseFileTime : Rd JsDate.Date :=
  fileTime ← u64le;
  let milliseconds :=
    Number_of_BigInt (Z.quot fileTime 10000) - Number_of_BigInt FILETIME_EPOCH_DIFF in
  mret (JsDate.ofMillis milliseconds).

Definition parseSystemTime : Rd JsDate.Date :=
  year ← u16le;
  month ← u16le;
  dayOfWeek ← u16le;
  day ← u16le;
  hour ← u16le;
  minute ← u16le;
  second ← u16le;
  milliseconds ← u16le;
  mret (JsDate.ofLocalFields year (month - 1) day hour minute second milliseconds).

Fixpoint read_u32s (n : nat) : Rd (list Z) :=
  match n with
  | O => mret []
  | S n' => x ← u32le; rest ← read_u32s n'; mret (x :: rest)
  end.

Definition parseSid : Rd jsstring :=
  revision ← u8;
  subAuthorityCount ← u8;
  pos ← tell;
  identifierAuthority ← bytesAt pos 6;
  pos ← tell;
  seek (pos + 6);;
  let ia i := bz (List.nth i identifierAuthority x00) in
  let authority :=
    signed 32 (Z.lor (Z.lor (Z.lor (Z.shiftl (ia 2%nat) 24) (Z.shiftl (ia 3%nat) 16))
                            (Z.shiftl (ia 4%nat) 8)) (ia 5%nat)) in
  subAuthorities ← read_u32s (Z.to_nat subAuthorityCount);
  mret (js "S-" ++ dec revision ++ js "-" ++ dec authority
        ++ match subAuthorities with
           | [] => []
           | _ => js "-" ++ jsjoin (js "-") (List.map dec subAuthorities)
           end).

Definition parseBXml : Rd BXmlValue :=
  length ← u32le;
  if length =? 0
  then mret {| bxmlData := None; bxLength := None; isBXml := false;
               isEmpty := false; baseOffset := None |}
  else
    pos ← tell;
    bytes ← bytesAt pos length;
    pos ← tell;
    seek (pos + length);;
    mret {| bxmlData := Some bytes; bxLength := Some length; isBXml := false;
            isEmpty := false; baseOffset := None |}.

Definition parseBXmlWithLength (expectedLength : Z) : Rd BXmlValue :=
  if expectedLength =? 0
  then mret {| bxmlData := Some []; bxLength := Some 0; isBXml := false;
               isEmpty := true; baseOffset := None |}
  else
    startPos ← tell;
    bytes ← bytesAt startPos expectedLength;
    seek (startPos + expectedLength);;
    mret {| bxmlData := Some bytes; bxLength := Some expectedLength; isBXml := true;
            isEmpty := false; baseOffset := Some startPos |}.

Definition parseWStringArrayWithLength (declaredLength : Z) : Rd (list jsstring) :=
  if declaredLength =? 0 then mret []
  else
    pos ← tell;
    bytes ← bytesAt pos declaredLength;
    pos ← tell;
    seek (pos + declaredLength);;
    let decoded := utf16le_decode bytes in
    let trimmed := strip_trailing_nuls decoded in
    mret (split_nul trimmed).

Fixpoint read_wstrings (n : nat) : Rd (list jsstring) :=
  match n with
  | O => mret []
  | S n' => str ← parseWString; rest ← read_wstrings n'; mret (str :: rest)
  end.

Definition parseWStringArray : Rd (list jsstring) :=
  count ← u32le;
  read_wstrings (Z.to_nat count).


Definition result (v : ParsedVariant) (n : Z) : Rd ParsedVariantResult :=
  mret {| value := v; consumedBytes := n |}.

(** the [switch] inside the [try] of [parse] *)
Definition parse_switch (type : Z) (expectedLength : option Z) (startPos : Z)
  : Rd ParsedVariantResult :=
  match type with
  | VariantType.Null =>
      match expectedLength with
      | Some e => (if 0 <? e then seek (startPos + e) else mret tt);; result PVNull e
      | None => result PVNull 0
      end
  | VariantType.WString =>
      value ← match expectedLength with
              | Some e => parseWStringWithLength e
              | None => parseWString
              end;
      pos ← tell;
      result (PVString value) (pos - startPos)
  | VariantType.String =>
      value ← match expectedLength with
              | Some e => parseStringWithLength e
              | None => parseString
              end;
      pos ← tell;
      result (PVString value) (pos - startPos)
  | VariantType.UnsignedByte => v ← u8; result (PVNumber v) 1
  | VariantType.SignedByte => v ← i8; result (PVNumber v) 1
  | VariantType.UnsignedWord => v ← u16le; result (PVNumber v) 2
  | VariantType.SignedWord => v ← i16le; result (PVNumber v) 2
  | VariantType.UnsignedDWord => v ← u32le; result (PVNumber v) 4
  | VariantType.SignedDWord => v ← i32le; result (PVNumber v) 4
  | VariantType.UnsignedQWord => v ← u64le; result (PVBigInt v) 8
  | VariantType.SignedQWord => v ← i64le; result (PVBigInt v) 8
  | VariantType.Float => v ← f32le; result (PVFloat v) 4
  | VariantType.Double => v ← f64le; result (PVFloat v) 8
  | VariantType.Boolean => boolValue ← u8; result (PVBool (negb (boolValue =? 0))) 1
  | VariantType.Binary =>
      match expectedLength with
      | Some e =>
          pos ← tell;
          bytes ← bytesAt pos e;
          pos ← tell;
          seek (pos + e);;
          result (PVBytes bytes) e
      | None =>
          v ← parseBinary;
          pos ← tell;
          result (PVBytes v) (pos - startPos)
      end
  | VariantType.Guid => v ← parseGuid; result (PVString v) 16
  | VariantType.Size => v ← u32le; result (PVNumber v) 4
  | VariantType.FileTime => v ← parseFileTime; result (PVDate v) 8
  | VariantType.SystemTime => v ← parseSystemTime; result (PVDate v) 16
  | VariantType.Sid =>
      v ← parseSid;
      pos ← tell;
      result (PVString v) (pos - startPos)
  | VariantType.Hex32 => v ← u32le; result (PVNumber v) 4
  | VariantType.Hex64 => v ← u64le; result (PVBigInt v) 8
  | VariantType.BXml =>
      match expectedLength with
      | Some e => v ← parseBXmlWithLength e; result (PVObject v) e
      | None =>
          v ← parseBXml;
          pos ← tell;
          result (PVObject v) (pos - startPos)
      end
  | VariantType.WStringArray =>
      match expectedLength with
      | Some e => v ← parseWStringArrayWithLength e; result (PVArray v) e
      | None =>
          v ← parseWStringArray;
          pos ← tell;
          result (PVArray v) (pos - startPos)
      end
  | _ =>
      match expectedLength with
      | Some e =>
          if 0 <? e then
            v ← bytesAt startPos e;
            seek (startPos + e);;
            result (PVBytes v) e
          else result PVNull 0
      | None => result PVNull 0
      end
  end.

(** [parse(type, expectedLength?)].  The length check after the [switch] only
    logs a warning; the [catch] skips to [startPos + expectedLength] when a
    length was declared. *)
Definition parse (type : Z) (expectedLength : option Z) : Rd ParsedVariantResult :=
  startPos ← tell;
  try_catch
    (parse_switch type expectedLength startPos)
    (match expectedLength with
     | Some e => seek (startPos + e);; result PVNull e
     | None => result PVNull 0
     end).

End Parser.

(** The instant a SystemTime at [p] denotes when its fields are read as UTC. *)
Definition systemTimeUTC (buf : list byte) (p : Z) : Z :=
  JsDate.utcOfFields (u16_at buf p) (u16_at buf (p + 2) - 1) (u16_at buf (p + 6))
    (u16_at buf (p + 8)) (u16_at buf (p + 10)) (u16_at buf (p + 12))
    (u16_at buf (p + 14)).

(** The number of bytes each fixed-width case of the [switch] reads and
    reports as [consumedBytes]. *)
Definition naturalWidth (type : Z) : option Z :=
  match type with
  | VariantType.UnsignedByte | VariantType.SignedByte | VariantType.Boolean => Some 1
  | VariantType.UnsignedWord | VariantType.SignedWord => Some 2
  | VariantType.UnsignedDWord | VariantType.SignedDWord | VariantType.Float
  | VariantType.Size | VariantType.Hex32 => Some 4
  | VariantType.UnsignedQWord | VariantType.SignedQWord | VariantType.Double
  | VariantType.FileTime | VariantType.Hex64 => Some 8
  | VariantType.Guid | VariantType.SystemTime => Some 16
  | _ => None
  end.

End VariantValueParser.

(** ** Record framing (evtx/Record.ts) *)

Module Record.
Import BinaryReader.

(** [Block.u32(rel)] and [Block.u64(rel)] of a block at [offset] *)
Definition u32 (offset rel : Z) : Rd Z := u32leAt (offset + rel).
Definition u64 (offset rel : Z) : Rd Z := u64leAt (offset + rel).

Definition magic (offset : Z) : Rd Z := u32 offset 0x0.
Definition size (offset : Z) : Rd Z := u32 offset 0x4.
Definition recordNum (offset : Z) : Rd Z := u64 offset 0x8.
Definition timestamp (offset : Z) : Rd Z := u64 offset 0x10.

(** constructor: throws [InvalidRecordException] on a bad magic or size *)
Definition new (offset : Z) : Rd unit :=
  m ← magic offset;
  if negb (m =? 0x00002a2a) then throw
  else
    s ← size offset;
    if 0x10000 <? s then throw else mret tt.

Definition FILETIME_EPOCH_DIFF : Z := 11644473600000.

Definition timestampAsDate (offset : Z) : Rd JsDate.Date :=
  filetime ← timestamp offset;
  let timestampMs := Number_of_BigInt (Z.quot filetime 10000 - FILETIME_EPOCH_DIFF) in
  mret (JsDate.ofMillis timestampMs).

End Record.

(** [filetimeToDate] of binary/BinaryReader.ts.  The BigInt arithmetic cannot
    throw, so the [catch] branch is dead. *)
Definition filetimeToDate (qword : Z) : JsDate.Date :=
  if qword =? 0 then JsDate.ofMillis 0
  else
    let unixTimeNs := qword - 116444736000000000 in
    let unixTimeMs := Number_of_BigInt (Z.quot unixTimeNs 10000) in
    JsDate.ofMillis unixTimeMs.


(** ** The chunk: shared reader, caches, interning (evtx/ChunkHeader.ts) *)

Module Chunk.
Import BinaryReader.

(** The class of a node ([node.constructor.name]). *)
Inductive NodeKind : Type :=
| StartOfStreamNode | EndOfStreamNode | OpenStartElementNode
| CloseStartElementNode | CloseEmptyElementNode | CloseElementNode
| ValueTextNode | AttributeNode | CDataSectionNode | CharacterReferenceNode
| EntityReferenceNode | ProcessingInstructionTargetNode
| ProcessingInstructionDataNode | TemplateInstanceNode | FragmentHeaderNode
| NormalSubstitutionNode | OptionalSubstitutionNode | UnimplementedNode.

(** The public fields particular to a class. *)
Inductive NodeFields : Type :=
| NoFields
| ElementFields (size string_offset : Z)
| AttributeFields (string_offset : Z)
| ValueFields (value_type : Z) (data : ParsedVariant)
| SubstitutionFields (substitution_id value_type : Z)
| TemplateInstanceFields (template_id template_offset : Z) (embedded : bool)
| TextFields (data : jsstring)
| CDataFields (string_length : Z)
| ReferenceFields (entity : Z).

(** A BXML node: class, token byte, the value of its [length] getter, its
    children and its fields. *)
#[warnings="-register-all"]
Inductive BXmlNode : Type :=
  Node { ctor : NodeKind;
         token : Z;
         nodeLength : Z;
         children : list BXmlNode;
         fields : NodeFields }.

Record NameStringNode : Type := {
  next_string_offset : Z;
  name_hash : Z;
  name : jsstring;
}.

(** [NameStringNode.length] *)
Definition nameStringLength (n : NameStringNode) : Z :=
  8 + Z.of_nat (List.length (name n)) * 2 + 2.

Record TemplateNode : Type := {
  templateOffset : Z;
  nextOffset : Z;
  templateId : Z;
  guid : list byte;
  dataLength : Z;
  templateChildren : list BXmlNode;
}.

(** [TemplateNode.tagLength] *)
Definition tagLength (t : TemplateNode) : Z := 24.

(** A reader object: the chunk's own reader [r], which records and root nodes
    share, or a reader made by [new BinaryReader(...)] later on. *)
Inductive Reader : Type :=
| Main
| Clone (i : nat).

(** The mutable state behind one chunk: the position of every reader over
    the slab and the two caches. *)
Record World : Type := {
  position : Z;
  clones : list Z;
  strings : option (gmap Z NameStringNode);
  templates : gmap Z TemplateNode;
}.

Definition W (A : Type) : Type := list byte -> World -> outcome A * World.

Definition retW {A} (a : A) : W A := fun _ w => (Ret a, w).
Definition throwW {A} : W A := fun _ w => (Throw, w).
Definition bindW {A B} (m : W A) (k : A -> W B) : W B :=
  fun buf w =>
    match m buf w with
    | (Ret a, w') => k a buf w'
    | (Throw, w') => (Throw, w')
    end.
Definition tryW {A} (m : W A) (h : W A) : W A :=
  fun buf w =>
    match m buf w with
    | (Ret a, w') => (Ret a, w')
    | (Throw, w') => h buf w'
    end.

#[global] Instance W_ret : MRet W := @retW.
#[global] Instance W_bind : MBind W := fun A B k m => bindW m k.

Definition positionOf (r : Reader) (w : World) : option Z :=
  match r with
  | Main => Some (position w)
  | Clone i => clones w !! i
  end.

Definition setPosition (r : Reader) (p : Z) (w : World) : World :=
  match r with
  | Main =>
      {| position := p; clones := clones w; strings := strings w;
         templates := templates w |}
  | Clone i =>
      {| position := position w; clones := <[i := p]> (clones w);
         strings := strings w; templates := templates w |}
  end.

(** Run a reader method on the reader [r]. *)
Definition on {A} (r : Reader) (m : Rd A) : W A :=
  fun buf w =>
    match positionOf r w with
    | Some p => let '(o, p') := m buf p in (o, setPosition r p' w)
    | None => (Throw, w)
    end.

(** [new BinaryReader(this.r.bytesAt(0, this.r.size))]: a fresh reader over
    the same bytes, at position 0; the result is its index. *)
Definition cloneReader : W nat :=
  fun _ w =>
    (Ret (List.length (clones w)),
     {| position := position w; clones := clones w ++ [0];
        strings := strings w; templates := templates w |}).

Definition getStrings : W (option (gmap Z NameStringNode)) :=
  fun _ w => (Ret (strings w), w).
Definition setStrings (s : option (gmap Z NameStringNode)) : W unit :=
  fun _ w =>
    (Ret tt, {| position := position w; clones := clones w; strings := s;
                templates := templates w |}).
Definition getTemplates : W (gmap Z TemplateNode) :=
  fun _ w => (Ret (templates w), w).
Definition setTemplates (t : gmap Z TemplateNode) : W unit :=
  fun _ w =>
    (Ret tt, {| position := position w; clones := clones w;
                strings := strings w; templates := t |}).

(** [fromStream] of a [NodeFactory] built over a reader, called with a
    parent whose [__embedded] marker is the flag. *)
Definition Factory : Type := Reader -> bool -> W BXmlNode.

(** The frame condition on the chunk's own reader: whatever [m] returns or
    throws, the position of [Main] is what it was. *)
Definition keeps_main {A} (m : W A) : Prop :=
  forall buf w, position (snd (m buf w)) = position w.

(** a factory that, built over a cloned reader, leaves [Main] alone *)
Definition local (factory : Factory) : Prop :=
  forall i embedded, keeps_main (factory (Clone i) embedded).

(** a reader method that does not move the cursor *)
Definition stays {A} (m : Rd A) : Prop := forall buf p, snd (m buf p) = p.

Section ChunkHeader.
(** [offset] of the chunk in the file *)
Variable offset : Z.

Definition OFF_NEXT_RECORD_OFFSET : Z := 0x30.
Definition OFF_STRING_TABLE : Z := 0x80.

(** [Block.u32]: a random-access read through the chunk's reader *)
Definition u32 (rel : Z) : W Z := on Main (u32leAt (offset + rel)).

Definition nextRecordOffset : W Z := u32 OFF_NEXT_RECORD_OFFSET.

(** [new NameStringNode(r, ...)] *)
Definition newNameStringNode (r : Reader) : W NameStringNode :=
  next ← on r u32le;
  hash ← on r u16le;
  data ← on r wstring;
  mret {| next_string_offset := next; name_hash := hash; name := data |}.

(** [this._strings.has(ofs)] *)
Definition hasString (ofs : Z) : W bool :=
  s ← getStrings;
  match s with
  | Some m => mret (bool_decide (is_Some (m !! ofs)))
  | None => throwW
  end.

(** [addString] once [_strings] is a map: clone, seek, parse, insert. *)
Definition addStringLoaded (ofs : Z) : W NameStringNode :=
  cloned ← cloneReader;
  on (Clone cloned) (seek (offset + ofs));;
  stringNode ← newNameStringNode (Clone cloned);
  s ← getStrings;
  match s with
  | Some m => setStrings (Some (<[ofs := stringNode]> m));; mret stringNode
  | None => throwW
  end.

(** the [while] of [_loadStrings] that follows one bucket's chain; each round
    interns an offset that was absent, so the slab length bounds the rounds *)
Fixpoint followChain (fuel : nat) (ofs : Z) : W unit :=
  match fuel with
  | O => mret tt
  | S fuel' =>
      inRange ← (if 0 <? ofs then nro ← nextRecordOffset; mret (ofs <? nro)
                 else mret false);
      if inRange : bool then
        seen ← hasString ofs;
        if seen : bool then mret tt
        else
          stringNode ← addStringLoaded ofs;
          let ofs := next_string_offset stringNode in
          stop ← (if ofs =? 0 then mret true else hasString ofs);
          if stop : bool then mret tt else followChain fuel' ofs
      else mret tt
  end.

(** [for (let i = 0; i < 64; i++)], counting [todo] buckets down *)
Fixpoint loadBuckets (todo : nat) (i : Z) : W unit :=
  match todo with
  | O => mret tt
  | S todo' =>
      ofs ← u32 (OFF_STRING_TABLE + i * 4);
      fuel ← on Main (inspect (fun buf => List.length buf));
      followChain fuel ofs;;
      loadBuckets todo' (i + 1)
  end.

(** [_loadStrings] *)
Definition loadStrings : W unit :=
  s ← getStrings;
  match s with
  | Some _ => mret tt
  | None =>
      setStrings (Some ∅);;
      seen ← hasString 0;
      (if seen : bool then mret tt
       else tryW (addStringLoaded 0;; mret tt) (mret tt));;
      loadBuckets 64 0
  end.

(** [strings()] *)
Definition stringsTable : W (gmap Z NameStringNode) :=
  loadStrings;;
  s ← getStrings;
  match s with
  | Some m => mret m
  | None => throwW
  end.

(** [addString(offset, parent?)] *)
Definition addString (ofs : Z) : W NameStringNode :=
  loadStrings;;
  addStringLoaded ofs.

(** [TemplateNode.parseChildren]'s loop; every child takes at least its
    token byte, so [dataLength] rounds are enough *)
Fixpoint parseTemplateChildren (factory : Factory) (r : Reader) (fuel : nat)
    (dataEnd : Z) (acc : list BXmlNode) : W (list BXmlNode) :=
  match fuel with
  | O => mret acc
  | S fuel' =>
      pos ← on r tell;
      if pos <? dataEnd then
        token ← on r peek;
        if token =? 0x00 then
          tryW (endNode ← factory r false; mret (acc ++ [endNode])) (mret acc)
        else
          (* the child is pushed first; the debug line that prints an
             element's [name] consults [strings()] inside the same [try] *)
          child ← tryW (c ← factory r false;
                        logged ← tryW (match ctor c with
                                       | OpenStartElementNode => stringsTable;; mret true
                                       | _ => mret true
                                       end) (mret false);
                        mret (Some (c, logged)))
                       (mret None);
          match child with
          | Some (c, true) => parseTemplateChildren factory r fuel' dataEnd (acc ++ [c])
          | Some (c, false) => mret (acc ++ [c])
          | None => mret acc
          end
      else mret acc
  end.

(** [new TemplateNode(reader, offset, chunk)] *)
Definition newTemplateNode (factory : Factory) (reader : Reader) (ofs : Z)
  : W TemplateNode :=
  let absoluteOffset := offset + ofs in
  on reader (seek absoluteOffset);;
  sz ← on reader BinaryReader.size;
  on reader (readBuffer (Z.min 32 (sz - absoluteOffset)));;
  on reader (seek absoluteOffset);;
  nextOffset ← on reader u32le;
  templateIdPos ← on reader tell;
  templateId ← on reader u32le;
  on reader (seek templateIdPos);;
  guid ← on reader (readBuffer 16);
  dataLength ← on reader u32le;
  children ←
    (if dataLength =? 0 then mret []
     else
       let dataStart := absoluteOffset + 24 in
       let dataEnd := dataStart + dataLength in
       on reader (seek dataStart);;
       parseTemplateChildren factory reader (Z.to_nat dataLength) dataEnd []);
  mret {| templateOffset := ofs; nextOffset := nextOffset;
          templateId := templateId; guid := guid; dataLength := dataLength;
          templateChildren := children |}.

(** [getTemplate(offset)]: the cached entry, or a template parsed through the
    chunk's own reader; [None] for [null] *)
Definition getTemplate (factory : Factory) (ofs : Z) : W (option TemplateNode) :=
  cache ← getTemplates;
  match cache !! ofs with
  | Some t => mret (Some t)
  | None =>
      tryW
        (templateNode ← newTemplateNode factory Main ofs;
         cache ← getTemplates;
         setTemplates (<[ofs := templateNode]> cache);;
         mret (Some templateNode))
        (mret None)
  end.

(** [addTemplate(offset, parent?)]: the cached entry, or a template parsed
    through a cloned reader; a failure is logged and thrown again *)
Definition addTemplate (factory : Factory) (ofs : Z) : W TemplateNode :=
  cache ← getTemplates;
  match cache !! ofs with
  | Some t => mret t
  | None =>
      cloned ← cloneReader;
      templateNode ← newTemplateNode factory (Clone cloned) ofs;
      cache ← getTemplates;
      setTemplates (<[ofs := templateNode]> cache);;
      mret templateNode
  end.

End ChunkHeader.
End Chunk.

(** ** Node constructors (evtx/node-specialisations.ts, evtx/node-factory.ts) *)

Module Nodes.
Import BinaryReader Chunk.

Section Constructors.
Context `{Host}.
(** the chunk's [offset] *)
Variable offset : Z.
(** [this.factory.fromStream], for the children a constructor parses *)
Variable factory : Factory.

Definition leaf (k : NodeKind) (token len : Z) (f : NodeFields) : BXmlNode :=
  Node k token len [] f.

Definition newStartOfStreamNode (r : Reader) (token : Z) : W BXmlNode :=
  on r u8;;
  on r u16le;;
  mret (leaf StartOfStreamNode token (1 + 1 + 2) NoFields).

Definition newEndOfStreamNode (r : Reader) (token : Z) : W BXmlNode :=
  mret (leaf EndOfStreamNode token 1 NoFields).

Definition newCloseStartElementNode (r : Reader) (token : Z) : W BXmlNode :=
  mret (leaf CloseStartElementNode token 1 NoFields).

Definition newCloseEmptyElementNode (r : Reader) (token : Z) : W BXmlNode :=
  mret (leaf CloseEmptyElementNode token 1 NoFields).

Definition newCloseElementNode (r : Reader) (token : Z) : W BXmlNode :=
  mret (leaf CloseElementNode token 1 NoFields).

(** [ValueTextNode]: type byte, then a length-prefixed variant; a parse that
    throws leaves a null value of length 0 *)
Definition newValueTextNode (r : Reader) (token : Z) : W BXmlNode :=
  value_type ← on r u8;
  '(parsed, valueLength) ←
    tryW (result ← on r (VariantValueParser.parse value_type None);
          mret (VariantValueParser.value result,
                VariantValueParser.consumedBytes result))
         (mret (PVNull, 0));
  mret (leaf ValueTextNode token (2 + valueLength) (ValueFields value_type parsed)).

Definition newCDataSectionNode (r : Reader) (token : Z) : W BXmlNode :=
  string_length ← on r u16le;
  mret (leaf CDataSectionNode token (3 + string_length) (CDataFields string_length)).

Definition newProcessingInstructionTargetNode (r : Reader) (token : Z) : W BXmlNode :=
  data ← on r wstring;
  mret (leaf ProcessingInstructionTargetNode token
          (1 + 2 + Z.of_nat (List.length data) * 2) (TextFields data)).

Definition newProcessingInstructionDataNode (r : Reader) (token : Z) : W BXmlNode :=
  data ← on r wstring;
  mret (leaf ProcessingInstructionDataNode token
          (1 + 2 + Z.of_nat (List.length data) * 2) (TextFields data)).

Definition newNormalSubstitutionNode (r : Reader) (token : Z) : W BXmlNode :=
  substitution_id ← on r u16le;
  value_type ← on r u8;
  mret (leaf NormalSubstitutionNode token 4
          (SubstitutionFields substitution_id value_type)).

Definition newOptionalSubstitutionNode (r : Reader) (token : Z) : W BXmlNode :=
  substitution_id ← on r u16le;
  value_type ← on r u8;
  mret (leaf OptionalSubstitutionNode token 4
          (SubstitutionFields substitution_id value_type)).

Definition newCharacterReferenceNode (r : Reader) (token : Z) : W BXmlNode :=
  entity ← on r u16le;
  mret (leaf CharacterReferenceNode token 3 (ReferenceFields entity)).

(** the inline-name branch only resets [_name_string_length] to 0 *)
Definition newEntityReferenceNode (r : Reader) (token : Z) : W BXmlNode :=
  string_offset ← on r u32le;
  mret (leaf EntityReferenceNode token (5 + 0) (ReferenceFields string_offset)).

Definition newUnimplementedNode (r : Reader) (token : Z) : W BXmlNode :=
  mret (leaf UnimplementedNode token 0 NoFields).

(** [TemplateInstanceNode] *)
Definition newTemplateInstanceNode (r : Reader) (embedded : bool) (token : Z)
  : W BXmlNode :=
  pos ← on r tell;
  let startPos := pos - 1 in
  unknownByteAfterToken ← on r u8;
  template_id ← on r u32le;
  template_offset ← on r u32le;
  (* isResidentTemplate() *)
  let nodeChunkRelativeOffset := startPos - offset in
  data_length ←
    (if nodeChunkRelativeOffset <? template_offset then
       tryW (newTemplate ← addTemplate offset factory template_offset;
             mret (tagLength newTemplate + dataLength newTemplate))
            (mret 0)
     else mret 0);
  let length := 1 + 1 + 4 + 4 + data_length in
  (if negb embedded then
     let endPos := startPos + length in
     pos ← on r tell;
     if negb (pos =? endPos) then on r (seek endPos) else mret tt
   else mret tt);;
  mret (leaf TemplateInstanceNode token length
          (TemplateInstanceFields template_id template_offset embedded)).

(** [FragmentHeaderNode]; its children have a real node as parent, so they
    are not embedded-mode children *)
Fixpoint fragmentChildren (r : Reader) (fuel : nat) (acc : list BXmlNode)
  : W (list BXmlNode) :=
  match fuel with
  | O => throwW
  | S fuel' =>
      next ← on r peek;
      if next =? 0x00 then mret acc
      else
        node ← factory r false;
        if token node =? 0x00 then mret (acc ++ [node])
        else fragmentChildren r fuel' (acc ++ [node])
  end.

Definition newFragmentHeaderNode (r : Reader) (token : Z) : W BXmlNode :=
  on r u8;;
  on r u8;;
  on r u16le;;
  fuel ← on r (inspect (fun buf => S (List.length buf)));
  children ← fragmentChildren r fuel [];
  mret (Node FragmentHeaderNode token 5 children NoFields).

(** [AttributeNode] *)
Definition newAttributeNode (r : Reader) (token : Z) : W BXmlNode :=
  pos ← on r tell;
  let startOffset := pos - 1 in
  string_offset ← on r u32le;
  let nodeChunkRelativeOffset := startOffset - offset in
  let shouldHaveInlineString := nodeChunkRelativeOffset <? string_offset in
  name_string_length ←
    (if shouldHaveInlineString then
       nextOffset ← on r u32le;
       hash ← on r u16le;
       stringLength ← on r u16le;
       (if 0 <? stringLength then
          on r (readBuffer (stringLength * 2));;
          on r u16le;;
          mret tt
        else mret tt);;
       tryW (addString offset string_offset;; mret tt) (mret tt);;
       mret (4 + 2 + 2 + stringLength * 2 + 2)
     else mret 0);
  let expectedTagLength := 5 + name_string_length in
  let expectedChildPosition := startOffset + expectedTagLength in
  on r (seek expectedChildPosition);;
  (* the debug line after the seek prints [r.peek()] *)
  on r peek;;
  pos ← on r tell;
  sz ← on r BinaryReader.size;
  children ←
    (if pos <? sz then
       tryW (childNode ← factory r false; mret [childNode]) (mret [])
     else mret []);
  let valueNodesLength :=
    match children with
    | child :: _ => nodeLength child
    | [] => 0
    end in
  mret (Node AttributeNode token (1 + 4 + name_string_length + valueNodesLength)
          children (AttributeFields string_offset)).

(** [OpenStartElementNode] *)

(** the attribute loop of [read_internal_structure] *)
Fixpoint readAttributes (r : Reader) (fuel : nat) (elementContentEndPosition : Z)
    (acc : list BXmlNode) : W (list BXmlNode) :=
  match fuel with
  | O => mret acc
  | S fuel' =>
      pos ← on r tell;
      if pos <? elementContentEndPosition then
        sz ← on r BinaryReader.size;
        if sz <=? pos then mret acc
        else
          token ← on r peek;
          let maskedToken := Z.land token 0x0F in
          if maskedToken =? 0x06 then
            attribute ← tryW (a ← factory r false; mret (Some a)) (mret None);
            match attribute with
            | Some a => readAttributes r fuel' elementContentEndPosition (acc ++ [a])
            | None => mret acc
            end
          else mret acc
      else mret acc
  end.

(** the child loop after a CloseStartElement *)
Fixpoint readContent (r : Reader) (fuel : nat) (elementContentEndPosition : Z)
    (acc : list BXmlNode) : W (list BXmlNode) :=
  match fuel with
  | O => mret acc
  | S fuel' =>
      pos ← on r tell;
      if pos <? elementContentEndPosition then
        sz ← on r BinaryReader.size;
        if sz <=? pos then mret acc
        else
          step ← tryW (next ← on r peek;
                       if next =? 0x04 then mret None
                       else
                         childNode ← factory r false;
                         mret (Some (childNode,
                                     (token childNode =? 0x00)
                                     || match ctor childNode with
                                        | UnimplementedNode => true
                                        | _ => false
                                        end)))
                      (mret None);
          match step with
          | Some (childNode, false) =>
              readContent r fuel' elementContentEndPosition (acc ++ [childNode])
          | Some (childNode, true) => mret (acc ++ [childNode])
          | None => mret acc
          end
      else mret acc
  end.

(** the local constants [startOfContentParsing] and
    [elementContentEndPosition] *)
Definition startOfContentParsing (nodeStart tagLength : Z) : Z :=
  nodeStart + tagLength.
Definition elementContentEndPosition (nodeStart tagLength size : Z) : Z :=
  startOfContentParsing nodeStart tagLength + size.

Definition read_internal_structure (r : Reader) (size tagLength nodeStart : Z)
  : W (list BXmlNode) :=
  let contentStart := startOfContentParsing nodeStart tagLength in
  let contentEnd := elementContentEndPosition nodeStart tagLength size in
  (* the first debug line prints [this.name], which consults [strings()] *)
  stringsTable offset;;
  on r (seek contentStart);;
  attributes ← readAttributes r (Z.to_nat size) contentEnd [];
  pos ← on r tell;
  if pos <? contentEnd then
    tryW
      (nextToken ← on r peek;
       if nextToken =? 0x02 then
         closeStartNode ← factory r false;
         let acc := attributes ++ [closeStartNode] in
         acc ← readContent r (Z.to_nat size) contentEnd acc;
         pos ← on r tell;
         sz ← on r BinaryReader.size;
         if (pos <? contentEnd) && (pos <? sz) then
           tryW (next ← on r peek;
                 if next =? 0x04 then
                   closeElementNode ← factory r false;
                   mret (acc ++ [closeElementNode])
                 else mret acc)
                (mret acc)
         else mret acc
       else if nextToken =? 0x03 then
         closeEmptyNode ← factory r false;
         mret (attributes ++ [closeEmptyNode])
       else mret attributes)
      (mret attributes)
  else mret attributes.

(** [flags()] *)
Definition flags (token : Z) : Z := Z.shiftr token 4.

(** the header fields and the tag length the constructor computes before it
    parses the content *)
Record ElementHeader : Type := {
  nodeStart : Z;
  size : Z;
  string_offset : Z;
  inlineName : option NameStringNode;
  tag_length : Z;
}.

Definition readElementHeader (r : Reader) (token : Z) : W ElementHeader :=
  pos ← on r tell;
  let nodeStartPositionInStream := pos - 1 in
  unknown0 ← on r u16le;
  size ← on r u32le;
  string_offset ← on r u32le;
  let tag_length := 11 in
  let tag_length := if negb (Z.land (flags token) 0x04 =? 0)
                    then tag_length + 4 else tag_length in
  let nodeChunkRelativeOffset := nodeStartPositionInStream - offset in
  inline ←
    (if nodeChunkRelativeOffset <? string_offset then
       stringNode ← addString offset string_offset;
       mret (Some stringNode)
     else mret None);
  let tag_length :=
    match inline with
    | Some stringNode => tag_length + nameStringLength stringNode
    | None => tag_length
    end in
  mret {| nodeStart := nodeStartPositionInStream; size := size;
          string_offset := string_offset; inlineName := inline;
          tag_length := tag_length |}.

Definition newOpenStartElementNode (r : Reader) (token : Z) : W BXmlNode :=
  header ← readElementHeader r token;
  children ← read_internal_structure r (size header) (tag_length header)
               (nodeStart header);
  mret (Node OpenStartElementNode token (tag_length header) children
          (ElementFields (size header) (string_offset header))).

(** [NodeFactory.fromStream]: one token byte, then the constructor its low
    nibble selects *)
Definition dispatch (r : Reader) (embedded : bool) : W BXmlNode :=
  token ← on r u8;
  let maskedToken := Z.land token 0x0F in
  match maskedToken with
  | 0x0f => newStartOfStreamNode r token
  | 0x00 => newEndOfStreamNode r token
  | 0x01 => newOpenStartElementNode r token
  | 0x02 => newCloseStartElementNode r token
  | 0x03 => newCloseEmptyElementNode r token
  | 0x04 => newCloseElementNode r token
  | 0x05 => newValueTextNode r token
  | 0x06 => newAttributeNode r token
  | 0x07 => newCDataSectionNode r token
  | 0x08 => newCharacterReferenceNode r token
  | 0x09 => newEntityReferenceNode r token
  | 0x0a => newProcessingInstructionTargetNode r token
  | 0x0b => newProcessingInstructionDataNode r token
  | 0x0c => newTemplateInstanceNode r embedded token
  | 0x10 => newFragmentHeaderNode r token
  | 0x0d => newNormalSubstitutionNode r token
  | 0x0e => newOptionalSubstitutionNode r token
  | _ => newUnimplementedNode r token
  end.

End Constructors.

(** The factory itself: [fromStream] with its recursion through the
    constructors bounded by a nesting depth. Every level of nesting takes at
    least a token byte, so a depth of the slab length is never reached. *)
Fixpoint fromStream `{Host} (offset : Z) (depth : nat) : Factory :=
  match depth with
  | O => fun _ _ => throwW
  | S depth' => dispatch offset (fromStream offset depth')
  end.

End Nodes.

(** ** The root node of a record (evtx/Record.ts) *)

Module RootNode.
Import BinaryReader VariantValueParser.

Section Phase2.
Context `{Host}.

Record Declaration : Type := { size : Z; type : Z }.

(** What Phase 2 of the constructor computes. *)
Record Substitutions : Type := {
  subCountPos : Z;
  substitutionCountLE : Z;
  substitutionCountBE : Z;
  substitutionCount : Z;
  subDeclarations : list Declaration;
  substitutions : list ParsedVariant;
  substitutionsBlockLength : Z;
}.

(** [for (let i = 0; i < substitutionCount; i++)]: stops at the first
    declaration that does not fit *)
Fixpoint readDeclarations (n : nat) : Rd (list Declaration) :=
  match n with
  | O => mret []
  | S n' =>
      pos ← tell;
      sz ← BinaryReader.size;
      if pos + 4 <=? sz then
        size ← u16le;
        type ← u8;
        u8;;
        rest ← readDeclarations n';
        mret ({| size := size; type := type |} :: rest)
      else mret []
  end.

(** [for (const decl of subDeclarations)]: values and the bytes they report *)
Fixpoint readValues (decls : list Declaration) : Rd (list ParsedVariant * Z) :=
  match decls with
  | [] => mret ([], 0)
  | decl :: rest =>
      pos ← tell;
      sz ← BinaryReader.size;
      if pos + size decl <=? sz then
        result ← parse (type decl) (Some (size decl));
        '(vals, n) ← readValues rest;
        mret (value result :: vals, consumedBytes result + n)
      else mret ([], 0)
  end.


(** Phase 2; [None] when fewer than four bytes remain at the count position. *)
Definition phase2 (recordDataOffset parsedBxmlChildrenLength : Z)
  : Rd (option Substitutions) :=
  let rootNodeStartOffset := recordDataOffset in
  let substitutionDataOffset := rootNodeStartOffset + parsedBxmlChildrenLength - 1 in
  seek substitutionDataOffset;;
  pos ← tell;
  sz ← BinaryReader.size;
  if pos + 4 <=? sz then
    subCountPos ← tell;
    substitutionCountLE ← u32le;
    seek subCountPos;;
    substitutionCountBE ← u32be;
    seek (subCountPos + 4);;
    let substitutionCount :=
      if (0 <? substitutionCountBE) && (substitutionCountBE <? 1024)
      then substitutionCountBE else substitutionCountLE in
    if (0 <? substitutionCount) && (substitutionCount <? 1024) then
      subDeclarations ← readDeclarations (Z.to_nat substitutionCount);
      '(vals, consumed) ← readValues subDeclarations;
      mret (Some {| subCountPos := subCountPos;
                    substitutionCountLE := substitutionCountLE;
                    substitutionCountBE := substitutionCountBE;
                    substitutionCount := substitutionCount;
                    subDeclarations := subDeclarations;
                    substitutions := vals;
                    substitutionsBlockLength :=
                      4 + 4 * Z.of_nat (List.length subDeclarations) + consumed |})
    else
      mret (Some {| subCountPos := subCountPos;
                    substitutionCountLE := substitutionCountLE;
                    substitutionCountBE := substitutionCountBE;
                    substitutionCount := substitutionCount;
                    subDeclarations := [];
                    substitutions := [];
                    substitutionsBlockLength := 0 |})
  else mret None.

End Phase2.

(** *** Phase 1 and the constructor *)

Section Constructor.
Import Chunk.
Context `{Host}.
Variable factory : Factory.

(** What Phase 1 leaves behind. *)
Record Children : Type := {
  children : list BXmlNode;
  parsedBxmlChildrenLength : Z;
  templateInstance : option BXmlNode;
}.

(** Phase 1: children up to EndOfStream or the end of the record's BXML
    data; every child takes at least its token byte, so the data length
    bounds the rounds. *)
Fixpoint phase1 (r : Reader) (fuel : nat) (endPosition : Z) (acc : Children)
  : W Children :=
  match fuel with
  | O => mret acc
  | S fuel' =>
      pos ← on r tell;
      if pos <? endPosition then
        sz ← on r BinaryReader.size;
        if sz <=? pos then mret acc
        else
          tokenPeek ← on r peek;
          currentToken ← tryW (t ← on r peek; mret (Some t)) (mret None);
          match currentToken with
          | None => mret acc
          | Some currentToken =>
              if currentToken =? 0x00 then mret acc
              else
                node ← tryW (n ← factory r false; mret (Some n)) (mret None);
                match node with
                | None => mret acc
                | Some node =>
                    let acc :=
                      {| children := children acc ++ [node];
                         parsedBxmlChildrenLength :=
                           parsedBxmlChildrenLength acc + nodeLength node;
                         templateInstance :=
                           match ctor node with
                           | TemplateInstanceNode => Some node
                           | _ => templateInstance acc
                           end |} in
                    match ctor node with
                    | UnimplementedNode => mret acc
                    | _ => phase1 r fuel' endPosition acc
                    end
                end
          end
      else mret acc
  end.

(** [new RootNode(r, chunk, parentRecord, recordDataOffset)] for the record
    at [recordOffset] *)
Definition new (r : Reader) (recordOffset recordDataOffset : Z)
  : W (Children * option Substitutions) :=
  on r (seek recordDataOffset);;
  recordSize ← on r (Record.size recordOffset);
  let bxmlDataLength := recordSize - 0x18 in
  let endPosition := recordDataOffset + bxmlDataLength in
  kids ← phase1 r (Z.to_nat bxmlDataLength) endPosition
           {| children := []; parsedBxmlChildrenLength := 0;
              templateInstance := None |};
  subs ← on r (phase2 recordDataOffset (parsedBxmlChildrenLength kids));
  mret (kids, subs).

End Constructor.
End RootNode.

(** ** Embedded BXML (evtx/BXmlParser.ts) *)

Module BXmlParser.
Import BinaryReader Chunk.

Section Embedded.
Context `{Host}.
Variable factory : Factory.

(** The locals of [parseEmbeddedRootNodeAtOffset] after its token loop. *)
Record Tokens : Type := {
  nodes : list BXmlNode;
  declared : Z;
  templateInstance : option BXmlNode;
}.

Definition isEndOfStream (n : BXmlNode) : bool :=
  match ctor n with EndOfStreamNode => true | _ => false end.
Definition isTemplateInstance (n : BXmlNode) : bool :=
  match ctor n with TemplateInstanceNode => true | _ => false end.



(** the token loop: [while (reader.tell() < baseOffset + length + 64)] *)
Fixpoint parseTokens (reader : Reader) (fuel : nat) (limit : Z) (acc : Tokens)
  : W Tokens :=
  match fuel with
  | O => mret acc
  | S fuel' =>
      before ← on reader tell;
      if before <? limit then
        step ← tryW (node ← factory reader true;
                     after ← on reader tell;
                     mret (Some (node, after)))
                    (mret None);
        match step with
        | None => mret acc
        | Some (node, after) =>
            let logical := nodeLength node in
            let acc :=
              {| nodes := nodes acc ++ [node];
                 declared := if isEndOfStream node then declared acc
                             else declared acc + logical;
                 templateInstance := if isTemplateInstance node then Some node
                                     else templateInstance acc |} in
            if isTemplateInstance node then mret acc
            else if isEndOfStream node then mret acc
            else if after <=? before then mret acc
            else parseTokens reader fuel' limit acc
        end
      else mret acc
  end.

(** [for (let i = 0; i < count; i++)]: no bounds test, a short table throws *)
Fixpoint readDeclarations (n : nat) : Rd (list RootNode.Declaration) :=
  match n with
  | O => mret []
  | S n' =>
      size ← u16le;
      type ← u8;
      u8;;
      rest ← readDeclarations n';
      mret ({| RootNode.size := size; RootNode.type := type |} :: rest)
  end.

Fixpoint readValues (decls : list RootNode.Declaration) : Rd (list ParsedVariant) :=
  match decls with
  | [] => mret []
  | d :: rest =>
      parsed ← VariantValueParser.parse (RootNode.type d) (Some (RootNode.size d));
      vals ← readValues rest;
      mret (VariantValueParser.value parsed :: vals)
  end.

(** the body of the second [try]: the header is read at [headerOffset] *)
Definition readSubstitutions (headerOffset : Z) : Rd (list ParsedVariant) :=
  seek headerOffset;;
  count ← u32le;
  decls ← readDeclarations (Z.to_nat count);
  readValues decls.

Record EmbeddedRoot : Type := {
  tokens : Tokens;
  substitutions : list ParsedVariant;
}.

(** [parseEmbeddedRootNodeAtOffset(reader, chunk, baseOffset, length)] *)
Definition parseEmbeddedRootNodeAtOffset (reader : Reader) (baseOffset length : Z)
  : W EmbeddedRoot :=
  on reader (seek baseOffset);;
  let limit := baseOffset + length + 64 in
  toks ← parseTokens reader (Z.to_nat (limit - baseOffset)) limit
           {| nodes := []; declared := 0; templateInstance := None |};
  subs ← tryW (on reader (readSubstitutions (baseOffset + declared toks)))
              (mret []);
  mret {| tokens := toks; substitutions := subs |}.

(** the common start of [parseAndRenderBXmlAtOffset] and
    [parseEmbeddedActualAtOffset]: a fresh reader over the whole slab *)
Definition parseAtOffset (baseOffset length : Z) : W (option EmbeddedRoot) :=
  tryW (fullReader ← cloneReader;
        on (Clone fullReader) (seek baseOffset);;
        root ← parseEmbeddedRootNodeAtOffset (Clone fullReader) baseOffset length;
        mret (Some root))
       (mret None).

End Embedded.
End BXmlParser.

(** ** Message arguments from a layout (evtx/ActualTemplateNode.ts) *)

Module ActualTemplateNode.

Section Layout.
Context `{Host}.

(** A layout part: [{kind:'lit', text}] or [{kind:'sub', index}]. *)
Inductive Part : Type :=
| Lit (text : jsstring)
| Sub (index : Z).

Record Entry : Type := { name : option jsstring; parts : list Part }.

(** [formatForMessage]; [None] stands for the [RangeError] that
    [toISOString] raises on an invalid date. *)
Definition formatForMessage (v : ParsedVariant) : option jsstring :=
  match v with
  | PVNull => Some []
  | PVDate (Some t) => Some (toISOString t)
  | PVDate None => None
  | PVBigInt n => Some (dec n)
  | PVNumber n => Some (dec n)
  | PVFloat bits => Some (String_of_float bits)
  | PVString s => Some s
  | PVArray l => Some (jsjoin (js ", ") l)
  | PVBool b => Some (js (if b then "true" else "false"))
  | PVBytes bs => Some (jsjoin (js ",") (List.map (fun b => dec (BinaryReader.bz b)) bs))
  | PVObject _ => Some (js "[object Object]")
  end.

Definition isSub (p : Part) : bool :=
  match p with Sub _ => true | Lit _ => false end.

(** [out.slice(0, end)] *)
Definition slice0 {A} (out : list A) (e : Z) : list A :=
  if e <? 0 then List.firstn (Z.to_nat (Z.of_nat (List.length out) + e)) out
  else List.firstn (Z.to_nat e) out.

(** [maxPlaceholders && out.length >= maxPlaceholders] *)
Definition reached (maxPlaceholders : option Z) (out : list jsstring) : bool :=
  match maxPlaceholders with
  | Some m => negb (m =? 0) && (m <=? Z.of_nat (List.length out))
  | None => false
  end.

(** [maxPlaceholders && out.length > maxPlaceholders] *)
Definition exceeded (maxPlaceholders : option Z) (out : list jsstring) : bool :=
  match maxPlaceholders with
  | Some m => negb (m =? 0) && (m <? Z.of_nat (List.length out))
  | None => false
  end.

Definition truncated (maxPlaceholders : option Z) (out : list jsstring) : list jsstring :=
  match maxPlaceholders with
  | Some m => slice0 out m
  | None => out
  end.

(** How a loop body leaves: on to the next iteration, [return], or a throw. *)
Inductive flow : Type :=
| Next (out : list jsstring)
| Return (result : list jsstring)
| Raise.

(** [substitutions[idx]] guarded by [idx >= 0 && idx < substitutions.length] *)
Definition substitutionAt (substitutions : list ParsedVariant) (idx : Z) : ParsedVariant :=
  if (0 <=? idx) && (idx <? Z.of_nat (List.length substitutions))
  then List.nth (Z.to_nat idx) substitutions PVNull
  else PVString [].

(** the inner [for (const p of entry.parts)] of an entry that has a reference *)
Fixpoint pushReferences (substitutions : list ParsedVariant) (maxPlaceholders : option Z)
    (ps : list Part) (out : list jsstring) : flow :=
  match ps with
  | [] => Next out
  | Lit _ :: rest => pushReferences substitutions maxPlaceholders rest out
  | Sub idx :: rest =>
      match formatForMessage (substitutionAt substitutions idx) with
      | None => Raise
      | Some text =>
          let out := out ++ [text] in
          if reached maxPlaceholders out then Return (truncated maxPlaceholders out)
          else pushReferences substitutions maxPlaceholders rest out
      end
  end.

(** [entry.parts.filter(lit).map(text).join('')] *)
Definition literalText (ps : list Part) : jsstring :=
  List.concat (List.map (fun p => match p with Lit t => t | Sub _ => [] end) ps).

(** the outer [for (const entry of layout)] *)
Fixpoint pushEntries (substitutions : list ParsedVariant) (maxPlaceholders : option Z)
    (layout : list Entry) (out : list jsstring) : flow :=
  match layout with
  | [] =>
      Return (if exceeded maxPlaceholders out then truncated maxPlaceholders out else out)
  | entry :: rest =>
      if List.existsb isSub (parts entry) then
        match pushReferences substitutions maxPlaceholders (parts entry) out with
        | Next out => pushEntries substitutions maxPlaceholders rest out
        | other => other
        end
      else
        let out := out ++ [literalText (parts entry)] in
        if reached maxPlaceholders out then Return (truncated maxPlaceholders out)
        else pushEntries substitutions maxPlaceholders rest out
  end.

(** [buildArgsFromLayout(layout, substitutions, maxPlaceholders?)];
    [None] when formatting a value throws. *)
Definition buildArgsFromLayout (layout : list Entry) (substitutions : list ParsedVariant)
    (maxPlaceholders : option Z) : option (list jsstring) :=
  match pushEntries substitutions maxPlaceholders layout [] with
  | Return result => Some result
  | Next out => Some out
  | Raise => None
  end.

(** *** The arguments an entry contributes, read off the loop bodies *)

(** a value that [formatForMessage] prints without throwing *)
Definition printable (v : ParsedVariant) : bool :=
  match v with PVDate None => false | _ => true end.

Definition formatText (v : ParsedVariant) : jsstring :=
  match formatForMessage v with Some s => s | None => [] end.

(** one argument per reference, in order; an array is one argument *)
Definition referenceArgs (substitutions : list ParsedVariant) (ps : list Part)
  : list jsstring :=
  List.flat_map
    (fun p => match p with
              | Sub idx => [formatText (substitutionAt substitutions idx)]
              | Lit _ => []
              end) ps.

Definition entryArgs (substitutions : list ParsedVariant) (entry : Entry) : list jsstring :=
  if List.existsb isSub (parts entry)
  then referenceArgs substitutions (parts entry)
  else [literalText (parts entry)].

(** *** The arguments as the specification words them

    "emit each referenced value (arrays expanded element-by-element into
    successive args)"; literal-only entries emit the joined literal text. *)
Definition specReferenceArgs (substitutions : list ParsedVariant) (ps : list Part)
  : list jsstring :=
  List.flat_map
    (fun p => match p with
              | Sub idx =>
                  match substitutionAt substitutions idx with
                  | PVArray elements => elements
                  | v => [formatText v]
                  end
              | Lit _ => []
              end) ps.

Definition specEntryArgs (substitutions : list ParsedVariant) (entry : Entry)
  : list jsstring :=
  if List.existsb isSub (parts entry)
  then specReferenceArgs substitutions (parts entry)
  else [literalText (parts entry)].

Definition specArgs (layout : list Entry) (substitutions : list ParsedVariant)
    (max : option Z) : list jsstring :=
  let all := List.flat_map (specEntryArgs substitutions) layout in
  match max with
  | Some m => List.firstn (Z.to_nat m) all
  | None => all
  end.

End Layout.
End ActualTemplateNode.

(** A layout with one [<Data>] that references substitution 0, one
    literal-only [<Data>] and one empty [<Data>]; substitution 0 is the
    two-element string array ["a", "b"]. *)
Definition sample_layout : list ActualTemplateNode.Entry :=
  [ {| ActualTemplateNode.name := Some (js "Data");
       ActualTemplateNode.parts := [ActualTemplateNode.Sub 0] |};
    {| ActualTemplateNode.name := Some (js "Data");
       ActualTemplateNode.parts := [ActualTemplateNode.Lit (js "x"); ActualTemplateNode.Lit (js "y")] |};
    {| ActualTemplateNode.name := Some (js "Data");
       ActualTemplateNode.parts := [] |} ].

Definition sample_substitutions : list ParsedVariant :=
  [PVArray [js "a"; js "b"]; PVNumber 7].

(** ** Placeholder substitution and template fit (api.ts) *)

Module Api.

(** Code units the patterns mention. *)
Definition PERCENT : Z := 37.
Definition BANG : Z := 33.
Definition LBRACE : Z := 123.
Definition RBRACE : Z := 125.
Definition LOWER_N : Z := 110.
Definition NEWLINE : Z := 10.

(** [\d] *)
Definition isDigit (c : Z) : bool := (48 <=? c) && (c <=? 57).
(** [[A-Za-z]] *)
Definition isLetter (c : Z) : bool :=
  ((65 <=? c) && (c <=? 90)) || ((97 <=? c) && (c <=? 122)).
(** [[^!]] *)
Definition notBang (c : Z) : bool := negb (c =? BANG).

(** the longest prefix of [s] whose units satisfy [f], and what follows *)
Fixpoint span (f : Z -> bool) (s : jsstring) : jsstring * jsstring :=
  match s with
  | c :: tl =>
      if f c then let '(run, rest) := span f tl in (c :: run, rest)
      else ([], s)
  | [] => ([], [])
  end.

(** [parseInt(digits, 10)] on a run of decimal digits (exact; JavaScript
    agrees below 2^53) *)
Definition parseInt (digits : jsstring) : Z :=
  List.fold_left (fun acc d => 10 * acc + (d - 48)) digits 0.

(** [args[i] ?? ''] *)
Definition argAt (args : list jsstring) (i : Z) : jsstring :=
  if (0 <=? i) && (i <? Z.of_nat (List.length args))
  then List.nth (Z.to_nat i) args [] else [].

(** A pattern tried at the head of [s]: the capture and the text after the
    match. *)
Definition matcher := jsstring -> option (jsstring * jsstring).

(** the pattern for [%N!fmt!]: '%', one or more digits, '!', any run of
    units other than '!', '!' *)
Definition matchFormatted : matcher := fun s =>
  match s with
  | c :: tl =>
      if c =? PERCENT then
        match span isDigit tl with
        | ([], _) => None
        | (digits, b :: afterBang) =>
            if b =? BANG then
              match span notBang afterBang with
              | (_, b2 :: rest) => if b2 =? BANG then Some (digits, rest) else None
              | (_, []) => None
              end
            else None
        | (_, []) => None
        end
      else None
  | [] => None
  end.

(** the pattern for [%N]: '%' and one or more digits, as many as follow *)
Definition matchPlain : matcher := fun s =>
  match s with
  | c :: tl =>
      if c =? PERCENT then
        match span isDigit tl with
        | ([], _) => None
        | (digits, rest) => Some (digits, rest)
        end
      else None
  | [] => None
  end.

(** the pattern for [%n] *)
Definition matchNewline : matcher := fun s =>
  match s with
  | c :: n :: rest => if (c =? PERCENT) && (n =? LOWER_N) then Some ([], rest) else None
  | _ => None
  end.

(** the pattern for [{N}]: '{', one or more digits, '}' *)
Definition matchBraced : matcher := fun s =>
  match s with
  | c :: tl =>
      if c =? LBRACE then
        match span isDigit tl with
        | ([], _) => None
        | (digits, b :: rest) => if b =? RBRACE then Some (digits, rest) else None
        | (_, []) => None
        end
      else None
  | [] => None
  end.

(** the pattern for a leftover format token: '!', one or more ASCII
    letters, '!' *)
Definition matchFormatToken : matcher := fun s =>
  match s with
  | c :: tl =>
      if c =? BANG then
        match span isLetter tl with
        | ([], _) => None
        | (letters, b :: rest) => if b =? BANG then Some (letters, rest) else None
        | (_, []) => None
        end
      else None
  | [] => None
  end.

(** [s.replace(/re/g, f)]: leftmost matches, left to right, each search
    resuming where the previous match ended; the inserted text is not scanned
    again.  Every pattern here consumes at least one unit, so [length s]
    rounds are enough. *)
Fixpoint replaceFrom (fuel : nat) (m : matcher) (f : jsstring -> jsstring)
    (s : jsstring) : jsstring :=
  match fuel with
  | O => s
  | S fuel' =>
      match s with
      | [] => []
      | c :: tl =>
          match m s with
          | Some (capture, rest) => f capture ++ replaceFrom fuel' m f rest
          | None => c :: replaceFrom fuel' m f tl
          end
      end
  end.

Definition replaceAll (m : matcher) (f : jsstring -> jsstring) (s : jsstring) : jsstring :=
  replaceFrom (List.length s) m f s.

(** The five passes of [applyMessageTemplate]. *)
Definition passFormatted (args : list jsstring) : jsstring -> jsstring :=
  replaceAll matchFormatted (fun n => argAt args (parseInt n - 1)).
Definition passPlain (args : list jsstring) : jsstring -> jsstring :=
  replaceAll matchPlain (fun n => argAt args (parseInt n - 1)).
Definition passNewline : jsstring -> jsstring :=
  replaceAll matchNewline (fun _ => [NEWLINE]).
Definition passBraced (args : list jsstring) : jsstring -> jsstring :=
  replaceAll matchBraced (fun n => argAt args (parseInt n)).
Definition passFormatTokens : jsstring -> jsstring :=
  replaceAll matchFormatToken (fun _ => []).

Definition applyMessageTemplate (template : jsstring) (args : list jsstring) : jsstring :=
  let s := template in
  let s := passFormatted args s in
  let s := passPlain args s in
  let s := passNewline s in
  let s := passBraced args s in
  let s := passFormatTokens s in
  s.

(** The numbers of the [%N] occurrences of [s], as [re.exec] enumerates them. *)
Fixpoint placeholdersFrom (fuel : nat) (s : jsstring) : list Z :=
  match fuel with
  | O => []
  | S fuel' =>
      match s with
      | [] => []
      | c :: tl =>
          match matchPlain s with
          | Some (digits, rest) => parseInt digits :: placeholdersFrom fuel' rest
          | None => placeholdersFrom fuel' tl
          end
      end
  end.

Definition placeholders (s : jsstring) : list Z := placeholdersFrom (List.length s) s.

(** [placeholderMax] *)
Definition placeholderMax (tpl : jsstring) : Z :=
  List.fold_left (fun max n => if max <? n then n else max) (placeholders tpl) 0.



(** the code unit [c] occurs in [s] *)
Definition occurs (c : Z) (s : jsstring) : bool := List.existsb (Z.eqb c) s.





(** [fit] of a selection *)
Inductive Fit : Type := exact | underflow | overflow.

Record Selection : Type := {
  templateText : jsstring;
  placeholders_ : Z;
  fit : Fit;
  argsUsed : Z;
}.

(** The [selection] record assembled in [buildResolvedEventFromRecord] for the
    chosen template and the arguments built for it. *)
Definition select (chosenTemplate : jsstring) (args : list jsstring) : Selection :=
  let need := placeholderMax chosenTemplate in
  let argsLength := Z.of_nat (List.length args) in
  let argsUsed := if 0 <? need then Z.min argsLength need else argsLength in
  let fit := if need =? argsUsed then exact
             else if argsUsed <? need then underflow else overflow in
  {| templateText := chosenTemplate; placeholders_ := need; fit := fit;
     argsUsed := argsUsed |}.

(** [finalArgs]: padded with '' or cut to [need] when [need > 0] *)
Definition finalArgs (need : Z) (args : list jsstring) : list jsstring :=
  if 0 <? need then
    if Z.of_nat (List.length args) <? need
    then args ++ List.repeat [] (Z.to_nat (need - Z.of_nat (List.length args)))
    else List.firstn (Z.to_nat need) args
  else args.


End Api.

(** ** Two concrete hosts, used to run the model on sample bytes

    Both decode UTF-16LE code unit by code unit and UTF-8 byte by byte (exact
    on ASCII payloads); they differ in the local time zone only. *)

Fixpoint utf16le_units (bs : list byte) : jsstring :=
  match bs with
  | lo :: hi :: tl => (BinaryReader.bz lo + 256 * BinaryReader.bz hi) :: utf16le_units tl
  | _ => []
  end.

Definition host_at_zone (offset_ms : Z) : Host := {|
  utf16le_decode := utf16le_units;
  utf8_decode := List.map BinaryReader.bz;
  LocalTZA := fun _ => offset_ms;
  toISOString := dec;
  String_of_float := hex;
|}.

(** a machine whose local zone is UTC *)
Definition host_utc : Host := host_at_zone 0.
(** a machine one hour east of Greenwich *)
Definition host_utc_plus_1 : Host := host_at_zone 3600000.

(** ** Sample inputs *)

(** A 24-byte record: magic, size 0x18, record number 1, FILETIME 0. *)
Definition record_with_zero_filetime : list byte :=
  [x2a; x2a; x00; x00; x18; x00; x00; x00;
   x01; x00; x00; x00; x00; x00; x00; x00;
   x00; x00; x00; x00; x00; x00; x00; x00].

(** Seventeen sample bytes 01..11. *)
Definition sample_bytes : list byte :=
  [x01; x02; x03; x04; x05; x06; x07; x08; x09; x0a; x0b; x0c; x0d; x0e; x0f;
   x10; x11].

(** SYSTEMTIME 2024-01-15 (Monday) 10:30:45.123 *)
Definition systemtime_bytes : list byte :=
  [xe8; x07; x01; x00; x01; x00; x0f; x00; x0a; x00; x1e; x00; x2d; x00; x7b; x00].

(** A substitution block whose count bytes are [00 00 00 02]: two
    declarations (UnsignedDWord of size 4, UnsignedWord of size 2) and their
    values. *)
Definition block_with_big_endian_count : list byte :=
  [x00; x00; x00; x02;
   x04; x00; x08; x00;  x02; x00; x06; x00;
   x11; x22; x33; x44;  x55; x66].

(** The same block with the count stored little-endian. *)
Definition block_with_little_endian_count : list byte :=
  [x02; x00; x00; x00;
   x04; x00; x08; x00;  x02; x00; x06; x00;
   x11; x22; x33; x44;  x55; x66].

(** A slab that starts with one chunk at offset 0: a 0x200-byte header region
    left zero (empty string and template tables, and an all-zero template
    definition at any offset inside it), then at 0x200 an OpenStartElement
    with the inline name "Data" and a single CloseEmptyElement as content. *)
Definition chunk_with_inline_element : list byte :=
  List.repeat x00 0x200 ++
  [x01; x00; x00;  x01; x00; x00; x00;  x0b; x02; x00; x00;
   x00; x00; x00; x00;  x34; x12;  x04; x00;
   x44; x00; x61; x00; x74; x00; x61; x00;  x00; x00;
   x03].

(** The same header region, then at 0x200 an embedded BXML fragment:
    StartOfStream, a TemplateInstance that refers to the template at chunk
    offset 0, and right after it the substitution header: count 1, one
    declaration (size 2, UnsignedWord), one value. *)
Definition chunk_with_embedded_bxml : list byte :=
  List.repeat x00 0x200 ++
  [x0f; x01; x01; x00;
   x0c; x01;  x11; x11; x11; x11;  x00; x00; x00; x00;
   x01; x00; x00; x00;  x02; x00; x06; x00;  x55; x66].

(** A chunk whose reader stands at [p] and whose caches are empty. *)
Definition world_at (p : Z) : Chunk.World :=
  {| Chunk.position := p; Chunk.clones := []; Chunk.strings := None;
     Chunk.templates := ∅ |}.

(** ** Further functions of binary/BinaryReader.ts *)

(** [align(offset, alignment)].  [%] is the remainder with the sign of the
    dividend; for [alignment = 0] it is [NaN], and so is the result ([None]). *)
Definition align (offset alignment : Z) : option Z :=
  if alignment =? 0 then None
  else if Z.rem offset alignment =? 0 then Some offset
  else Some (offset + (alignment - Z.rem offset alignment)).


(** A CDataSection token with a declared text of five code units. *)
Definition cdata_bytes : list byte :=
  [x07; x05; x00; x41; x00; x42; x00; x43; x00; x44; x00; x45; x00; x00].


(** ** Blocks (evtx/Block.ts) *)

Module Block.
Import BinaryReader.

Section Block.
(** [offset] of the block in the slab *)
Variable offset : Z.

(** [abs(rel)] *)
Definition abs (rel : Z) : Z := offset + rel.

(** [Block.checkBounds(rel, len)] *)
Definition checkBounds (rel len : Z) : Rd unit :=
  if (rel <? 0) || (len <? 0) then throw
  else
    let absOffset := abs rel in
    sz ← BinaryReader.size;
    if sz <? absOffset + len then throw else mret tt.

(** the short-hand readers delegate to the reader without a check of their own *)
Definition u16 (rel : Z) : Rd Z := u16leAt (abs rel).
Definition u32 (rel : Z) : Rd Z := u32leAt (abs rel).
Definition u64 (rel : Z) : Rd Z := u64leAt (abs rel).

(** [bytes(rel, len)] *)
Definition bytes (rel len : Z) : Rd (list byte) :=
  checkBounds rel len;; bytesAt (abs rel) len.

End Block.
End Block.

(** ** Record iteration and string lookup (evtx/ChunkHeader.ts) *)

Module ChunkHeader.
Import BinaryReader.

(** How [new Record(reader, offset, chunk)] ends when it does not fail with
    an error of another class: the record is built, or the constructor
    throws an [InvalidRecordException]. *)
Inductive Construction : Type :=
| Constructed
| InvalidRecordException.

Definition newRecord (recordOffset : Z) : Rd Construction :=
  m ← Record.magic recordOffset;
  if negb (m =? 0x00002a2a) then mret InvalidRecordException
  else
    s ← Record.size recordOffset;
    if 0x10000 <? s then mret InvalidRecordException else mret Constructed.

(** What a consumer of the generator [records()] sees: the offsets of the
    records yielded, and whether the generator then ended by throwing again
    an error that is not an [InvalidRecordException]. *)
Record Yielded : Type := {
  yielded : list Z;
  rethrown : bool;
}.

(** the magic and size fields of the record at [o], as laid out in the slab *)
Definition magic_at (buf : list byte) (o : Z) : Z := le_val (slice buf o 4).
Definition size_at (buf : list byte) (o : Z) : Z := le_val (slice buf (o + 4) 4).

(** [l] is a run of well-formed records laid end to end from [start], all of
    them beginning before [endOffset] *)
Fixpoint framed (buf : list byte) (endOffset start : Z) (l : list Z) : Prop :=
  match l with
  | [] => True
  | o :: tl =>
      o = start /\ o < endOffset
      /\ magic_at buf o = 0x00002a2a /\ 0 < size_at buf o <= 0x10000
      /\ framed buf endOffset (start + size_at buf o) tl
  end.

(** where the run [l] of records that begins at [start] ends *)
Definition extent (buf : list byte) (start : Z) (l : list Z) : Z :=
  List.fold_left (fun pos o => pos + size_at buf o) l start.

(** why the iteration ends at [stop] without an error: the chunk's records
    end there, or what lies there has size 0, a wrong magic, or a size above
    0x10000 *)
Definition ended (buf : list byte) (endOffset stop : Z) : Prop :=
  endOffset <= stop \/ size_at buf stop = 0
  \/ magic_at buf stop <> 0x00002a2a \/ 0x10000 < size_at buf stop.

Section ChunkHeader.
(** [offset] of the chunk in the file *)
Variable offset : Z.

Definition logFirstRecordNumber : Rd Z := Block.u64 offset 0x18.
Definition logLastRecordNumber : Rd Z := Block.u64 offset 0x20.
Definition nextRecordOffset : Rd Z := Block.u32 offset 0x30.

(** the [while] of [records()], entered with a record that has been built;
    every record yielded is at least one byte long and begins before
    [endOffset], which bounds the rounds *)
Fixpoint recordsLoop (fuel : nat) (endOffset record : Z) : Rd Yielded :=
  match fuel with
  | O => mret {| yielded := []; rethrown := false |}
  | S fuel' =>
      if record <? endOffset then
        len ← try_catch (l ← Record.size record; mret (Some l)) (mret None);
        match len with
        | None => mret {| yielded := []; rethrown := true |}
        | Some len =>
            if 0 <? len then
              next ← try_catch (c ← newRecord (record + len); mret (Some c))
                               (mret None);
              match next with
              | Some Constructed =>
                  rest ← recordsLoop fuel' endOffset (record + len);
                  mret {| yielded := record :: yielded rest;
                          rethrown := rethrown rest |}
              | Some InvalidRecordException =>
                  mret {| yielded := [record]; rethrown := false |}
              | None => mret {| yielded := [record]; rethrown := true |}
              end
            else mret {| yielded := []; rethrown := false |}
        end
      else mret {| yielded := []; rethrown := false |}
  end.

(** [records()] *)
Definition records : Rd Yielded :=
  first ← try_catch (c ← newRecord (offset + 0x200); mret (Some c)) (mret None);
  match first with
  | None => mret {| yielded := []; rethrown := true |}
  | Some InvalidRecordException => mret {| yielded := []; rethrown := false |}
  | Some Constructed =>
      nro ← try_catch (n ← nextRecordOffset; mret (Some n)) (mret None);
      match nro with
      | None => mret {| yielded := []; rethrown := true |}
      | Some nro => recordsLoop (Z.to_nat nro) (offset + nro) (offset + 0x200)
      end
  end.

(** [getString(offset)] *)
Definition getString (ofs : Z) : Chunk.W (option jsstring) :=
  m ← Chunk.stringsTable offset;
  mret (match m !! ofs with
        | Some stringNode => Some (Chunk.name stringNode)
        | None => None
        end).

End ChunkHeader.
End ChunkHeader.

(** ** The file header (evtx/FileHeader.ts) *)

Module FileHeader.
Import BinaryReader.

Definition MAX_SAFE_INTEGER : Z := 2 ^ 53 - 1.

(** the text the magic is compared with: "ElfFile" and a NUL *)
Definition ELF_FILE : jsstring := js "ElfFile" ++ [0].

(** the chunk at [c] holds [recordNum] in its range of log record numbers *)
Definition inRange (buf : list byte) (recordNum c : Z) : Prop :=
  u64_of buf (c + 0x18) <= recordNum <= u64_of buf (c + 0x20).

Section FileHeader.
Context `{Host}.
(** [crc32Checksum], a wrapper of the package crc-32 *)
Variable crc32Checksum : list byte -> Z.
(** [offset] of the header in the slab *)
Variable offset : Z.

Definition magic : Rd jsstring :=
  bytes ← Block.bytes offset 0x00 8;
  mret (utf8_decode bytes).
Definition oldestChunk : Rd Z := Block.u64 offset 0x08.
Definition currentChunkNumber : Rd Z := Block.u64 offset 0x10.
Definition nextRecordNumber : Rd Z := Block.u64 offset 0x18.
Definition headerSize : Rd Z := Block.u32 offset 0x20.
Definition minorVersion : Rd Z := Block.u16 offset 0x24.
Definition majorVersion : Rd Z := Block.u16 offset 0x26.
Definition headerChunkSize : Rd Z := Block.u16 offset 0x28.
Definition chunkCount : Rd Z := Block.u16 offset 0x2A.
Definition flags : Rd Z := Block.u32 offset 0x78.
Definition checksum : Rd Z := Block.u32 offset 0x7C.

Definition checkMagic : Rd bool :=
  try_catch (m ← magic; mret (bool_decide (m = ELF_FILE))) (mret false).

(** [crc32Checksum(data) >>> 0] *)
Definition calculateChecksum : Rd Z :=
  data ← Block.bytes offset 0 0x78;
  mret (crc32Checksum data mod 2 ^ 32).

(** [verify()]: the operands of [&&] are evaluated from left to right, and
    only while the ones before hold *)
Definition verify : Rd bool :=
  okMagic ← checkMagic;
  if negb okMagic then mret false
  else
    major ← majorVersion;
    if negb (major =? 0x3) then mret false
    else
      minor ← minorVersion;
      if negb ((minor =? 0x1) || (minor =? 0x2)) then mret false
      else
        hcs ← headerChunkSize;
        if negb (hcs =? 0x1000) then mret false
        else
          stored ← checksum;
          computed ← calculateChecksum;
          mret (stored =? computed).

Definition isDirty : Rd bool := f ← flags; mret (Z.land f 0x1 =? 0x1).
Definition isFull : Rd bool := f ← flags; mret (Z.land f 0x2 =? 0x2).

(** the [while] of [chunks()]; a chunk is yielded only when it lies wholly
    inside the slab, which bounds the rounds *)
Fixpoint chunksLoop (fuel : nat) (size maxChunks offset i : Z) : list Z :=
  match fuel with
  | O => []
  | S fuel' =>
      if (offset + 0x10000 <=? size) && (i <? maxChunks)
      then offset :: chunksLoop fuel' size maxChunks (offset + 0x10000) (i + 1)
      else []
  end.

(** [chunks(includeInactive)]: the offsets of the chunks yielded *)
Definition chunks (includeInactive : bool) : Rd (list Z) :=
  maxChunks ← (if includeInactive then mret MAX_SAFE_INTEGER else chunkCount);
  hcs ← headerChunkSize;
  sz ← BinaryReader.size;
  mret (chunksLoop (S (Z.to_nat (sz / 0x10000))) sz maxChunks (offset + hcs) 0).

(** [for (const record of chunk.records())] of [getRecord] *)
Fixpoint findRecord (recordNum : Z) (l : list Z) : Rd (option Z) :=
  match l with
  | [] => mret None
  | record :: tl =>
      n ← Record.recordNum record;
      if n =? recordNum then mret (Some record) else findRecord recordNum tl
  end.

(** [for (const chunk of this.chunks())] of [getRecord] *)
Fixpoint searchChunks (recordNum : Z) (cs : list Z) : Rd (option Z) :=
  match cs with
  | [] => mret None
  | chunk :: tl =>
      firstRecord ← ChunkHeader.logFirstRecordNumber chunk;
      lastRecord ← ChunkHeader.logLastRecordNumber chunk;
      if negb ((firstRecord <=? recordNum) && (recordNum <=? lastRecord))
      then searchChunks recordNum tl
      else
        y ← ChunkHeader.records chunk;
        found ← findRecord recordNum (ChunkHeader.yielded y);
        match found with
        | Some record => mret (Some record)
        | None =>
            if ChunkHeader.rethrown y then throw else searchChunks recordNum tl
        end
  end.

(** [getRecord(recordNum)]: the offset of the record found, [None] for [null] *)
Definition getRecord (recordNum : Z) : Rd (option Z) :=
  cs ← chunks false;
  searchChunks recordNum cs.

End FileHeader.
End FileHeader.

(** *** A sample file: the header, and one chunk with two records of 32 bytes *)

Definition u64_bytes (lo : byte) : list byte := [lo; x00; x00; x00; x00; x00; x00; x00].

Definition sample_record (number : byte) : list byte :=
  [x2a; x2a; x00; x00;  x20; x00; x00; x00] ++ u64_bytes number ++ u64_bytes x00
  ++ [x0f; x01; x01; x00;  x20; x00; x00; x00].

Definition sample_file : list byte :=
  (* file header *)
  [x45; x6c; x66; x46; x69; x6c; x65; x00] ++ List.repeat x00 0x1c
  ++ [x01; x00;  x03; x00;  x00; x10;  x01; x00] ++ List.repeat x00 (0x1000 - 0x2c)
  (* chunk header: log records 1 to 2, next record at 0x240 *)
  ++ [x45; x6c; x66; x43; x68; x6e; x6b; x00] ++ List.repeat x00 0x10
  ++ u64_bytes x01 ++ u64_bytes x02 ++ List.repeat x00 8
  ++ [x40; x02; x00; x00] ++ List.repeat x00 (0x200 - 0x34)
  ++ sample_record x01 ++ sample_record x02
  ++ List.repeat x00 (Z.to_nat (0x10000 - 0x240)).


(** ** XML escaping (evtx/ActualTemplateNode.ts) *)

Module Xml.

(** the class of code units [escapeXml] removes first: the control characters
    other than tab, line feed and carriage return, DEL and the C1 controls *)
Definition isInvalidXmlChar (c : Z) : bool :=
  ((0x00 <=? c) && (c <=? 0x08)) || (c =? 0x0B) || (c =? 0x0C)
  || ((0x0E <=? c) && (c <=? 0x1F)) || ((0x7F <=? c) && (c <=? 0x9F)).

(** [s.replace(/c/g, by)] for a pattern that is one literal character *)
Definition replaceUnit (c : Z) (by_ : jsstring) (s : jsstring) : jsstring :=
  List.flat_map (fun x => if x =? c then by_ else [x]) s.

(** [escapeXml(text)]: five passes, '&' first *)
Definition escapeXml (text : jsstring) : jsstring :=
  let cleanText := List.filter (fun c => negb (isInvalidXmlChar c)) text in
  replaceUnit 39 (js "&#x27;")
    (replaceUnit 34 (js "&quot;")
       (replaceUnit 62 (js "&gt;")
          (replaceUnit 60 (js "&lt;")
             (replaceUnit 38 (js "&amp;") cleanText)))).

(** what one code unit of the text becomes when the five characters are
    replaced at once *)
Definition escapeUnit (c : Z) : jsstring :=
  if c =? 38 then js "&amp;" else if c =? 60 then js "&lt;"
  else if c =? 62 then js "&gt;" else if c =? 34 then js "&quot;"
  else if c =? 39 then js "&#x27;" else [c].

End Xml.

(** ** Byte patterns in raw record data (api.ts) *)

Module Patterns.
Import BinaryReader.

(** the result [{ index, length }] *)
Record Found : Type := { index : Z; length : Z }.

(** the inner loop: the pattern bytes against the data from the current
    index on *)
Fixpoint matchesAt (data : list byte) (patternBytes : list Z) {struct patternBytes}
    : bool :=
  match patternBytes with
  | [] => true
  | b :: bs =>
      match data with
      | d :: ds => (bz d =? b) && matchesAt ds bs
      | [] => false
      end
  end.

(** the outer loop at index [i], [data] being the bytes from [i] on:
    [for (i; i <= data.length - patternBytes.length; i++)] *)
Fixpoint searchFrom (data : list byte) (patternBytes : list Z) (i : Z) : Found :=
  if Z.of_nat (List.length patternBytes) <=? Z.of_nat (List.length data) then
    if matchesAt data patternBytes
    then {| index := i; length := Z.of_nat (List.length patternBytes) |}
    else match data with
         | _ :: rest => searchFrom rest patternBytes (i + 1)
         | [] => {| index := -1; length := 0 |}
         end
  else {| index := -1; length := 0 |}.

(** [findUnicodePattern(data, pattern)]: every code unit of the pattern is
    followed by a zero byte *)
Definition unicodeBytes (pattern : jsstring) : list Z :=
  List.flat_map (fun c => [c; 0]) pattern.
Definition findUnicodePattern (data : list byte) (pattern : jsstring) : Found :=
  searchFrom data (unicodeBytes pattern) 0.

Section Binary.
(** [new TextEncoder().encode(pattern)] *)
Variable encode : jsstring -> list byte.

(** [findBinaryPattern(data, pattern)] *)
Definition findBinaryPattern (data : list byte) (pattern : jsstring) : Found :=
  searchFrom data (List.map bz (encode pattern)) 0.
End Binary.

(** the pattern bytes stand in [data] at index [k] *)
Definition occursAt (data : list byte) (patternBytes : list Z) (k : nat) : Prop :=
  (k + List.length patternBytes <= List.length data)%nat
  /\ List.map bz (List.firstn (List.length patternBytes) (List.skipn k data))
     = patternBytes.

End Patterns.


(** ** Readable text in raw record data (api.ts) *)

Module ReadableText.
Import BinaryReader.

(** [char >= 32 && char <= 126] *)
Definition isPrintable (char : Z) : bool := (32 <=? char) && (char <=? 126).

(** [currentText.length > longestText.length && currentText.length > 10] *)
Definition better (longestText currentText : jsstring) : jsstring :=
  if (Z.of_nat (List.length longestText) <? Z.of_nat (List.length currentText))
     && (10 <? Z.of_nat (List.length currentText))
  then currentText else longestText.

(** one round of the loop on the state [(longestText, currentText)] *)
Definition step (st : jsstring * jsstring) (b : byte) : jsstring * jsstring :=
  let '(longestText, currentText) := st in
  let char := bz b in
  if isPrintable char then (longestText, currentText ++ [char])
  else (better longestText currentText, []).

(** [extractLongestReadableText(data)]; [None] is [null] *)
Definition extractLongestReadableText (data : list byte) : option jsstring :=
  let '(longestText, currentText) := List.fold_left step data ([], []) in
  match better longestText currentText with
  | [] => None
  | longestText => Some longestText
  end.

(** [r] is a run of consecutive printable bytes of [data] *)
Definition printableRun (r : jsstring) (data : list Z) : Prop :=
  List.Forall (fun c => isPrintable c = true) r
  /\ exists before after, data = before ++ r ++ after.

(** the part of the data before the current run: empty, or ended by a byte
    that is not printable *)
Definition closed (Q : list Z) : Prop :=
  Q = [] \/ exists Q' x, Q = Q' ++ [x] /\ isPrintable x = false.

(** what the loop knows with [Q] closed, [C] the current run and [L] the
    longest text so far *)
Definition inv (Q L C : list Z) : Prop :=
  List.Forall (fun c => isPrintable c = true) C
  /\ closed Q
  /\ (L = [] \/ (10 < Z.of_nat (List.length L) /\ printableRun L Q))
  /\ (forall r, printableRun r Q -> 10 < Z.of_nat (List.length r) ->
                (List.length r <= List.length L)%nat).

End ReadableText.

(** ** Choice of the message template (api.ts) *)

Module TemplateChoice.
Import Api.

(** the score of a candidate whose highest placeholder is [need], for a
    record with [layoutCount] layout items and [argsLength] baseline
    arguments *)
Definition score (layoutCount argsLength need : Z) : Z :=
  let score := 0 in
  let score := if need =? layoutCount then score + 1000 else score in
  score + (if need =? argsLength then 500
           else if need <=? argsLength then 200 + need
                else 50 - Z.abs (need - argsLength)).

(** [score > bestScore], [None] being [-Infinity] *)
Definition exceeds (score : Z) (bestScore : option Z) : bool :=
  match bestScore with
  | None => true
  | Some best => best <? score
  end.

(** the loop over the candidates from index [j] on, with the state
    [(bestIdx, bestScore)] *)
Fixpoint pickLoop (layoutCount argsLength : Z) (rest : list jsstring) (j : nat)
    (bestIdx : nat) (bestScore : option Z) : nat * option Z :=
  match rest with
  | [] => (bestIdx, bestScore)
  | tpl :: rest' =>
      let need := placeholderMax tpl in
      let score := score layoutCount argsLength need in
      if exceeds score bestScore
      then pickLoop layoutCount argsLength rest' (S j) j (Some score)
      else pickLoop layoutCount argsLength rest' (S j) bestIdx bestScore
  end.

(** the index [bestIdx] for a list of candidates *)
Definition bestIndex (layoutCount argsLength : Z) (limited : list jsstring) : nat :=
  fst (pickLoop layoutCount argsLength limited 0 0 None).

(** [chosenTemplate] for a provider: [None] when it has no candidate, and the
    next provider name is tried *)
Definition chooseTemplate (layoutCount argsLength : Z) (limited : list jsstring)
    : option jsstring :=
  match limited with
  | [] => None
  | _ => List.nth_error limited (bestIndex layoutCount argsLength limited)
  end.

(** the score of a template *)
Definition fitScore (layoutCount argsLength : Z) (tpl : jsstring) : Z :=
  score layoutCount argsLength (placeholderMax tpl).

(** what the loop knows after the candidates [seen] *)
Definition bestSoFar (layoutCount argsLength : Z) (seen : list jsstring)
    (bestIdx : nat) (bestScore : option Z) : Prop :=
  match bestScore with
  | None => seen = []
  | Some best =>
      exists tpl, List.nth_error seen bestIdx = Some tpl
        /\ best = fitScore layoutCount argsLength tpl
        /\ forall k t, List.nth_error seen k = Some t ->
             fitScore layoutCount argsLength t <= best
             /\ ((k < bestIdx)%nat -> fitScore layoutCount argsLength t < best)
  end.

End TemplateChoice.

(** * Properties *)

(** ** Reader lemmas *)

Section ReaderFacts.
Import BinaryReader.

Lemma bind_unfold {A B} (m : Rd A) (k : A -> Rd B) buf p :
  (m ≫= k) buf p =
  match m buf p with
  | (Ret a, p') => k a buf p'
  | (Throw, p') => (Throw, p')
  end.
Proof. reflexivity. Qed.

Lemma bind_ret {A B} (m : Rd A) (k : A -> Rd B) buf p a p' :
  m buf p = (Ret a, p') -> (m ≫= k) buf p = k a buf p'.
Proof. intros E. rewrite bind_unfold, E. reflexivity. Qed.

Lemma bind_throw {A B} (m : Rd A) (k : A -> Rd B) buf p p' :
  m buf p = (Throw, p') -> (m ≫= k) buf p = (Throw, p').
Proof. intros E. rewrite bind_unfold, E. reflexivity. Qed.

Lemma checkBounds_ok buf p offset n :
  0 <= offset -> offset + n <= byteLength buf ->
  checkBounds offset n buf p = (Ret tt, p).
Proof.
  intros H0 H1. unfold checkBounds.
  destruct (offset <? 0) eqn:E0; [apply Z.ltb_lt in E0; lia|].
  destruct (byteLength buf <? offset + n) eqn:E1; [apply Z.ltb_lt in E1; lia|].
  reflexivity.
Qed.

Lemma checkBounds_fail buf p offset n :
  byteLength buf < offset + n -> checkBounds offset n buf p = (Throw, p).
Proof.
  intros H1. unfold checkBounds.
  destruct (byteLength buf <? offset + n) eqn:E1;
    [|apply Z.ltb_ge in E1; lia].
  rewrite orb_true_r. reflexivity.
Qed.

Lemma seek_ok buf p position :
  0 <= position <= byteLength buf -> seek position buf p = (Ret tt, position).
Proof.
  intros [H0 H1]. unfold seek.
  destruct (position <? 0) eqn:E0; [apply Z.ltb_lt in E0; lia|].
  destruct (byteLength buf <? position) eqn:E1; [apply Z.ltb_lt in E1; lia|].
  reflexivity.
Qed.

Lemma streaming_ok {A} (at_ : Z -> Rd A) n buf p a :
  at_ p buf p = (Ret a, p) -> streaming at_ n buf p = (Ret a, p + n).
Proof.
  intros E. unfold streaming.
  rewrite bind_unfold. cbn [tell]. rewrite bind_unfold, E. reflexivity.
Qed.

Lemma streaming_throw {A} (at_ : Z -> Rd A) n buf p :
  at_ p buf p = (Throw, p) -> streaming at_ n buf p = (Throw, p).
Proof.
  intros E. unfold streaming.
  rewrite bind_unfold. cbn [tell]. rewrite bind_unfold, E. reflexivity.
Qed.

Lemma u8_ok buf p :
  0 <= p -> p + 1 <= byteLength buf ->
  u8 buf p = (Ret (le_val (slice buf p 1)), p + 1).
Proof.
  intros. apply streaming_ok. unfold u8At.
  rewrite (bind_ret _ _ _ _ tt p) by (apply checkBounds_ok; lia). reflexivity.
Qed.

Lemma i8_ok buf p :
  0 <= p -> p + 1 <= byteLength buf ->
  i8 buf p = (Ret (signed 8 (le_val (slice buf p 1))), p + 1).
Proof.
  intros. apply streaming_ok. unfold i8At.
  rewrite (bind_ret _ _ _ _ tt p) by (apply checkBounds_ok; lia). reflexivity.
Qed.

Lemma u16le_ok buf p :
  0 <= p -> p + 2 <= byteLength buf ->
  u16le buf p = (Ret (le_val (slice buf p 2)), p + 2).
Proof.
  intros. apply streaming_ok. unfold u16leAt.
  rewrite (bind_ret _ _ _ _ tt p) by (apply checkBounds_ok; lia). reflexivity.
Qed.

Lemma i16le_ok buf p :
  0 <= p -> p + 2 <= byteLength buf ->
  i16le buf p = (Ret (signed 16 (le_val (slice buf p 2))), p + 2).
Proof.
  intros. apply streaming_ok. unfold i16leAt.
  rewrite (bind_ret _ _ _ _ tt p) by (apply checkBounds_ok; lia). reflexivity.
Qed.

Lemma u32le_ok buf p :
  0 <= p -> p + 4 <= byteLength buf ->
  u32le buf p = (Ret (le_val (slice buf p 4)), p + 4).
Proof.
  intros. apply streaming_ok. unfold u32leAt.
  rewrite (bind_ret _ _ _ _ tt p) by (apply checkBounds_ok; lia). reflexivity.
Qed.

Lemma i32le_ok buf p :
  0 <= p -> p + 4 <= byteLength buf ->
  i32le buf p = (Ret (signed 32 (le_val (slice buf p 4))), p + 4).
Proof.
  intros. apply streaming_ok. unfold i32leAt.
  rewrite (bind_ret _ _ _ _ tt p) by (apply checkBounds_ok; lia). reflexivity.
Qed.

Lemma u32be_ok buf p :
  0 <= p -> p + 4 <= byteLength buf ->
  u32be buf p = (Ret (be_val (slice buf p 4)), p + 4).
Proof.
  intros. apply streaming_ok. unfold u32beAt.
  rewrite (bind_ret _ _ _ _ tt p) by (apply checkBounds_ok; lia). reflexivity.
Qed.

Lemma f32le_ok buf p :
  0 <= p -> p + 4 <= byteLength buf ->
  f32le buf p = (Ret (le_val (slice buf p 4)), p + 4).
Proof.
  intros. apply streaming_ok. unfold f32leAt.
  rewrite (bind_ret _ _ _ _ tt p) by (apply checkBounds_ok; lia). reflexivity.
Qed.

Lemma f64le_ok buf p :
  0 <= p -> p + 8 <= byteLength buf ->
  f64le buf p = (Ret (le_val (slice buf p 8)), p + 8).
Proof.
  intros. apply streaming_ok. unfold f64leAt.
  rewrite (bind_ret _ _ _ _ tt p) by (apply checkBounds_ok; lia). reflexivity.
Qed.

Lemma u64leAt_ok buf p offset :
  0 <= offset -> offset + 8 <= byteLength buf ->
  u64leAt offset buf p = (Ret (u64_of buf offset), p).
Proof.
  intros. unfold u64leAt.
  rewrite (bind_ret _ _ _ _ tt p) by (apply checkBounds_ok; lia). reflexivity.
Qed.

Lemma u64le_ok buf p :
  0 <= p -> p + 8 <= byteLength buf ->
  u64le buf p = (Ret (u64_of buf p), p + 8).
Proof. intros. apply streaming_ok. apply u64leAt_ok; lia. Qed.

Lemma i64le_ok buf p :
  0 <= p -> p + 8 <= byteLength buf ->
  i64le buf p =
  (Ret (if 2 ^ 63 <=? u64_of buf p then u64_of buf p - 2 ^ 64 else u64_of buf p),
   p + 8).
Proof.
  intros. apply streaming_ok. unfold i64leAt.
  rewrite (bind_ret _ _ _ _ tt p) by (apply checkBounds_ok; lia).
  rewrite (bind_ret _ _ _ _ (u64_of buf p) p) by (apply u64leAt_ok; lia).
  destruct (2 ^ 63 <=? u64_of buf p); reflexivity.
Qed.

Lemma bytesAt_ok buf p offset n :
  0 <= offset -> offset + n <= byteLength buf ->
  bytesAt offset n buf p = (Ret (slice buf offset n), p).
Proof.
  intros. unfold bytesAt.
  rewrite (bind_ret _ _ _ _ tt p) by (apply checkBounds_ok; lia). reflexivity.
Qed.

End ReaderFacts.

Ltac rd_read lem := erewrite bind_ret by (apply lem; lia).
Ltac rd_pure := erewrite bind_ret by reflexivity.

(** ** Record timestamps *)

Section RecordTimestamp.
Import BinaryReader.

Lemma timestampAsDate_value buf offset p filetime :
  Record.timestamp offset buf p = (Ret filetime, p) ->
  Record.timestampAsDate offset buf p =
  (Ret (JsDate.ofMillis (Z.quot filetime 10000 - 11644473600000)), p).
Proof.
  intros E. unfold Record.timestampAsDate. rewrite (bind_ret _ _ _ _ _ _ E).
  reflexivity.
Qed.

(** The sibling conversion maps a zero FILETIME to the Unix epoch, as its
    unit test expects. *)
Lemma filetimeToDate_zero : filetimeToDate 0 = Some 0.
Proof. reflexivity. Qed.

(** C6 (code level): [Record.timestampAsDate] applies the constant
    11,644,473,600,000 ms without a guard for zero, so a record whose FILETIME
    is 0 is dated 1601-01-01T00:00:00Z (time value -11644473600000) and not
    the Unix epoch. *)
Theorem timestampAsDate_zero_is_1601 buf offset p :
  Record.timestamp offset buf p = (Ret 0, p) ->
  Record.timestampAsDate offset buf p = (Ret (Some (-11644473600000)), p)
  /\ Some (-11644473600000) <> filetimeToDate 0.
Proof.
  intros E. split.
  - rewrite (timestampAsDate_value _ _ _ _ E). reflexivity.
  - discriminate.
Qed.

Example record_with_zero_filetime_valid :
  Record.new 0 record_with_zero_filetime 0 = (Ret tt, 0).
Proof. reflexivity. Qed.

Lemma timestampAsDate_zero_is_1601_witness :
  Record.timestamp 0 record_with_zero_filetime 0 = (Ret 0, 0)
  /\ Record.timestampAsDate 0 record_with_zero_filetime 0
     = (Ret (Some (-11644473600000)), 0)
  /\ Some (-11644473600000) <> filetimeToDate 0.
Proof.
  split; [reflexivity|].
  apply (timestampAsDate_zero_is_1601 record_with_zero_filetime 0 0).
  reflexivity.
Defined.

End RecordTimestamp.

(** ** Variant decoding *)

Section VariantFacts.
Import BinaryReader VariantValueParser.
Context `{Host}.

Lemma parseSystemTime_value buf p :
  0 <= p -> p + 16 <= byteLength buf ->
  parseSystemTime buf p =
  (Ret (JsDate.TimeClip (systemTimeUTC buf p - LocalTZA (systemTimeUTC buf p))),
   p + 16).
Proof.
  intros H0 H1. unfold parseSystemTime.
  do 8 rd_read u16le_ok.
  unfold mret, Rd_ret, ret, JsDate.ofLocalFields, systemTimeUTC, u16_at.
  repeat rewrite <- Z.add_assoc. cbn [Z.add Pos.add Pos.succ]. reflexivity.
Qed.

Lemma parseGuid_ok buf p :
  0 <= p -> p + 16 <= byteLength buf ->
  exists v, parseGuid buf p = (Ret v, p + 16).
Proof.
  intros H0 H1. unfold parseGuid.
  rd_read u32le_ok. do 2 rd_read u16le_ok. rd_pure.
  rd_read bytesAt_ok. rd_pure. rd_read seek_ok.
  eexists. unfold mret, Rd_ret, ret. f_equal. lia.
Qed.

Lemma parseFileTime_ok buf p :
  0 <= p -> p + 8 <= byteLength buf ->
  parseFileTime buf p =
  (Ret (JsDate.ofMillis (Z.quot (u64_of buf p) 10000 - 11644473600000)), p + 8).
Proof.
  intros H0 H1. unfold parseFileTime. rd_read u64le_ok. reflexivity.
Qed.

Lemma try_catch_ret {A} (m h : Rd A) buf p a p' :
  m buf p = (Ret a, p') -> try_catch m h buf p = (Ret a, p').
Proof. intros E. unfold try_catch. rewrite E. reflexivity. Qed.

Ltac fixed_case lem :=
  eexists; unfold parse; rd_pure; apply try_catch_ret;
  unfold parse_switch; rd_read lem; reflexivity.

(** C5 (code level): in substitution mode a fixed-width type reads its natural
    width and leaves the cursor at [start + width], whatever size the
    declaration table gave; the declared size is only compared in a warning. *)
Theorem parse_fixed_width_ignores_declared_size type w declared buf p :
  naturalWidth type = Some w ->
  0 <= p -> p + w <= byteLength buf ->
  exists v,
    parse type (Some declared) buf p
    = (Ret {| value := v; consumedBytes := w |}, p + w).
Proof.
  intros Hw H0 H1. unfold naturalWidth in Hw.
  destruct type as [|q|q]; try discriminate.
  do 5 (try (destruct q as [q|q|]; try discriminate));
    injection Hw as <-.
  all: try (destruct (parseGuid_ok buf p H0 H1) as [g Hg]).
  all: first
    [ fixed_case u8_ok | fixed_case i8_ok | fixed_case u16le_ok
    | fixed_case i16le_ok | fixed_case u32le_ok | fixed_case i32le_ok
    | fixed_case u64le_ok | fixed_case i64le_ok | fixed_case f32le_ok
    | fixed_case f64le_ok | fixed_case parseFileTime_ok
    | fixed_case parseSystemTime_value
    | eexists; unfold parse; rd_pure; apply try_catch_ret;
      unfold parse_switch; erewrite bind_ret by exact Hg; reflexivity ].
Qed.

(** C7 (code level): a SystemTime substitution is read from eight u16 fields
    and handed to the [Date] constructor that takes LOCAL time, so the decoded
    instant is the UTC reading of the fields shifted by the host's zone. *)
Theorem parseSystemTime_reads_local_time buf p :
  0 <= p -> p + 16 <= byteLength buf ->
  parse VariantType.SystemTime (Some 16) buf p
  = (Ret {| value := PVDate (JsDate.TimeClip
                               (systemTimeUTC buf p - LocalTZA (systemTimeUTC buf p)));
            consumedBytes := 16 |},
     p + 16).
Proof.
  intros H0 H1. unfold parse. rd_pure. apply try_catch_ret.
  unfold parse_switch. rd_read parseSystemTime_value. reflexivity.
Qed.

End VariantFacts.

(** An UnsignedDWord declared with size 8: four bytes are read, the cursor
    stops at 4 and not at 8. *)
Lemma parse_fixed_width_ignores_declared_size_witness :
  VariantValueParser.naturalWidth VariantType.UnsignedDWord = Some 4
  /\ 0 <= 0 /\ 0 + 4 <= BinaryReader.byteLength sample_bytes
  /\ exists v,
       VariantValueParser.parse (H := host_utc) VariantType.UnsignedDWord (Some 8)
         sample_bytes 0
       = (BinaryReader.Ret {| VariantValueParser.value := v;
                              VariantValueParser.consumedBytes := 4 |}, 0 + 4).
Proof.
  split; [reflexivity|]. split; [lia|]. split; [vm_compute; discriminate|].
  apply (parse_fixed_width_ignores_declared_size (H := host_utc)
           VariantType.UnsignedDWord 4 8 sample_bytes 0);
    [reflexivity | lia | vm_compute; discriminate].
Defined.

Example parse_dword_declared_8 :
  VariantValueParser.parse (H := host_utc) VariantType.UnsignedDWord (Some 8)
    sample_bytes 0
  = (BinaryReader.Ret {| VariantValueParser.value := PVNumber 67305985;
                         VariantValueParser.consumedBytes := 4 |}, 4).
Proof. reflexivity. Qed.

Lemma parseSystemTime_reads_local_time_witness :
  0 <= 0 /\ 0 + 16 <= BinaryReader.byteLength systemtime_bytes
  /\ VariantValueParser.parse (H := host_utc_plus_1) VariantType.SystemTime (Some 16)
       systemtime_bytes 0
     = (BinaryReader.Ret
          {| VariantValueParser.value :=
               PVDate (JsDate.TimeClip
                         (VariantValueParser.systemTimeUTC systemtime_bytes 0
                          - @LocalTZA host_utc_plus_1
                              (VariantValueParser.systemTimeUTC systemtime_bytes 0)));
             VariantValueParser.consumedBytes := 16 |}, 0 + 16).
Proof.
  split; [lia|]. split; [vm_compute; discriminate|].
  apply (parseSystemTime_reads_local_time (H := host_utc_plus_1) systemtime_bytes 0);
    [lia | vm_compute; discriminate].
Defined.

(** The same sixteen bytes decode to instants one hour apart on the two
    hosts: 2024-01-15T10:30:45.123Z on the UTC machine, 09:30:45.123Z on the
    machine at UTC+1. *)
Example systemTime_depends_on_zone :
  VariantValueParser.parseSystemTime (H := host_utc) systemtime_bytes 0
  = (BinaryReader.Ret (Some 1705314645123), 16)
  /\ VariantValueParser.parseSystemTime (H := host_utc_plus_1) systemtime_bytes 0
     = (BinaryReader.Ret (Some 1705311045123), 16).
Proof. split; reflexivity. Qed.

(** ** The cursor stays inside the slab *)

Section Bounds.
Import BinaryReader.

Lemma kb_ret {A} (a : A) : keeps_bounds (mret a).
Proof. intros buf p Hp. exact Hp. Qed.

Lemma kb_throw {A} : keeps_bounds (@throw A).
Proof. intros buf p Hp. exact Hp. Qed.

Lemma kb_tell : keeps_bounds tell.
Proof. intros buf p Hp. exact Hp. Qed.

Lemma kb_inspect {A} (f : list byte -> A) : keeps_bounds (inspect f).
Proof. intros buf p Hp. exact Hp. Qed.

Lemma kb_size : keeps_bounds BinaryReader.size.
Proof. apply kb_inspect. Qed.

Lemma kb_checkBounds offset n : keeps_bounds (checkBounds offset n).
Proof.
  intros buf p Hp. unfold checkBounds.
  destruct ((offset <? 0) || (byteLength buf <? offset + n)); exact Hp.
Qed.

Lemma kb_seek position : keeps_bounds (seek position).
Proof.
  intros buf p Hp. unfold seek.
  destruct (position <? 0) eqn:E0; [exact Hp|].
  destruct (byteLength buf <? position) eqn:E1; [exact Hp|].
  apply Z.ltb_ge in E0, E1. cbn. split; lia.
Qed.

Lemma kb_bind {A B} (m : Rd A) (k : A -> Rd B) :
  keeps_bounds m -> (forall a, keeps_bounds (k a)) -> keeps_bounds (m ≫= k).
Proof.
  intros Hm Hk buf p Hp. rewrite bind_unfold.
  specialize (Hm buf p Hp). destruct (m buf p) as [[a|] p']; cbn in Hm.
  - apply Hk, Hm.
  - exact Hm.
Qed.

Lemma kb_try_catch {A} (m h : Rd A) :
  keeps_bounds m -> keeps_bounds h -> keeps_bounds (try_catch m h).
Proof.
  intros Hm Hh buf p Hp. unfold try_catch.
  specialize (Hm buf p Hp). destruct (m buf p) as [[a|] p']; cbn in Hm.
  - exact Hm.
  - apply Hh, Hm.
Qed.

Lemma reads_at_checked {A} (n : Z) (f : Z -> list byte -> A) :
  reads_at (fun offset => checkBounds offset n;; inspect (f offset)) n.
Proof.
  intros pos buf p. rewrite bind_unfold. unfold checkBounds.
  destruct (pos <? 0) eqn:E0; cbn; [split; [reflexivity|discriminate]|].
  destruct (byteLength buf <? pos + n) eqn:E1; cbn; [split; [reflexivity|discriminate]|].
  apply Z.ltb_ge in E0, E1. split; [reflexivity|]. intros _ _. lia.
Qed.

Lemma reads_at_u64 : reads_at u64leAt 8.
Proof.
  intros pos buf p. unfold u64leAt. rewrite bind_unfold. unfold checkBounds.
  destruct (pos <? 0) eqn:E0; cbn; [split; [reflexivity|discriminate]|].
  destruct (byteLength buf <? pos + 8) eqn:E1; cbn; [split; [reflexivity|discriminate]|].
  apply Z.ltb_ge in E0, E1. split; [reflexivity|]. intros _ _. lia.
Qed.

Lemma reads_at_i64 : reads_at i64leAt 8.
Proof.
  intros pos buf p. unfold i64leAt. rewrite bind_unfold.
  destruct (checkBounds pos 8 buf p) as [[[]|] p0] eqn:Ec.
  - unfold checkBounds in Ec.
    destruct (pos <? 0) eqn:E0; [discriminate|].
    destruct (byteLength buf <? pos + 8) eqn:E1; [discriminate|].
    cbn in Ec. injection Ec as <-. apply Z.ltb_ge in E0, E1.
    rewrite bind_unfold.
    rewrite (u64leAt_ok buf p pos) by lia.
    destruct (2 ^ 63 <=? u64_of buf pos); cbn; (split; [reflexivity|intros; lia]).
  - unfold checkBounds in Ec.
    destruct ((pos <? 0) || (byteLength buf <? pos + 8)); [|discriminate].
    injection Ec as <-. cbn. split; [reflexivity|discriminate].
Qed.

Lemma kb_streaming {A} (at_ : Z -> Rd A) n :
  0 <= n -> reads_at at_ n -> keeps_bounds (streaming at_ n).
Proof.
  intros Hn Hat buf p Hp. unfold streaming. rewrite bind_unfold. cbn [tell].
  rewrite bind_unfold. destruct (Hat p buf p) as [Hs Hr].
  destruct (at_ p buf p) as [[a|] p'] eqn:E; cbn in Hs; subst p'.
  - destruct (Hr a eq_refl) as [H0 H1]. rewrite bind_unfold. unfold advance.
    cbn. unfold in_bounds in *. lia.
  - exact Hp.
Qed.

Lemma kb_u8 : keeps_bounds u8.
Proof. apply kb_streaming; [lia | apply (reads_at_checked 1)]. Qed.
Lemma kb_i8 : keeps_bounds i8.
Proof. apply kb_streaming; [lia | apply (reads_at_checked 1)]. Qed.
Lemma kb_u16le : keeps_bounds u16le.
Proof. apply kb_streaming; [lia | apply (reads_at_checked 2)]. Qed.
Lemma kb_i16le : keeps_bounds i16le.
Proof. apply kb_streaming; [lia | apply (reads_at_checked 2)]. Qed.
Lemma kb_u32le : keeps_bounds u32le.
Proof. apply kb_streaming; [lia | apply (reads_at_checked 4)]. Qed.
Lemma kb_u32be : keeps_bounds u32be.
Proof. apply kb_streaming; [lia | apply (reads_at_checked 4)]. Qed.
Lemma kb_i32le : keeps_bounds i32le.
Proof. apply kb_streaming; [lia | apply (reads_at_checked 4)]. Qed.
Lemma kb_f32le : keeps_bounds f32le.
Proof. apply kb_streaming; [lia | apply (reads_at_checked 4)]. Qed.
Lemma kb_f64le : keeps_bounds f64le.
Proof. apply kb_streaming; [lia | apply (reads_at_checked 8)]. Qed.
Lemma kb_u64le : keeps_bounds u64le.
Proof. apply kb_streaming; [lia | apply reads_at_u64]. Qed.
Lemma kb_i64le : keeps_bounds i64le.
Proof. apply kb_streaming; [lia | apply reads_at_i64]. Qed.

Lemma kb_bytesAt offset n : keeps_bounds (bytesAt offset n).
Proof. apply kb_bind; [apply kb_checkBounds | intros; apply kb_inspect]. Qed.

End Bounds.

Create HintDb kb.
#[export] Hint Resolve kb_ret kb_throw kb_tell kb_inspect kb_size kb_checkBounds
  kb_seek kb_try_catch kb_u8 kb_i8 kb_u16le kb_i16le kb_u32le kb_u32be kb_i32le
  kb_f32le kb_f64le kb_u64le kb_i64le kb_bytesAt : kb.

(** Decompose a reader program along its binds and branches. *)
Ltac kb_step :=
  match goal with
  | |- BinaryReader.keeps_bounds (_ ≫= _) => apply kb_bind; [|intros]
  | |- BinaryReader.keeps_bounds (if ?c then _ else _) => destruct c
  | |- BinaryReader.keeps_bounds (match ?x with _ => _ end) => destruct x
  | |- BinaryReader.keeps_bounds (let '(_, _) := ?x in _) => destruct x
  | |- BinaryReader.keeps_bounds _ => solve [auto with kb]
  end.
Ltac kb := repeat kb_step.

Section VariantBounds.
Import BinaryReader VariantValueParser.
Context `{Host}.

Lemma kb_read_units n : keeps_bounds (read_units n).
Proof. induction n; cbn [read_units]; kb. Qed.

Lemma kb_read_u32s n : keeps_bounds (read_u32s n).
Proof. induction n; cbn [read_u32s]; kb. Qed.

Lemma kb_parseWString : keeps_bounds parseWString.
Proof. unfold parseWString. kb. Qed.

Lemma kb_read_wstrings n : keeps_bounds (read_wstrings n).
Proof.
  induction n; cbn [read_wstrings]; [kb|].
  apply kb_bind; [apply kb_parseWString|intros]. kb.
Qed.

Lemma kb_parseWStringWithLength e : keeps_bounds (parseWStringWithLength e).
Proof. unfold parseWStringWithLength. kb. Qed.
Lemma kb_parseString : keeps_bounds parseString.
Proof. unfold parseString. kb. Qed.
Lemma kb_parseStringWithLength e : keeps_bounds (parseStringWithLength e).
Proof. unfold parseStringWithLength. kb. Qed.
Lemma kb_parseBinary : keeps_bounds parseBinary.
Proof. unfold parseBinary. kb. Qed.
Lemma kb_parseGuid : keeps_bounds parseGuid.
Proof. unfold parseGuid. kb. Qed.
Lemma kb_parseFileTime : keeps_bounds parseFileTime.
Proof. unfold parseFileTime. kb. Qed.
Lemma kb_parseSystemTime : keeps_bounds parseSystemTime.
Proof. unfold parseSystemTime. kb. Qed.
Lemma kb_parseSid : keeps_bounds parseSid.
Proof.
  unfold parseSid. do 6 (apply kb_bind; [auto with kb|intros]).
  apply kb_bind; [apply kb_read_u32s|intros]. kb.
Qed.
Lemma kb_parseBXml : keeps_bounds parseBXml.
Proof. unfold parseBXml. kb. Qed.
Lemma kb_parseBXmlWithLength e : keeps_bounds (parseBXmlWithLength e).
Proof. unfold parseBXmlWithLength. kb. Qed.
Lemma kb_parseWStringArrayWithLength e :
  keeps_bounds (parseWStringArrayWithLength e).
Proof. unfold parseWStringArrayWithLength. kb. Qed.
Lemma kb_parseWStringArray : keeps_bounds parseWStringArray.
Proof.
  unfold parseWStringArray. apply kb_bind; [auto with kb|intros].
  apply kb_read_wstrings.
Qed.
Lemma kb_result v n : keeps_bounds (result v n).
Proof. unfold result. kb. Qed.

Hint Resolve kb_parseWString kb_parseWStringWithLength kb_parseString
  kb_parseStringWithLength kb_parseBinary kb_parseGuid kb_parseFileTime
  kb_parseSystemTime kb_parseSid kb_parseBXml kb_parseBXmlWithLength
  kb_parseWStringArrayWithLength kb_parseWStringArray kb_result : kb.

Lemma kb_parse_switch type expectedLength startPos :
  keeps_bounds (parse_switch type expectedLength startPos).
Proof.
  unfold parse_switch.
  destruct type as [|q|q]; [kb| |kb].
  do 8 (try (destruct q as [q|q|])); kb.
Qed.

(** With a declared size that fits, [parse] always returns: a throw inside
    the [switch] is caught and the cursor is put at [start + declared]. *)
Lemma parse_total type declared buf p :
  0 <= p -> 0 <= declared -> p + declared <= byteLength buf ->
  exists r p', parse type (Some declared) buf p = (Ret r, p') /\ in_bounds buf p'.
Proof.
  intros H0 H1 H2. unfold parse. rd_pure. unfold try_catch.
  pose proof (kb_parse_switch type (Some declared) p buf p) as Hb.
  destruct (parse_switch type (Some declared) p buf p) as [[r|] p'].
  - exists r, p'. split; [reflexivity|]. apply Hb. unfold in_bounds. lia.
  - rd_read seek_ok. eexists _, _. split; [reflexivity|]. unfold in_bounds. lia.
Qed.

End VariantBounds.

(** ** The substitution block of a record *)

Section RootNodeFacts.
Import BinaryReader VariantValueParser RootNode.
Context `{Host}.

Lemma bz_range b : 0 <= bz b <= 255.
Proof. unfold bz. pose proof (Byte.to_N_bounded b). lia. Qed.

Lemma le_val_nonneg bs : 0 <= le_val bs.
Proof.
  induction bs as [|b tl IH]; cbn [le_val]; [lia|].
  pose proof (bz_range b). lia.
Qed.

Lemma slice_length buf offset n :
  0 <= offset -> 0 <= n -> offset + n <= byteLength buf ->
  List.length (slice buf offset n) = Z.to_nat n.
Proof.
  intros H0 H1 H2. unfold slice, byteLength in *.
  rewrite List.length_firstn, List.length_skipn. lia.
Qed.



Lemma readDeclarations_total n buf p :
  in_bounds buf p ->
  exists ds p',
    readDeclarations n buf p = (Ret ds, p') /\ in_bounds buf p'
    /\ Forall (fun d => 0 <= size d) ds.
Proof.
  revert p. induction n as [|n IH]; intros p Hp.
  - exists [], p. repeat split; auto; apply Hp.
  - cbn [readDeclarations]. do 2 rd_pure. unfold in_bounds in Hp.
    destruct (p + 4 <=? byteLength buf) eqn:E.
    + apply Z.leb_le in E.
      rd_read u16le_ok. do 2 rd_read u8_ok.
      destruct (IH (p + 2 + 1 + 1)) as (ds & p' & E' & Hb & Hf);
        [unfold in_bounds; lia|].
      erewrite bind_ret by exact E'.
      eexists _, p'. split; [reflexivity|]. split; [exact Hb|].
      constructor; [cbn; apply le_val_nonneg | exact Hf].
    + exists [], p. repeat split; auto; lia.
Qed.

Lemma readValues_total decls buf p :
  in_bounds buf p -> Forall (fun d => 0 <= size d) decls ->
  exists vals n p',
    readValues decls buf p = (Ret (vals, n), p') /\ in_bounds buf p'.
Proof.
  revert p. induction decls as [|d rest IH]; intros p Hp Hf.
  - exists [], 0, p. split; [reflexivity|exact Hp].
  - inversion Hf as [|? ? Hd Hrest]; subst.
    cbn [readValues]. do 2 rd_pure. unfold in_bounds in Hp.
    destruct (p + size d <=? byteLength buf) eqn:E.
    + apply Z.leb_le in E.
      destruct (parse_total (type d) (size d) buf p) as (r & p1 & Er & Hb1);
        [lia..|].
      erewrite bind_ret by exact Er.
      destruct (IH p1 Hb1 Hrest) as (vals & n & p' & E' & Hb).
      erewrite bind_ret by exact E'.
      eexists _, _, p'. split; [reflexivity|exact Hb].
    + exists [], 0, p. split; [reflexivity|]. unfold in_bounds. lia.
Qed.

End RootNodeFacts.

Section SubstitutionHeader.
Import BinaryReader VariantValueParser RootNode.
Context `{Host}.


End SubstitutionHeader.


Example phase2_little_endian_block :
  exists r,
    RootNode.phase2 (H := host_utc) 0 1 block_with_little_endian_count 0
    = (BinaryReader.Ret (Some r), 18)
    /\ RootNode.substitutionCount r = 2
    /\ RootNode.subDeclarations r
       = [ {| RootNode.size := 4; RootNode.type := 8 |};
           {| RootNode.size := 2; RootNode.type := 6 |} ]
    /\ RootNode.substitutions r = [PVNumber 0x44332211; PVNumber 0x6655].
Proof. eexists. split; [vm_compute; reflexivity|]. repeat split. Qed.


Example phase2_big_endian_block :
  exists r,
    RootNode.phase2 (H := host_utc) 0 1 block_with_big_endian_count 0
    = (BinaryReader.Ret (Some r), 18)
    /\ RootNode.substitutionCountLE r = 0x02000000
    /\ RootNode.substitutionCount r = 2
    /\ RootNode.substitutions r = [PVNumber 0x44332211; PVNumber 0x6655].
Proof. eexists. split; [vm_compute; reflexivity|]. repeat split. Qed.

(** ** Message arguments *)

Section LayoutArgs.
Import ActualTemplateNode.
Context `{Host}.

Lemma formatForMessage_printable v :
  printable v = true -> formatForMessage v = Some (formatText v).
Proof.
  unfold formatText.
  destruct v as [| | | | |[t|]| | | |]; intros Hp; try reflexivity.
  discriminate Hp.
Qed.

Lemma substitutionAt_printable substitutions idx :
  List.forallb printable substitutions = true ->
  printable (substitutionAt substitutions idx) = true.
Proof.
  intros Hall. unfold substitutionAt.
  destruct ((0 <=? idx) && (idx <? Z.of_nat (List.length substitutions))) eqn:E;
    [|reflexivity].
  apply andb_true_iff in E as [E0 E1]. apply Z.leb_le in E0. apply Z.ltb_lt in E1.
  rewrite List.forallb_forall in Hall. apply Hall, List.nth_In. lia.
Qed.

Lemma firstn_app_le {A} (n : nat) (l1 l2 : list A) :
  (n <= List.length l1)%nat -> List.firstn n (l1 ++ l2) = List.firstn n l1.
Proof.
  intros Hn. rewrite List.firstn_app.
  replace (n - List.length l1)%nat with 0%nat by lia.
  cbn. apply List.app_nil_r.
Qed.

(** Without a bound the loops only append. *)
Lemma pushReferences_unbounded substitutions ps out :
  List.forallb printable substitutions = true ->
  pushReferences substitutions None ps out
  = Next (out ++ referenceArgs substitutions ps).
Proof.
  intros Hall. revert out.
  induction ps as [|[t|idx] rest IH]; intros out; cbn [pushReferences].
  - cbn. rewrite List.app_nil_r. reflexivity.
  - apply IH.
  - rewrite formatForMessage_printable by (apply substitutionAt_printable, Hall).
    cbn [reached]. rewrite IH. cbn [referenceArgs List.flat_map].
    rewrite <- List.app_assoc. reflexivity.
Qed.

Lemma pushEntries_unbounded substitutions layout out :
  List.forallb printable substitutions = true ->
  pushEntries substitutions None layout out
  = Return (out ++ List.flat_map (entryArgs substitutions) layout).
Proof.
  intros Hall. revert out.
  induction layout as [|entry rest IH]; intros out; cbn [pushEntries].
  - cbn. rewrite List.app_nil_r. reflexivity.
  - cbn [List.flat_map]. unfold entryArgs at 1.
    destruct (List.existsb isSub (parts entry)).
    + rewrite pushReferences_unbounded by exact Hall. rewrite IH.
      rewrite <- List.app_assoc. reflexivity.
    + cbn [reached]. rewrite IH. rewrite <- List.app_assoc. reflexivity.
Qed.

Lemma slice0_firstn {A} (out : list A) m :
  0 <= m -> slice0 out m = List.firstn (Z.to_nat m) out.
Proof.
  intros Hm. unfold slice0.
  destruct (m <? 0) eqn:E; [apply Z.ltb_lt in E; lia|reflexivity].
Qed.

Lemma reached_iff m out :
  0 < m -> reached (Some m) out = (m <=? Z.of_nat (List.length out)).
Proof.
  intros Hm. unfold reached.
  destruct (m =? 0) eqn:E; [apply Z.eqb_eq in E; lia|reflexivity].
Qed.

(** With a positive bound [m] and fewer than [m] arguments so far, the inner
    loop returns the first [m] arguments as soon as they exist. *)
Lemma pushReferences_bounded substitutions m ps out :
  List.forallb printable substitutions = true ->
  0 < m -> Z.of_nat (List.length out) < m ->
  let full := out ++ referenceArgs substitutions ps in
  pushReferences substitutions (Some m) ps out
  = if m <=? Z.of_nat (List.length full)
    then Return (List.firstn (Z.to_nat m) full) else Next full.
Proof.
  intros Hall Hm. revert out.
  induction ps as [|[t|idx] rest IH]; intros out Hout; cbn [pushReferences].
  - cbn. rewrite List.app_nil_r.
    destruct (m <=? Z.of_nat (List.length out)) eqn:E;
      [apply Z.leb_le in E; lia|reflexivity].
  - apply IH, Hout.
  - rewrite formatForMessage_printable by (apply substitutionAt_printable, Hall).
    set (text := formatText (substitutionAt substitutions idx)).
    cbn [referenceArgs List.flat_map]. fold (referenceArgs substitutions rest).
    replace (out ++ [text] ++ referenceArgs substitutions rest)
      with ((out ++ [text]) ++ referenceArgs substitutions rest)
      by (rewrite <- List.app_assoc; reflexivity).
    rewrite reached_iff by exact Hm.
    destruct (m <=? Z.of_nat (List.length (out ++ [text]))) eqn:E.
    + apply Z.leb_le in E. rewrite List.length_app in E. cbn in E.
      assert (Hlen : Z.to_nat m = List.length (out ++ [text]))
        by (rewrite List.length_app; cbn; lia).
      cbn [truncated]. rewrite slice0_firstn by lia.
      destruct (m <=? Z.of_nat (List.length
                  ((out ++ [text]) ++ referenceArgs substitutions rest))) eqn:E2.
      * rewrite (firstn_app_le _ (out ++ [text])) by lia. reflexivity.
      * apply Z.leb_gt in E2. rewrite !List.length_app in E2. cbn in E2. lia.
    + apply Z.leb_gt in E. apply IH, E.
Qed.

Lemma pushEntries_bounded substitutions m layout out :
  List.forallb printable substitutions = true ->
  0 < m -> Z.of_nat (List.length out) < m ->
  pushEntries substitutions (Some m) layout out
  = Return (List.firstn (Z.to_nat m)
              (out ++ List.flat_map (entryArgs substitutions) layout)).
Proof.
  intros Hall Hm. revert out.
  induction layout as [|entry rest IH]; intros out Hout; cbn [pushEntries].
  - cbn [List.flat_map]. rewrite List.app_nil_r.
    unfold exceeded.
    destruct (m <? Z.of_nat (List.length out)) eqn:E; [apply Z.ltb_lt in E; lia|].
    rewrite andb_false_r. rewrite List.firstn_all2 by lia. reflexivity.
  - cbn [List.flat_map]. unfold entryArgs at 1.
    destruct (List.existsb isSub (parts entry)).
    + rewrite pushReferences_bounded by assumption.
      rewrite List.app_assoc.
      set (full := out ++ referenceArgs substitutions (parts entry)).
      destruct (m <=? Z.of_nat (List.length full)) eqn:E.
      * apply Z.leb_le in E. rewrite (firstn_app_le _ full) by lia. reflexivity.
      * apply Z.leb_gt in E. apply IH, E.
    + set (text := literalText (parts entry)).
      rewrite List.app_assoc. rewrite reached_iff by exact Hm.
      destruct (m <=? Z.of_nat (List.length (out ++ [text]))) eqn:E.
      * apply Z.leb_le in E. cbn [truncated]. rewrite slice0_firstn by lia.
        rewrite (firstn_app_le _ (out ++ [text])) by lia. reflexivity.
      * apply Z.leb_gt in E. apply IH, E.
Qed.

(** C8 (amended): every reference of an entry that has one contributes exactly
    one argument, the formatted value, and an array value is a single argument
    with its elements joined by ", "; a literal-only entry contributes its
    joined literal text, empty or not; the list is cut to [max] when a
    positive [max] is given. *)
Theorem buildArgsFromLayout_args layout substitutions max :
  List.forallb printable substitutions = true ->
  match max with Some m => 0 < m | None => True end ->
  buildArgsFromLayout layout substitutions max
  = Some (let all := List.flat_map (entryArgs substitutions) layout in
          match max with
          | Some m => List.firstn (Z.to_nat m) all
          | None => all
          end).
Proof.
  intros Hall Hmax. unfold buildArgsFromLayout. destruct max as [m|].
  - rewrite pushEntries_bounded by (cbn; first [assumption | lia]). reflexivity.
  - rewrite pushEntries_unbounded by exact Hall. reflexivity.
Qed.

End LayoutArgs.

Lemma buildArgsFromLayout_args_witness :
  List.forallb ActualTemplateNode.printable sample_substitutions = true
  /\ 0 < 2
  /\ ActualTemplateNode.buildArgsFromLayout (H := host_utc)
       sample_layout sample_substitutions (Some 2)
     = Some (let all := List.flat_map
                          (ActualTemplateNode.entryArgs (H := host_utc) sample_substitutions)
                          sample_layout in
             List.firstn (Z.to_nat 2) all).
Proof.
  split; [reflexivity|]. split; [lia|].
  apply (buildArgsFromLayout_args (H := host_utc)
           sample_layout sample_substitutions (Some 2));
    [reflexivity | cbn; lia].
Defined.

Example buildArgsFromLayout_sample :
  ActualTemplateNode.buildArgsFromLayout (H := host_utc)
    sample_layout sample_substitutions None
  = Some [js "a, b"; js "xy"; js ""]
  /\ ActualTemplateNode.buildArgsFromLayout (H := host_utc)
       sample_layout sample_substitutions (Some 2)
     = Some [js "a, b"; js "xy"].
Proof. split; reflexivity. Qed.

(** A bound of zero is falsy in the source's tests and cuts nothing. *)
Example buildArgsFromLayout_zero_bound :
  ActualTemplateNode.buildArgsFromLayout (H := host_utc)
    sample_layout sample_substitutions (Some 0)
  = Some [js "a, b"; js "xy"; js ""].
Proof. reflexivity. Qed.

(** C8 as stated fails: an array-valued substitution is not expanded into one
    argument per element; it becomes the single argument "a, b". *)
Lemma buildArgsFromLayout_does_not_expand_arrays :
  ~ (forall layout substitutions max,
       ActualTemplateNode.buildArgsFromLayout (H := host_utc) layout substitutions max
       = Some (ActualTemplateNode.specArgs (H := host_utc) layout substitutions max)).
Proof.
  intros claim. specialize (claim sample_layout sample_substitutions None).
  vm_compute in claim. discriminate.
Qed.

(** ** Template fit *)

Section Fit.
Import Api.

Lemma fold_max_lower_bound l acc :
  acc <= List.fold_left (fun max n => if max <? n then n else max) l acc.
Proof.
  revert acc. induction l as [|n l IH]; intros acc; cbn [List.fold_left]; [lia|].
  destruct (acc <? n) eqn:E.
  - apply Z.ltb_lt in E. specialize (IH n). lia.
  - apply IH.
Qed.

Lemma placeholderMax_nonneg tpl : 0 <= placeholderMax tpl.
Proof. apply fold_max_lower_bound. Qed.

(** C10: [argsUsed] is [min(args.length, need)] when the template has
    placeholders, so [fit] is never 'overflow' then; 'overflow' arises only
    from a template without placeholders together with a non-empty argument
    vector. *)
Theorem fit_overflow_only_without_placeholders chosenTemplate args :
  let selection := select chosenTemplate args in
  let argsLength := Z.of_nat (List.length args) in
  placeholders_ selection = placeholderMax chosenTemplate
  /\ (1 <= placeholders_ selection ->
      argsUsed selection = Z.min argsLength (placeholders_ selection)
      /\ fit selection <> overflow)
  /\ (fit selection = overflow <->
      placeholders_ selection = 0 /\ args <> []).
Proof.
  cbn zeta. unfold select. cbn [placeholders_ argsUsed fit].
  pose proof (placeholderMax_nonneg chosenTemplate) as Hn.
  set (need := placeholderMax chosenTemplate) in *.
  set (len := Z.of_nat (List.length args)).
  assert (Hlen : 0 <= len) by (subst len; lia).
  assert (Hnil : len = 0 <-> args = []).
  { subst len. destruct args; cbn; split; intros; [reflexivity|reflexivity|lia|discriminate]. }
  split; [reflexivity|]. split.
  - intros H1. destruct (0 <? need) eqn:E; [|apply Z.ltb_ge in E; lia].
    split; [reflexivity|].
    destruct (need =? Z.min len need) eqn:E1; [discriminate|].
    destruct (Z.min len need <? need) eqn:E2; [discriminate|].
    apply Z.eqb_neq in E1. apply Z.ltb_ge in E2. lia.
  - destruct (0 <? need) eqn:E.
    + apply Z.ltb_lt in E.
      destruct (need =? Z.min len need) eqn:E1;
        [split; [discriminate|intros [? _]; lia]|].
      destruct (Z.min len need <? need) eqn:E2;
        [split; [discriminate|intros [? _]; lia]|].
      apply Z.eqb_neq in E1. apply Z.ltb_ge in E2. lia.
    + apply Z.ltb_ge in E. assert (need = 0) as -> by lia.
      destruct (0 =? len) eqn:E1.
      * apply Z.eqb_eq in E1. split; [discriminate|].
        intros [_ Hne]. exfalso. apply Hne, Hnil. lia.
      * apply Z.eqb_neq in E1.
        destruct (len <? 0) eqn:E2; [apply Z.ltb_lt in E2; lia|].
        split; [|reflexivity]. intros _. split; [reflexivity|].
        intros Hc. apply Hnil in Hc. lia.
Qed.

Example fit_overflow_reached :
  fit (select (js "no placeholders") [js "a"]) = overflow.
Proof. reflexivity. Qed.

Example fit_with_placeholders :
  fit (select (js "%1 and %2") [js "a"; js "b"; js "c"]) = exact
  /\ fit (select (js "%1 and %2") [js "a"]) = underflow.
Proof. split; reflexivity. Qed.

End Fit.

(** ** Placeholder substitution *)

Section Placeholders.
Import Api.












Lemma matchBraced_head x tl : x <> LBRACE -> matchBraced (x :: tl) = None.
Proof.
  intros Hx. cbn. destruct (x =? LBRACE) eqn:E; [|reflexivity].
  apply Z.eqb_eq in E. contradiction.
Qed.

Lemma matchFormatToken_head x tl : x <> BANG -> matchFormatToken (x :: tl) = None.
Proof.
  intros Hx. cbn. destruct (x =? BANG) eqn:E; [|reflexivity].
  apply Z.eqb_eq in E. contradiction.
Qed.
















End Placeholders.


Example applyMessageTemplate_sample :
  Api.applyMessageTemplate (js "Hello %1, you are %2!s! years old%n")
    [js "Bob"; js "forty"]
  = js "Hello Bob, you are forty years old" ++ [Api.NEWLINE].
Proof. reflexivity. Qed.


Example applyMessageTemplate_residual_samples :
  Api.applyMessageTemplate (js "%!a!1") [js "x"] = js "%1"
  /\ Api.applyMessageTemplate (js "%1") [js "%1"] = js "%1"
  /\ Api.applyMessageTemplate (js "%1%2") [js "50%"; js "1"] = js "50%1"
  /\ Api.applyMessageTemplate (js "!!a!a!") [] = js "!a!".
Proof. repeat split. Qed.

(** ** Interning lookups and the chunk's reader *)

Section Frame.
Import BinaryReader Chunk Nodes.

Lemma bindW_unfold {A B} (m : W A) (k : A -> W B) buf w :
  (m ≫= k) buf w =
  match m buf w with
  | (Ret a, w') => k a buf w'
  | (Throw, w') => (Throw, w')
  end.
Proof. reflexivity. Qed.

Lemma km_ret {A} (a : A) : keeps_main (mret a).
Proof. intros buf w. reflexivity. Qed.

Lemma km_throw {A} : keeps_main (@throwW A).
Proof. intros buf w. reflexivity. Qed.

Lemma km_bind {A B} (m : W A) (k : A -> W B) :
  keeps_main m -> (forall a, keeps_main (k a)) -> keeps_main (m ≫= k).
Proof.
  intros Hm Hk buf w. rewrite bindW_unfold. specialize (Hm buf w).
  destruct (m buf w) as [[a|] w']; cbn in Hm.
  - rewrite Hk. exact Hm.
  - exact Hm.
Qed.

Lemma km_try {A} (m h : W A) :
  keeps_main m -> keeps_main h -> keeps_main (tryW m h).
Proof.
  intros Hm Hh buf w. unfold tryW. specialize (Hm buf w).
  destruct (m buf w) as [[a|] w']; cbn in Hm.
  - exact Hm.
  - rewrite Hh. exact Hm.
Qed.

Lemma km_on_clone {A} i (m : Rd A) : keeps_main (on (Clone i) m).
Proof.
  intros buf w. unfold on. cbn [positionOf].
  destruct (clones w !! i) as [p|]; [|reflexivity].
  destruct (m buf p) as [o p']. reflexivity.
Qed.

Lemma km_on_main {A} (m : Rd A) : stays m -> keeps_main (on Main m).
Proof.
  intros Hm buf w. unfold on. cbn [positionOf].
  specialize (Hm buf (position w)).
  destruct (m buf (position w)) as [o p']. cbn in *. exact Hm.
Qed.

Lemma stays_reads_at {A} (at_ : Z -> Rd A) n pos : reads_at at_ n -> stays (at_ pos).
Proof. intros Hr buf p. apply Hr. Qed.

Lemma stays_u32leAt pos : stays (u32leAt pos).
Proof. apply (stays_reads_at _ 4), (reads_at_checked 4). Qed.

Lemma stays_inspect {A} (f : list byte -> A) : stays (inspect f).
Proof. intros buf p. reflexivity. Qed.

Lemma km_cloneReader : keeps_main cloneReader.
Proof. intros buf w. reflexivity. Qed.
Lemma km_getStrings : keeps_main getStrings.
Proof. intros buf w. reflexivity. Qed.
Lemma km_setStrings s : keeps_main (setStrings s).
Proof. intros buf w. reflexivity. Qed.
Lemma km_getTemplates : keeps_main getTemplates.
Proof. intros buf w. reflexivity. Qed.
Lemma km_setTemplates t : keeps_main (setTemplates t).
Proof. intros buf w. reflexivity. Qed.

End Frame.

Create HintDb km.
#[export] Hint Resolve km_ret km_throw km_try km_on_clone km_cloneReader
  km_getStrings km_setStrings km_getTemplates km_setTemplates : km.
#[export] Hint Extern 1 (Chunk.keeps_main (Chunk.on Chunk.Main _)) =>
  apply km_on_main; first [apply stays_u32leAt | apply stays_inspect] : km.

Ltac km_step :=
  match goal with
  | |- Chunk.keeps_main (_ ≫= _) => apply km_bind; [|intros]
  | |- Chunk.keeps_main (Chunk.tryW _ _) => apply km_try
  | |- Chunk.keeps_main (if ?c then _ else _) => destruct c
  | |- Chunk.keeps_main (match ?x with _ => _ end) => destruct x
  | |- Chunk.keeps_main (let '(_, _) := ?x in _) => destruct x
  | |- Chunk.keeps_main _ => solve [auto with km]
  end.
Ltac km := repeat km_step.

Section FrameChunk.
Import BinaryReader Chunk Nodes.
Variable offset : Z.

Lemma km_u32 rel : keeps_main (u32 offset rel).
Proof. unfold u32. km. Qed.

Lemma km_nextRecordOffset : keeps_main (nextRecordOffset offset).
Proof. apply km_u32. Qed.

Lemma km_newNameStringNode i : keeps_main (newNameStringNode (Clone i)).
Proof. unfold newNameStringNode. km. Qed.

Lemma km_hasString ofs : keeps_main (hasString ofs).
Proof. unfold hasString. km. Qed.

Hint Resolve km_u32 km_nextRecordOffset km_newNameStringNode km_hasString : km.

Lemma km_addStringLoaded ofs : keeps_main (addStringLoaded offset ofs).
Proof. unfold addStringLoaded. km. Qed.

Hint Resolve km_addStringLoaded : km.

Lemma km_followChain fuel ofs : keeps_main (followChain offset fuel ofs).
Proof.
  revert ofs. induction fuel as [|fuel IH]; intros ofs; cbn [followChain]; [km|].
  apply km_bind; [km|intros inRange]. destruct inRange; [|km].
  apply km_bind; [km|intros seen]. destruct seen; [km|].
  apply km_bind; [km|intros stringNode]. cbn zeta.
  apply km_bind; [km|intros stop]. destruct stop; [km|apply IH].
Qed.

Hint Resolve km_followChain : km.

Lemma km_loadBuckets todo i : keeps_main (loadBuckets offset todo i).
Proof.
  revert i. induction todo as [|todo IH]; intros i; cbn [loadBuckets]; [km|].
  apply km_bind; [km|intros ofs]. apply km_bind; [km|intros fuel].
  apply km_bind; [km|intros _]. apply IH.
Qed.

Hint Resolve km_loadBuckets : km.

Lemma km_loadStrings : keeps_main (loadStrings offset).
Proof. unfold loadStrings. km. Qed.

Hint Resolve km_loadStrings : km.

Lemma km_stringsTable : keeps_main (stringsTable offset).
Proof. unfold stringsTable. km. Qed.

(** C4, strings: [addString] — loading the table on first use, cloning a
    reader, parsing the name and caching it — leaves the chunk's reader where
    it was, whether it returns or throws. *)
Lemma addString_keeps_main_cursor ofs : keeps_main (addString offset ofs).
Proof. unfold addString. km. Qed.

End FrameChunk.

#[export] Hint Resolve km_u32 km_nextRecordOffset km_newNameStringNode
  km_hasString km_addStringLoaded km_followChain km_loadBuckets km_loadStrings
  km_stringsTable addString_keeps_main_cursor : km.

Section FrameNodes.
Import BinaryReader Chunk Nodes.
Context `{Host}.
Variable offset : Z.
Variable factory : Factory.
Hypothesis factory_local : local factory.

Lemma km_factory i embedded : keeps_main (factory (Clone i) embedded).
Proof. apply factory_local. Qed.

Hint Resolve km_factory : km.

Lemma km_parseTemplateChildren i fuel dataEnd acc :
  keeps_main (parseTemplateChildren offset factory (Clone i) fuel dataEnd acc).
Proof.
  revert acc. induction fuel as [|fuel IH]; intros acc;
    cbn [parseTemplateChildren]; [km|].
  apply km_bind; [km|intros pos]. destruct (pos <? dataEnd); [|km].
  apply km_bind; [km|intros token]. destruct (token =? 0); [km|].
  apply km_bind; [km|intros child].
  destruct child as [[c [|]]|]; [apply IH|km|km].
Qed.

Hint Resolve km_parseTemplateChildren : km.

Lemma km_newTemplateNode i ofs :
  keeps_main (newTemplateNode offset factory (Clone i) ofs).
Proof. unfold newTemplateNode. km. Qed.

Hint Resolve km_newTemplateNode : km.

(** C4, resident templates: [addTemplate] parses through a cloned reader and
    leaves the chunk's reader where it was. *)
Lemma addTemplate_keeps_main_cursor ofs :
  keeps_main (addTemplate offset factory ofs).
Proof. unfold addTemplate. km. Qed.

Hint Resolve addTemplate_keeps_main_cursor : km.

(** The constructors, run over a cloned reader, leave [Main] alone. *)
Lemma km_newTemplateInstanceNode i embedded token :
  keeps_main (newTemplateInstanceNode offset factory (Clone i) embedded token).
Proof. unfold newTemplateInstanceNode. km. Qed.

Lemma km_fragmentChildren i fuel acc :
  keeps_main (fragmentChildren factory (Clone i) fuel acc).
Proof.
  revert acc. induction fuel as [|fuel IH]; intros acc;
    cbn [fragmentChildren]; [km|].
  apply km_bind; [km|intros next]. destruct (next =? 0); [km|].
  apply km_bind; [km|intros node]. destruct (token node =? 0); [km|apply IH].
Qed.

Hint Resolve km_fragmentChildren : km.

Lemma km_newFragmentHeaderNode i token :
  keeps_main (newFragmentHeaderNode factory (Clone i) token).
Proof. unfold newFragmentHeaderNode. km. Qed.

Lemma km_newAttributeNode i token :
  keeps_main (newAttributeNode offset factory (Clone i) token).
Proof. unfold newAttributeNode. km. Qed.

Lemma km_readAttributes i fuel contentEnd acc :
  keeps_main (readAttributes factory (Clone i) fuel contentEnd acc).
Proof.
  revert acc. induction fuel as [|fuel IH]; intros acc;
    cbn [readAttributes]; [km|].
  apply km_bind; [km|intros pos]. destruct (pos <? contentEnd); [|km].
  apply km_bind; [km|intros sz]. destruct (sz <=? pos); [km|].
  apply km_bind; [km|intros token]. cbn zeta.
  destruct (Z.land token 15 =? 6); [|km].
  apply km_bind; [km|intros attribute]. destruct attribute; [apply IH|km].
Qed.

Lemma km_readContent i fuel contentEnd acc :
  keeps_main (readContent factory (Clone i) fuel contentEnd acc).
Proof.
  revert acc. induction fuel as [|fuel IH]; intros acc;
    cbn [readContent]; [km|].
  apply km_bind; [km|intros pos]. destruct (pos <? contentEnd); [|km].
  apply km_bind; [km|intros sz]. destruct (sz <=? pos); [km|].
  apply km_bind; [km|intros step].
  destruct step as [[c [|]]|]; [km|apply IH|km].
Qed.

Hint Resolve km_readAttributes km_readContent : km.

Lemma km_read_internal_structure i size tagLength nodeStart :
  keeps_main (read_internal_structure offset factory (Clone i) size tagLength nodeStart).
Proof. unfold read_internal_structure. km. Qed.

Lemma km_readElementHeader i token :
  keeps_main (readElementHeader offset (Clone i) token).
Proof. unfold readElementHeader. km. Qed.

Hint Resolve km_read_internal_structure km_readElementHeader : km.

Lemma km_newOpenStartElementNode i token :
  keeps_main (newOpenStartElementNode offset factory (Clone i) token).
Proof. unfold newOpenStartElementNode. km. Qed.

Lemma km_newValueTextNode i token :
  keeps_main (newValueTextNode (Clone i) token).
Proof. unfold newValueTextNode. km. Qed.

Hint Resolve km_newTemplateInstanceNode km_newFragmentHeaderNode
  km_newAttributeNode km_newOpenStartElementNode km_newValueTextNode : km.

Lemma km_dispatch i embedded :
  keeps_main (dispatch offset factory (Clone i) embedded).
Proof.
  unfold dispatch. apply km_bind; [km|intros token]. cbn zeta.
  destruct (Z.land token 15) as [|q|q];
    [unfold newEndOfStreamNode; km | | unfold newUnimplementedNode; km].
  do 5 (try (destruct q as [q|q|]));
    unfold newStartOfStreamNode, newEndOfStreamNode, newCloseStartElementNode,
      newCloseEmptyElementNode, newCloseElementNode, newCDataSectionNode,
      newCharacterReferenceNode, newEntityReferenceNode,
      newProcessingInstructionTargetNode, newProcessingInstructionDataNode,
      newNormalSubstitutionNode, newOptionalSubstitutionNode,
      newUnimplementedNode; km.
Qed.

End FrameNodes.

(** The node factory of the sources is local at every nesting depth. *)
Lemma fromStream_local `{Host} offset depth :
  Chunk.local (Nodes.fromStream offset depth).
Proof.
  induction depth as [|depth IH]; intros i embedded; cbn [Nodes.fromStream].
  - apply km_throw.
  - apply km_dispatch, IH.
Qed.

Section GetTemplate.
Import BinaryReader Chunk Nodes.
Variable offset : Z.
Variable factory : Factory.

Lemma bindW_ret {A B} (m : W A) (k : A -> W B) buf w a w' :
  m buf w = (Ret a, w') -> (m ≫= k) buf w = k a buf w'.
Proof. intros E. rewrite bindW_unfold, E. reflexivity. Qed.

Lemma on_ret {A} r (m : Rd A) buf w p a p' :
  positionOf r w = Some p -> m buf p = (Ret a, p') ->
  on r m buf w = (Ret a, setPosition r p' w).
Proof. intros Hp E. unfold on. rewrite Hp, E. reflexivity. Qed.

Lemma readBuffer_ok buf p n :
  0 <= p -> p + n <= byteLength buf ->
  readBuffer n buf p = (Ret (slice buf p n), p + n).
Proof. intros. unfold readBuffer. apply streaming_ok. apply bytesAt_ok; lia. Qed.

Ltac w_main lem :=
  erewrite bindW_ret
    by (eapply on_ret;
        [reflexivity
        | apply lem; cbn [Chunk.position Chunk.positionOf Chunk.setPosition]; lia]);
  cbn [setPosition position clones strings templates].
Ltac w_main_pure :=
  erewrite bindW_ret by (eapply on_ret; reflexivity);
  cbn [setPosition position clones strings templates].

(** With a readable header and no child data, a template node built through
    the chunk's own reader leaves that reader 24 bytes past the start of the
    definition. *)
Lemma newTemplateNode_main_empty ofs buf w :
  0 <= offset + ofs -> offset + ofs + 24 <= byteLength buf ->
  le_val (slice buf (offset + ofs + 20) 4) = 0 ->
  exists t,
    newTemplateNode offset factory Main ofs buf w
    = (Ret t, setPosition Main (offset + ofs + 24) w)
    /\ dataLength t = 0.
Proof.
  intros H0 H1 Hd. unfold newTemplateNode.
  set (abs := offset + ofs) in *.
  w_main seek_ok. w_main_pure.
  assert (Hmin : 0 <= Z.min 32 (byteLength buf - abs) /\
                 abs + Z.min 32 (byteLength buf - abs) <= byteLength buf) by lia.
  w_main readBuffer_ok. w_main seek_ok.
  w_main u32le_ok. w_main_pure. w_main u32le_ok. w_main seek_ok.
  w_main readBuffer_ok. w_main u32le_ok.
  replace (abs + 4 + 16) with (abs + 20) by lia. rewrite Hd. cbn [Z.eqb].
  erewrite bindW_ret by reflexivity.
  eexists. split.
  - unfold mret, W_ret, retW. f_equal. unfold setPosition. f_equal. lia.
  - reflexivity.
Qed.

(** C4, template lookups (code level): on a cache miss [getTemplate] parses
    the definition through the chunk's own reader, the one an active parse
    reads from, and leaves it 24 bytes past the start of the definition (for
    a definition without child data); only a cache hit leaves it alone. *)
Theorem getTemplate_moves_main_cursor ofs buf w :
  templates w !! ofs = None ->
  0 <= offset + ofs -> offset + ofs + 24 <= byteLength buf ->
  le_val (slice buf (offset + ofs + 20) 4) = 0 ->
  exists t w',
    getTemplate offset factory ofs buf w = (Ret (Some t), w')
    /\ position w' = offset + ofs + 24
    /\ templates w' !! ofs = Some t.
Proof.
  intros Hmiss H0 H1 Hd. unfold getTemplate.
  erewrite bindW_ret by reflexivity. rewrite Hmiss. unfold tryW.
  destruct (newTemplateNode_main_empty ofs buf w H0 H1 Hd) as (t & Et & _).
  erewrite bindW_ret by exact Et.
  erewrite bindW_ret by reflexivity.
  erewrite bindW_ret by reflexivity.
  exists t. eexists. split; [reflexivity|]. cbn. split; [reflexivity|].
  apply lookup_insert_eq.
Qed.

Lemma getTemplate_cached ofs t buf w :
  templates w !! ofs = Some t ->
  getTemplate offset factory ofs buf w = (Ret (Some t), w).
Proof.
  intros Hhit. unfold getTemplate. erewrite bindW_ret by reflexivity.
  rewrite Hhit. reflexivity.
Qed.

End GetTemplate.

(** The template definition at chunk offset 0x40 is looked up while the
    chunk's reader stands at 0x218: afterwards the reader stands at 0x58. *)
Lemma getTemplate_moves_main_cursor_witness :
  Chunk.templates (world_at 0x218) !! 0x40 = None
  /\ 0 <= 0 + 0x40
  /\ 0 + 0x40 + 24 <= BinaryReader.byteLength chunk_with_embedded_bxml
  /\ BinaryReader.le_val
       (BinaryReader.slice chunk_with_embedded_bxml (0 + 0x40 + 20) 4) = 0
  /\ exists t w',
       Chunk.getTemplate 0 (Nodes.fromStream (H := host_utc) 0 16) 0x40
         chunk_with_embedded_bxml (world_at 0x218)
       = (BinaryReader.Ret (Some t), w')
       /\ Chunk.position w' = 0 + 0x40 + 24
       /\ Chunk.templates w' !! 0x40 = Some t.
Proof.
  split; [reflexivity|]. split; [lia|]. split; [vm_compute; discriminate|].
  split; [reflexivity|].
  apply (getTemplate_moves_main_cursor 0 (Nodes.fromStream (H := host_utc) 0 16)
           0x40 chunk_with_embedded_bxml (world_at 0x218));
    [reflexivity | lia | vm_compute; discriminate | reflexivity].
Defined.

Example getTemplate_sample_positions :
  Chunk.position (world_at 0x218) = 0x218
  /\ Chunk.position
       (snd (Chunk.getTemplate 0 (Nodes.fromStream (H := host_utc) 0 16) 0x40
               chunk_with_embedded_bxml (world_at 0x218))) = 0x58
  /\ Chunk.position
       (snd (Chunk.addTemplate 0 (Nodes.fromStream (H := host_utc) 0 16) 0x40
               chunk_with_embedded_bxml (world_at 0x218))) = 0x218.
Proof. repeat split. Qed.

(** The two lookups that clone the reader do keep the frame, for the node
    factory of the sources at any nesting depth. *)
Lemma cloning_lookups_keep_main_cursor `{Host} offset depth ofs :
  Chunk.keeps_main (Chunk.addString offset ofs)
  /\ Chunk.keeps_main (Chunk.addTemplate offset (Nodes.fromStream offset depth) ofs).
Proof.
  split.
  - apply addString_keeps_main_cursor.
  - apply addTemplate_keeps_main_cursor, fromStream_local.
Qed.

(** ** OpenStartElement: declared length and content extent *)

Section Inversion.
Import BinaryReader Chunk.

Lemma bind_inv {A B} (m : Rd A) (k : A -> Rd B) buf p b p' :
  (m ≫= k) buf p = (Ret b, p') ->
  exists a p1, m buf p = (Ret a, p1) /\ k a buf p1 = (Ret b, p').
Proof.
  rewrite bind_unfold. destruct (m buf p) as [[a|] p1]; [|discriminate].
  intros E. exists a, p1. split; [reflexivity|exact E].
Qed.

Lemma bindW_inv {A B} (m : W A) (k : A -> W B) buf w b w' :
  (m ≫= k) buf w = (Ret b, w') ->
  exists a w1, m buf w = (Ret a, w1) /\ k a buf w1 = (Ret b, w').
Proof.
  rewrite bindW_unfold. destruct (m buf w) as [[a|] w1]; [|discriminate].
  intros E. exists a, w1. split; [reflexivity|exact E].
Qed.

Lemma on_inv {A} r (m : Rd A) buf w a w' :
  on r m buf w = (Ret a, w') ->
  exists p p', positionOf r w = Some p /\ m buf p = (Ret a, p')
               /\ w' = setPosition r p' w.
Proof.
  unfold on. destruct (positionOf r w) as [p|]; [|discriminate].
  destruct (m buf p) as [o p'] eqn:E. intros E'. injection E' as -> <-.
  exists p, p'. repeat split. exact E.
Qed.

Lemma positionOf_set r w p q :
  positionOf r w = Some p -> positionOf r (setPosition r q w) = Some q.
Proof.
  destruct r as [|i]; cbn; [reflexivity|]. intros Hp.
  apply list_lookup_insert_eq. apply lookup_lt_Some in Hp. exact Hp.
Qed.

Lemma setPosition_set r w p q :
  setPosition r q (setPosition r p w) = setPosition r q w.
Proof.
  destruct r as [|i]; cbn; [reflexivity|]. rewrite list_insert_insert_eq. reflexivity.
Qed.

(** Consecutive reader calls on one reader object are one reader program. *)
Lemma on_bind {A B} r (m : Rd A) (k : A -> Rd B) buf w p :
  positionOf r w = Some p ->
  (on r m ≫= (fun a => on r (k a))) buf w = on r (m ≫= k) buf w.
Proof.
  intros Hp. rewrite bindW_unfold. unfold on at 1 3. rewrite Hp, bind_unfold.
  destruct (m buf p) as [[a|] p1]; [|reflexivity].
  unfold on. rewrite (positionOf_set _ _ _ _ Hp).
  destruct (k a buf p1) as [o p2]. rewrite setPosition_set. reflexivity.
Qed.

Lemma streaming_inv {A} (at_ : Z -> Rd A) n buf p a p' :
  reads_at at_ n -> streaming at_ n buf p = (Ret a, p') ->
  at_ p buf p = (Ret a, p) /\ p' = p + n /\ 0 <= p /\ p + n <= byteLength buf.
Proof.
  intros Hat. unfold streaming. rewrite bind_unfold. cbn [tell].
  rewrite bind_unfold. destruct (Hat p buf p) as [Hs Hr].
  destruct (at_ p buf p) as [[a0|] p0] eqn:E; [|discriminate].
  cbn in Hs. subst p0. rewrite bind_unfold. unfold advance.
  destruct (Hr a0 eq_refl) as [H0 H1].
  intros E'. injection E' as <- <-.
  repeat split; assumption.
Qed.

Lemma reads_at_u16leAt : reads_at u16leAt 2.
Proof. apply (reads_at_checked 2). Qed.

Lemma reads_at_u32leAt : reads_at u32leAt 4.
Proof. apply (reads_at_checked 4). Qed.

Lemma u16le_inv buf p v p' :
  u16le buf p = (Ret v, p') ->
  v = u16_at buf p /\ p' = p + 2 /\ 0 <= p /\ p + 2 <= byteLength buf.
Proof.
  intros E. pose proof E as E0.
  apply (streaming_inv u16leAt 2) in E; [|apply reads_at_u16leAt].
  destruct E as (_ & -> & H0 & H1).
  rewrite (u16le_ok buf p H0 H1) in E0. injection E0 as <-.
  repeat split; assumption.
Qed.

Lemma u32le_inv buf p v p' :
  u32le buf p = (Ret v, p') ->
  v = le_val (slice buf p 4) /\ p' = p + 4 /\ 0 <= p /\ p + 4 <= byteLength buf.
Proof.
  intros E. pose proof E as E0.
  apply (streaming_inv u32leAt 4) in E; [|apply reads_at_u32leAt].
  destruct E as (_ & -> & H0 & H1).
  rewrite (u32le_ok buf p H0 H1) in E0. injection E0 as <-.
  repeat split; assumption.
Qed.

Lemma read_units_length n buf p s p' :
  read_units n buf p = (Ret s, p') -> List.length s = n.
Proof.
  revert p s p'. induction n as [|n IH]; intros p s p' E; cbn [read_units] in E.
  - injection E as <- <-. reflexivity.
  - apply bind_inv in E as (c & p1 & _ & E).
    apply bind_inv in E as (rest & p2 & Er & E).
    injection E as <- <-. cbn. f_equal. apply (IH _ _ _ Er).
Qed.

(** [wstring()] returns as many code units as its length prefix says. *)
Lemma wstring_length buf p s p' :
  wstring buf p = (Ret s, p') -> Z.of_nat (List.length s) = u16_at buf p.
Proof.
  unfold wstring. intros E. apply bind_inv in E as (n & p1 & En & E).
  pose proof En as En0.
  apply (streaming_inv u16leAt 2) in En; [|apply reads_at_u16leAt].
  destruct En as (_ & -> & H0 & H1).
  rewrite (u16le_ok buf p H0 H1) in En0. injection En0 as <-.
  apply read_units_length in E. rewrite E. unfold u16_at.
  pose proof (le_val_nonneg (slice buf p 2)). lia.
Qed.

End Inversion.

Section ElementHeader.
Import BinaryReader Chunk Nodes.
Context `{Host}.
Variable offset : Z.

Lemma seek_inv position buf p u p' :
  seek position buf p = (Ret u, p') ->
  p' = position /\ 0 <= position <= byteLength buf.
Proof.
  unfold seek.
  destruct (position <? 0) eqn:E0; [discriminate|].
  destruct (byteLength buf <? position) eqn:E1; [discriminate|].
  cbn. intros E. injection E as _ <-. apply Z.ltb_ge in E0, E1. lia.
Qed.





End ElementHeader.


(** The element takes 30 bytes of the slab (the cursor ends at 0x21E), its
    declared length is 29: the 11-byte header and the 18-byte inline name. *)
Example openStartElement_sample :
  let '(result, w') :=
    Nodes.dispatch (H := host_utc) 0 (Nodes.fromStream (H := host_utc) 0 16)
      Chunk.Main false chunk_with_inline_element (world_at 0x200) in
  match result with
  | BinaryReader.Ret node =>
      Chunk.ctor node = Chunk.OpenStartElementNode
      /\ Chunk.nodeLength node = 29
      /\ List.map Chunk.ctor (Chunk.children node) = [Chunk.CloseEmptyElementNode]
      /\ Chunk.position w' = 0x21E
  | BinaryReader.Throw => False
  end.
Proof. vm_compute. repeat split. Qed.

(** ** Embedded BXML: the token loop and the substitution header *)

Section EmbeddedFacts.
Import BinaryReader Chunk BXmlParser.
Context `{Host}.
Variable factory : Factory.


Lemma tryW_inv {A} (m h : W A) buf w a w' :
  tryW m h buf w = (Ret a, w') ->
  m buf w = (Ret a, w')
  \/ exists w1, m buf w = (Throw, w1) /\ h buf w1 = (Ret a, w').
Proof.
  unfold tryW. destruct (m buf w) as [[x|] w1]; intros E.
  - left. exact E.
  - right. exists w1. split; [reflexivity|exact E].
Qed.

Lemma snoc_split {A} (l : list A) (x : A) pre n post :
  l ++ [x] = pre ++ n :: post ->
  (post = [] /\ pre = l /\ n = x)
  \/ exists post', post = post' ++ [x] /\ l = pre ++ n :: post'.
Proof.
  intros E. destruct (list_eq_nil_dec post) as [->|Hne].
  - left. apply app_inj_tail in E as [-> ->]. repeat split.
  - right. destruct (exists_last Hne) as (post' & y & ->).
    rewrite List.app_comm_cons, List.app_assoc in E.
    apply app_inj_tail in E as [-> ->]. exists post'. split; reflexivity.
Qed.


Lemma reads_at_u8At : reads_at u8At 1.
Proof. apply (reads_at_checked 1). Qed.

Lemma u8_inv buf p v p' :
  u8 buf p = (Ret v, p') ->
  v = le_val (slice buf p 1) /\ p' = p + 1 /\ 0 <= p /\ p + 1 <= byteLength buf.
Proof.
  intros E. pose proof E as E0.
  apply (streaming_inv u8At 1) in E; [|apply reads_at_u8At].
  destruct E as (_ & -> & H0 & H1).
  rewrite (u8_ok buf p H0 H1) in E0. injection E0 as <-.
  repeat split; assumption.
Qed.




End EmbeddedFacts.

Section EmbeddedFuel.
Import BinaryReader Chunk BXmlParser.
Variable factory : Factory.

Lemma setPosition_id r w p : positionOf r w = Some p -> setPosition r p w = w.
Proof.
  destruct w as [pos cl st tp]. destruct r as [|i]; cbn.
  - intros E. injection E as ->. reflexivity.
  - intros E. f_equal. apply list_insert_id, E.
Qed.

(** The bound given to the token loop loses nothing: the loop leaves through
    its own tests before the bound is used up, so any larger bound gives the
    same result. *)
Lemma parseTokens_enough_fuel reader fuel extra limit acc buf w p :
  positionOf reader w = Some p ->
  (Z.to_nat (limit - p) <= fuel)%nat ->
  parseTokens factory reader (fuel + extra) limit acc buf w
  = parseTokens factory reader fuel limit acc buf w.
Proof.
  revert acc w p. induction fuel as [|fuel IH]; intros acc w p Hp Hfuel.
  - destruct extra as [|extra]; [reflexivity|].
    cbn [Nat.add parseTokens]. rewrite bindW_unfold.
    unfold on at 1. rewrite Hp. cbn [tell].
    destruct (p <? limit) eqn:E; [apply Z.ltb_lt in E; lia|].
    rewrite (setPosition_id _ _ _ Hp). reflexivity.
  - cbn [Nat.add parseTokens]. rewrite !bindW_unfold.
    unfold on at 1 3. rewrite Hp. cbn [tell].
    destruct (p <? limit) eqn:E; [|reflexivity]. apply Z.ltb_lt in E.
    rewrite !bindW_unfold.
    destruct (tryW _ _ buf (setPosition reader p w)) as [[[[node after]|]|] w2]
      eqn:Estep; try reflexivity.
    destruct (isTemplateInstance node); [reflexivity|].
    destruct (isEndOfStream node); [reflexivity|].
    destruct (after <=? p) eqn:Ea; [reflexivity|]. apply Z.leb_gt in Ea.
    apply (IH _ _ after); [|lia].
    apply tryW_inv in Estep as [Estep|(w3 & _ & Estep)]; [|discriminate].
    apply bindW_inv in Estep as (node' & w3 & _ & Estep).
    apply bindW_inv in Estep as (after' & w4 & Et & Estep).
    injection Estep as -> -> ->.
    apply on_inv in Et as (q & q' & Hq & Et & ->).
    injection Et as <- <-. apply (positionOf_set _ _ _ _ Hq).
Qed.

End EmbeddedFuel.


(** On the sample the loop reads StartOfStream and the TemplateInstance and
    stops: the byte after them is the count, not a token.  The header is read
    at 0x200 + 14; the record-level rule would look one byte earlier and find
    no plausible count. *)
Example embedded_parse_sample :
  match BXmlParser.parseAtOffset (H := host_utc)
          (Nodes.fromStream (H := host_utc) 0 16) 0x200 24
          chunk_with_embedded_bxml (world_at 7) with
  | (BinaryReader.Ret (Some root), w') =>
      List.map Chunk.ctor (BXmlParser.nodes (BXmlParser.tokens root))
      = [Chunk.StartOfStreamNode; Chunk.TemplateInstanceNode]
      /\ BXmlParser.declared (BXmlParser.tokens root) = 14
      /\ BXmlParser.substitutions root = [PVNumber 0x6655]
      /\ Chunk.position w' = 7
  | _ => False
  end.
Proof. vm_compute. repeat split. Qed.

Example record_rule_on_embedded_sample :
  exists r p',
    RootNode.phase2 (H := host_utc) 0x200 14 chunk_with_embedded_bxml 0
    = (BinaryReader.Ret (Some r), p')
    /\ RootNode.subCountPos r = 0x200 + 14 - 1
    /\ RootNode.substitutions r = [].
Proof. eexists. eexists. split; [vm_compute; reflexivity|]. split; reflexivity. Qed.

(** ** Values and extents of the reader's methods *)

Section ReaderValues.
Import BinaryReader.

Lemma le_val_app a b :
  le_val (a ++ b) = le_val a + 256 ^ Z.of_nat (List.length a) * le_val b.
Proof.
  induction a as [|x a IH]; cbn [le_val List.app List.length].
  - cbn. lia.
  - rewrite IH, Nat2Z.inj_succ, Z.pow_succ_r by lia. lia.
Qed.

Lemma le_val_bound bs : 0 <= le_val bs < 256 ^ Z.of_nat (List.length bs).
Proof.
  induction bs as [|x bs IH]; cbn [le_val List.length].
  - cbn. lia.
  - rewrite Nat2Z.inj_succ, Z.pow_succ_r by lia.
    pose proof (bz_range x). lia.
Qed.

Lemma firstn_plus {A} (a b : nat) (l : list A) :
  List.firstn (a + b) l = List.firstn a l ++ List.firstn b (List.skipn a l).
Proof.
  revert l. induction a as [|a IH]; intros l; [reflexivity|].
  destruct l as [|x l]; cbn.
  - destruct b; reflexivity.
  - f_equal. apply IH.
Qed.

Lemma slice_split buf offset n m :
  0 <= offset -> 0 <= n -> 0 <= m ->
  slice buf offset (n + m) = slice buf offset n ++ slice buf (offset + n) m.
Proof.
  intros H0 Hn Hm. unfold slice.
  rewrite Z2Nat.inj_add by lia. rewrite firstn_plus. f_equal.
  rewrite List.skipn_skipn. do 2 f_equal. lia.
Qed.

Lemma lor_shiftl_low hi lo n :
  0 <= n -> 0 <= lo < 2 ^ n -> Z.lor (Z.shiftl hi n) lo = hi * 2 ^ n + lo.
Proof.
  intros Hn Hlo. rewrite Z.shiftl_mul_pow2 by lia.
  assert (Hland : Z.land (hi * 2 ^ n) lo = 0).
  { apply Z.bits_inj'. intros k Hk. rewrite Z.land_spec, Z.bits_0.
    destruct (Z.lt_ge_cases k n) as [Hlt|Hge].
    - rewrite Z.mul_pow2_bits_low by lia. reflexivity.
    - replace lo with (lo mod 2 ^ n) by (apply Z.mod_small; lia).
      rewrite Z.mod_pow2_bits_high by lia. apply andb_false_r. }
  rewrite <- Z.lxor_lor by exact Hland.
  symmetry. apply Z.add_nocarry_lxor. exact Hland.
Qed.

(** The two halves [u64leAt] joins are the little-endian value of the eight
    bytes. *)
Lemma u64_of_le_val buf offset :
  0 <= offset -> offset + 8 <= byteLength buf ->
  u64_of buf offset = le_val (slice buf offset 8)
  /\ 0 <= u64_of buf offset < 2 ^ 64.
Proof.
  intros H0 H1. unfold u64_of.
  pose proof (le_val_bound (slice buf offset 4)) as Blo.
  pose proof (le_val_bound (slice buf (offset + 4) 4)) as Bhi.
  rewrite slice_length in Blo, Bhi by lia.
  change (256 ^ Z.of_nat (Z.to_nat 4)) with (2 ^ 32) in Blo, Bhi.
  rewrite lor_shiftl_low by lia.
  replace 8 with (4 + 4) at 1 by reflexivity.
  rewrite slice_split, le_val_app, slice_length by lia.
  change (256 ^ Z.of_nat (Z.to_nat 4)) with (2 ^ 32).
  change (2 ^ 64) with (2 ^ 32 * 2 ^ 32). split; nia.
Qed.

(** X2: [u64leAt] joins its two 32-bit halves into the little-endian value of
    the eight bytes at [offset], a number below 2^64; [i64leAt] returns the
    two's-complement reading of the same bytes. *)
Theorem u64leAt_little_endian buf p offset :
  0 <= offset -> offset + 8 <= byteLength buf ->
  let v := le_val (slice buf offset 8) in
  u64leAt offset buf p = (Ret v, p)
  /\ 0 <= v < 2 ^ 64
  /\ exists s, i64leAt offset buf p = (Ret s, p)
               /\ - 2 ^ 63 <= s < 2 ^ 63 /\ s mod 2 ^ 64 = v.
Proof.
  intros H0 H1 v. destruct (u64_of_le_val buf offset H0 H1) as [Ev Hv].
  fold v in Ev. rewrite Ev in Hv.
  assert (Eu : u64leAt offset buf p = (Ret v, p))
    by (rewrite u64leAt_ok, Ev by lia; reflexivity).
  split; [exact Eu|]. split; [exact Hv|].
  unfold i64leAt. erewrite bind_ret by (apply checkBounds_ok; lia).
  erewrite bind_ret by exact Eu.
  destruct (2 ^ 63 <=? v) eqn:E.
  - apply Z.leb_le in E. exists (v - 2 ^ 64). split; [reflexivity|].
    split; [lia|].
    replace (v - 2 ^ 64) with (v + (-1) * 2 ^ 64) by lia.
    rewrite Z.mod_add by lia. apply Z.mod_small. lia.
  - apply Z.leb_gt in E. exists v. split; [reflexivity|].
    split; [lia|]. apply Z.mod_small. lia.
Qed.

Lemma u16le_fail buf p :
  byteLength buf < p + 2 -> u16le buf p = (Throw, p).
Proof.
  intros Hp. apply streaming_throw. unfold u16leAt.
  apply bind_throw, checkBounds_fail. exact Hp.
Qed.

Lemma read_units_extent n buf p :
  0 <= p <= byteLength buf ->
  if p + 2 * Z.of_nat n <=? byteLength buf
  then read_units n buf p
       = (Ret (List.map (fun i => u16_at buf (p + 2 * Z.of_nat i)) (List.seq 0 n)),
          p + 2 * Z.of_nat n)
  else exists p', read_units n buf p = (Throw, p')
                  /\ p <= p' <= byteLength buf /\ byteLength buf < p' + 2.
Proof.
  revert p. induction n as [|n IH]; intros p Hp.
  - replace (p + 2 * Z.of_nat 0) with p by lia.
    destruct (p <=? byteLength buf) eqn:E; [|apply Z.leb_gt in E; lia].
    reflexivity.
  - cbn [read_units].
    destruct (Z.le_gt_cases (p + 2) (byteLength buf)) as [Hfit|Hshort].
    + erewrite bind_ret by (apply u16le_ok; lia).
      specialize (IH (p + 2) ltac:(lia)).
      replace (p + 2 + 2 * Z.of_nat n) with (p + 2 * Z.of_nat (S n)) in IH by lia.
      destruct (p + 2 * Z.of_nat (S n) <=? byteLength buf).
      * erewrite bind_ret by exact IH. unfold mret, Rd_ret, ret.
        cbn [List.seq List.map]. rewrite <- List.seq_shift, List.map_map.
        replace (p + 2 * Z.of_nat 0) with p by lia.
        assert (Hm : forall l,
                   List.map (fun i => u16_at buf (p + 2 + 2 * Z.of_nat i)) l
                   = List.map (fun i => u16_at buf (p + 2 * Z.of_nat (S i))) l).
        { intros l. apply List.map_ext. intros i. f_equal. lia. }
        rewrite Hm. reflexivity.
      * destruct IH as (p' & E & Hp' & Hend).
        exists p'. split; [|lia]. apply bind_throw. exact E.
    + destruct (p + 2 * Z.of_nat (S n) <=? byteLength buf) eqn:E;
        [apply Z.leb_le in E; lia|].
      exists p. split; [|lia]. apply bind_throw, u16le_fail. lia.
Qed.

(** X3: [wstring()] reads a 16-bit count and then that many code units: it
    returns exactly the units that follow the count and leaves the cursor
    behind the last one.  When the slab ends before the last unit it throws,
    and the cursor stays at the first unit that did not fit (it is not put
    back to where the call began). *)
Theorem wstring_extent buf p :
  0 <= p -> p + 2 <= byteLength buf ->
  let n := u16_at buf p in
  if p + 2 + 2 * n <=? byteLength buf
  then wstring buf p
       = (Ret (List.map (fun i => u16_at buf (p + 2 + 2 * Z.of_nat i))
                 (List.seq 0 (Z.to_nat n))),
          p + 2 + 2 * n)
  else exists p', wstring buf p = (Throw, p')
                  /\ p + 2 <= p' <= byteLength buf /\ byteLength buf < p' + 2.
Proof.
  intros H0 H1 n. unfold wstring.
  erewrite bind_ret by (apply u16le_ok; lia). fold (u16_at buf p). fold n.
  assert (Hn : 0 <= n) by apply le_val_nonneg.
  pose proof (read_units_extent (Z.to_nat n) buf (p + 2) ltac:(lia)) as Hr.
  rewrite Z2Nat.id in Hr by lia. exact Hr.
Qed.

(** X1: for a positive alignment, [align] returns a multiple of the alignment
    that is not below the offset, and for a non-negative offset the least
    such multiple. *)
Theorem align_is_next_multiple offset alignment :
  0 < alignment ->
  exists r, align offset alignment = Some r
            /\ r mod alignment = 0 /\ offset <= r
            /\ (0 <= offset -> r < offset + alignment).
Proof.
  intros Ha. unfold align.
  destruct (alignment =? 0) eqn:E0; [apply Z.eqb_eq in E0; lia|].
  pose proof (Z.quot_rem' offset alignment) as Hqr.
  destruct (Z.rem offset alignment =? 0) eqn:Er.
  - apply Z.eqb_eq in Er. exists offset.
    split; [reflexivity|]. split; [|lia].
    rewrite Hqr, Er, Z.add_0_r, Z.mul_comm. apply Z.mod_mul. lia.
  - apply Z.eqb_neq in Er. eexists. split; [reflexivity|].
    assert (Hb : Z.abs (Z.rem offset alignment) < alignment)
      by (rewrite <- (Z.abs_eq alignment) at 2 by lia; apply Z.rem_bound_abs; lia).
    split; [|split].
    + replace (offset + (alignment - Z.rem offset alignment))
        with ((Z.quot offset alignment + 1) * alignment) by lia.
      apply Z.mod_mul. lia.
    + lia.
    + intros Hoff. pose proof (Z.rem_nonneg offset alignment ltac:(lia) Hoff). lia.
Qed.

Lemma align_is_next_multiple_witness :
  0 < 8
  /\ exists r, align 13 8 = Some r
               /\ r mod 8 = 0 /\ 13 <= r /\ (0 <= 13 -> r < 13 + 8).
Proof.
  split; [lia|]. apply (align_is_next_multiple 13 8). lia.
Defined.

Lemma u64leAt_little_endian_witness :
  0 <= 1 /\ 1 + 8 <= BinaryReader.byteLength sample_bytes
  /\ let v := BinaryReader.le_val (BinaryReader.slice sample_bytes 1 8) in
     BinaryReader.u64leAt 1 sample_bytes 0 = (BinaryReader.Ret v, 0)
     /\ 0 <= v < 2 ^ 64
     /\ exists s, BinaryReader.i64leAt 1 sample_bytes 0 = (BinaryReader.Ret s, 0)
                  /\ - 2 ^ 63 <= s < 2 ^ 63 /\ s mod 2 ^ 64 = v.
Proof.
  split; [lia|]. split; [vm_compute; discriminate|].
  apply (u64leAt_little_endian sample_bytes 0 1); [lia|vm_compute; discriminate].
Defined.

Lemma wstring_extent_witness :
  0 <= 0 /\ 0 + 2 <= BinaryReader.byteLength sample_bytes
  /\ let n := BinaryReader.u16_at sample_bytes 0 in
     if 0 + 2 + 2 * n <=? BinaryReader.byteLength sample_bytes
     then BinaryReader.wstring sample_bytes 0
          = (BinaryReader.Ret
               (List.map (fun i => BinaryReader.u16_at sample_bytes (0 + 2 + 2 * Z.of_nat i))
                  (List.seq 0 (Z.to_nat n))),
             0 + 2 + 2 * n)
     else exists p', BinaryReader.wstring sample_bytes 0 = (BinaryReader.Throw, p')
                     /\ 0 + 2 <= p' <= BinaryReader.byteLength sample_bytes
                     /\ BinaryReader.byteLength sample_bytes < p' + 2.
Proof.
  split; [lia|]. split; [vm_compute; discriminate|].
  apply (wstring_extent sample_bytes 0); [lia|vm_compute; discriminate].
Defined.

End ReaderValues.

(** ** Timestamps *)

Section Timestamps.
Import BinaryReader.

(** X4: [Record.timestampAsDate] never yields an invalid [Date]: for every
    64-bit tick count it is the instant [ticks / 10000 - 11644473600000] ms.
    For tick counts from 1970-01-01 on, [filetimeToDate] of the same ticks is
    the same instant. *)
Theorem timestamp_conversions_agree buf offset p :
  0 <= offset + 0x10 -> offset + 0x18 <= byteLength buf ->
  let filetime := u64_of buf (offset + 0x10) in
  Record.timestampAsDate offset buf p
  = (Ret (Some (filetime / 10000 - 11644473600000)), p)
  /\ (116444736000000000 <= filetime ->
      filetimeToDate filetime = Some (filetime / 10000 - 11644473600000)).
Proof.
  intros H0 H1 filetime.
  destruct (u64_of_le_val buf (offset + 0x10) H0 ltac:(lia)) as [_ Hr].
  fold filetime in Hr.
  assert (Hq : 0 <= filetime / 10000 < 1844674407370956)
    by (split; [apply Z.div_pos; lia | apply Z.div_lt_upper_bound; lia]).
  split.
  - rewrite (timestampAsDate_value buf offset p filetime)
      by (unfold Record.timestamp, Record.u64; apply u64leAt_ok; lia).
    rewrite Z.quot_div_nonneg by lia.
    unfold JsDate.ofMillis, JsDate.TimeClip.
    destruct (Z.abs (filetime / 10000 - 11644473600000) <=? 8640000000000000) eqn:E;
      [reflexivity|apply Z.leb_gt in E; lia].
  - intros Hepoch. unfold filetimeToDate.
    destruct (filetime =? 0) eqn:E0; [apply Z.eqb_eq in E0; lia|].
    unfold Number_of_BigInt. rewrite Z.quot_div_nonneg by lia.
    replace (filetime - 116444736000000000)
      with (filetime + (- 11644473600000) * 10000) by lia.
    rewrite Z.div_add by lia.
    unfold JsDate.ofMillis, JsDate.TimeClip.
    replace (filetime / 10000 + - 11644473600000)
      with (filetime / 10000 - 11644473600000) by lia.
    destruct (Z.abs (filetime / 10000 - 11644473600000) <=? 8640000000000000) eqn:E;
      [reflexivity|apply Z.leb_gt in E; lia].
Qed.

Lemma timestamp_conversions_agree_witness :
  0 <= 0 + 0x10 /\ 0 + 0x18 <= BinaryReader.byteLength record_with_zero_filetime
  /\ let filetime := BinaryReader.u64_of record_with_zero_filetime (0 + 0x10) in
     Record.timestampAsDate 0 record_with_zero_filetime 0
     = (BinaryReader.Ret (Some (filetime / 10000 - 11644473600000)), 0)
     /\ (116444736000000000 <= filetime ->
         filetimeToDate filetime = Some (filetime / 10000 - 11644473600000)).
Proof.
  split; [lia|]. split; [vm_compute; discriminate|].
  apply (timestamp_conversions_agree record_with_zero_filetime 0 0);
    [lia|vm_compute; discriminate].
Defined.

(** Before 1970 the two conversions round differently: one tick after
    1601-01-01 is still that instant for the record, one millisecond later
    for [filetimeToDate]. *)
Example conversions_before_1970 :
  JsDate.ofMillis (Z.quot 1 10000 - Record.FILETIME_EPOCH_DIFF) = Some (-11644473600000)
  /\ filetimeToDate 1 = Some (-11644473599999).
Proof. split; reflexivity. Qed.

End Timestamps.

(** ** Declared sizes and recovery in the variant parser *)

Section VariantRecovery.
Import BinaryReader VariantValueParser.
Context `{Host}.

(** X5: with a declared size that fits the slab, [parse] never throws and
    leaves the cursor inside the slab: it returns what the [switch] returned,
    or, when the [switch] threw, a null value with [consumedBytes] the
    declared size and the cursor at [start + declared]. *)
Theorem parse_recovers_by_declared_size type declared buf p :
  0 <= p -> 0 <= declared -> p + declared <= byteLength buf ->
  exists r p',
    parse type (Some declared) buf p = (Ret r, p')
    /\ 0 <= p' <= byteLength buf
    /\ (parse_switch type (Some declared) p buf p = (Ret r, p')
        \/ (exists q, parse_switch type (Some declared) p buf p = (Throw, q))
           /\ r = {| value := PVNull; consumedBytes := declared |}
           /\ p' = p + declared).
Proof.
  intros H0 H1 H2. unfold parse. rd_pure. unfold try_catch.
  pose proof (kb_parse_switch type (Some declared) p buf p) as Hb.
  destruct (parse_switch type (Some declared) p buf p) as [[r|] p'].
  - exists r, p'. split; [reflexivity|]. split; [|left; reflexivity].
    apply Hb. unfold in_bounds. lia.
  - rd_read seek_ok. eexists _, _. split; [reflexivity|]. split; [lia|].
    right. split; [exists p'; reflexivity|]. split; reflexivity.
Qed.

Lemma lengthed_ok {A} (f : list byte -> A) e buf p :
  0 <= p -> 0 <= e -> p + e <= byteLength buf ->
  (pos ← tell; bytes ← bytesAt pos e; pos ← tell; seek (pos + e);; mret (f bytes)) buf p
  = (Ret (f (slice buf p e)), p + e).
Proof.
  intros H0 H1 H2. rd_pure. rd_read bytesAt_ok. rd_pure. rd_read seek_ok. reflexivity.
Qed.

Lemma parseWStringWithLength_ok e buf p :
  0 <= p -> 0 <= e -> p + e <= byteLength buf ->
  exists v, parseWStringWithLength e buf p = (Ret v, p + e).
Proof.
  intros H0 H1 H2. unfold parseWStringWithLength.
  destruct (e =? 0) eqn:E.
  - apply Z.eqb_eq in E. subst e. eexists. rewrite Z.add_0_r. reflexivity.
  - eexists.
    apply (lengthed_ok (fun bytes => strip_trailing_nuls (utf16le_decode bytes))); lia.
Qed.

Lemma parseStringWithLength_ok e buf p :
  0 <= p -> 0 <= e -> p + e <= byteLength buf ->
  exists v, parseStringWithLength e buf p = (Ret v, p + e).
Proof.
  intros H0 H1 H2. unfold parseStringWithLength.
  destruct (e =? 0) eqn:E.
  - apply Z.eqb_eq in E. subst e. eexists. rewrite Z.add_0_r. reflexivity.
  - eexists.
    apply (lengthed_ok (fun bytes => strip_trailing_nuls (utf8_decode bytes))); lia.
Qed.

Lemma parseWStringArrayWithLength_ok e buf p :
  0 <= p -> 0 <= e -> p + e <= byteLength buf ->
  exists v, parseWStringArrayWithLength e buf p = (Ret v, p + e).
Proof.
  intros H0 H1 H2. unfold parseWStringArrayWithLength.
  destruct (e =? 0) eqn:E.
  - apply Z.eqb_eq in E. subst e. eexists. rewrite Z.add_0_r. reflexivity.
  - eexists.
    apply (lengthed_ok
             (fun bytes => split_nul (strip_trailing_nuls (utf16le_decode bytes)))); lia.
Qed.

Lemma parseBXmlWithLength_ok e buf p :
  0 <= p -> 0 <= e -> p + e <= byteLength buf ->
  exists v, parseBXmlWithLength e buf p = (Ret v, p + e).
Proof.
  intros H0 H1 H2. unfold parseBXmlWithLength.
  destruct (e =? 0) eqn:E.
  - apply Z.eqb_eq in E. subst e. eexists. rewrite Z.add_0_r. reflexivity.
  - eexists. rd_pure. rd_read bytesAt_ok. rd_read seek_ok. reflexivity.
Qed.

Ltac lengthed_case lem :=
  match goal with
  | H0 : 0 <= ?p, H1 : 0 <= ?e, H2 : ?p + ?e <= byteLength ?buf |- _ =>
      destruct (lem e buf p H0 H1 H2) as [v Hv];
      erewrite bind_ret by exact Hv; try rd_pure;
      eexists; unfold result, mret, Rd_ret, ret;
      try replace (p + e - p) with e by lia; reflexivity
  end.

(** X6: for every type that is not of fixed width and is not a SID (Null,
    WString, String, Binary, BXml, WStringArray and every unknown type code),
    a declared size that fits the slab is honoured: [consumedBytes] is the
    declared size and the cursor ends at [start + declared]. *)
Theorem parse_honours_declared_size type declared buf p :
  naturalWidth type = None -> type <> VariantType.Sid ->
  0 <= p -> 0 <= declared -> p + declared <= byteLength buf ->
  exists v,
    parse type (Some declared) buf p
    = (Ret {| value := v; consumedBytes := declared |}, p + declared).
Proof.
  intros Hw Hsid H0 H1 H2.
  assert (Hs : exists v, parse_switch type (Some declared) p buf p
                         = (Ret {| value := v; consumedBytes := declared |},
                            p + declared)).
  { unfold naturalWidth in Hw.
    destruct type as [|q|q].
    2: do 8 (try (destruct q as [q|q|])); try discriminate Hw;
       try (exfalso; apply Hsid; reflexivity).
    all: unfold parse_switch.
    all: try (destruct (0 <? declared) eqn:E1;
              [|apply Z.ltb_ge in E1; assert (declared = 0) by lia; subst declared]).
    all: first
      [ lengthed_case parseWStringWithLength_ok
      | lengthed_case parseStringWithLength_ok
      | lengthed_case parseWStringArrayWithLength_ok
      | lengthed_case parseBXmlWithLength_ok
      | idtac ].
    all: repeat first [ rd_pure | rd_read seek_ok | rd_read bytesAt_ok ].
    all: try (unfold result, mret, Rd_ret, ret; eexists; repeat f_equal; lia). }
  destruct Hs as [v Hs]. exists v. unfold parse. rd_pure.
  apply try_catch_ret. exact Hs.
Qed.

End VariantRecovery.

Lemma parse_recovers_by_declared_size_witness :
  0 <= 15 /\ 0 <= 2 /\ 15 + 2 <= BinaryReader.byteLength sample_bytes
  /\ exists r p',
       VariantValueParser.parse (H := host_utc) VariantType.UnsignedDWord (Some 2)
         sample_bytes 15 = (BinaryReader.Ret r, p')
       /\ 0 <= p' <= BinaryReader.byteLength sample_bytes
       /\ (VariantValueParser.parse_switch (H := host_utc) VariantType.UnsignedDWord
             (Some 2) 15 sample_bytes 15 = (BinaryReader.Ret r, p')
           \/ (exists q, VariantValueParser.parse_switch (H := host_utc)
                           VariantType.UnsignedDWord (Some 2) 15 sample_bytes 15
                         = (BinaryReader.Throw, q))
              /\ r = {| VariantValueParser.value := PVNull;
                        VariantValueParser.consumedBytes := 2 |}
              /\ p' = 15 + 2).
Proof.
  split; [lia|]. split; [lia|]. split; [vm_compute; discriminate|].
  apply (parse_recovers_by_declared_size (H := host_utc)
           VariantType.UnsignedDWord 2 sample_bytes 15);
    [lia | lia | vm_compute; discriminate].
Defined.

(** A DWord declared with 2 bytes, 2 bytes before the end of the slab: the
    read fails and the parser skips the declared size. *)
Example parse_recovery_sample :
  VariantValueParser.parse (H := host_utc) VariantType.UnsignedDWord (Some 2)
    sample_bytes 15
  = (BinaryReader.Ret {| VariantValueParser.value := PVNull;
                         VariantValueParser.consumedBytes := 2 |}, 17).
Proof. reflexivity. Qed.

Lemma parse_honours_declared_size_witness :
  VariantValueParser.naturalWidth VariantType.Binary = None
  /\ VariantType.Binary <> VariantType.Sid
  /\ 0 <= 3 /\ 0 <= 5 /\ 3 + 5 <= BinaryReader.byteLength sample_bytes
  /\ exists v,
       VariantValueParser.parse (H := host_utc) VariantType.Binary (Some 5)
         sample_bytes 3
       = (BinaryReader.Ret {| VariantValueParser.value := v;
                              VariantValueParser.consumedBytes := 5 |}, 3 + 5).
Proof.
  split; [reflexivity|]. split; [discriminate|]. split; [lia|]. split; [lia|].
  split; [vm_compute; discriminate|].
  apply (parse_honours_declared_size (H := host_utc) VariantType.Binary 5
           sample_bytes 3);
    [reflexivity | discriminate | lia | lia | vm_compute; discriminate].
Defined.

(** ** The root node: robustness of Phase 2, invariants of Phase 1 *)

Section RootNodeRobust.
Import BinaryReader VariantValueParser RootNode.
Context `{Host}.

Lemma readDeclarations_length n buf p ds p' :
  readDeclarations n buf p = (Ret ds, p') -> (List.length ds <= n)%nat.
Proof.
  revert p ds p'. induction n as [|n IH]; intros p ds p' E; cbn [readDeclarations] in E.
  - injection E as <- _. cbn. lia.
  - apply bind_inv in E as (pos & p1 & _ & E).
    apply bind_inv in E as (sz & p2 & _ & E).
    destruct (pos + 4 <=? sz).
    + apply bind_inv in E as (size & p3 & _ & E).
      apply bind_inv in E as (type & p4 & _ & E).
      apply bind_inv in E as (reserved & p5 & _ & E).
      apply bind_inv in E as (rest & p6 & Er & E).
      injection E as <- _. apply IH in Er. cbn. lia.
    + injection E as <- _. cbn. lia.
Qed.

Lemma readValues_length decls buf p vals n p' :
  readValues decls buf p = (Ret (vals, n), p') ->
  (List.length vals <= List.length decls)%nat.
Proof.
  revert p vals n p'.
  induction decls as [|d rest IH]; intros p vals n p' E; cbn [readValues] in E.
  - injection E as <- _ _. cbn. lia.
  - apply bind_inv in E as (pos & p1 & _ & E).
    apply bind_inv in E as (sz & p2 & _ & E).
    destruct (pos + size d <=? sz).
    + apply bind_inv in E as (r & p3 & _ & E).
      apply bind_inv in E as ([vals' n'] & p4 & Er & E).
      injection E as <- _ _. apply IH in Er. cbn. lia.
    + injection E as <- _ _. cbn. lia.
Qed.

(** X7: when the position of the substitution count lies inside the slab,
    Phase 2 of the root node never throws and leaves the cursor inside the
    slab.  It yields nothing when fewer than four bytes remain there;
    otherwise fewer than 1024 declarations, at most as many as the count it
    chose, and never more values than declarations; with a count of 0 or of
    1024 and more it reads no declaration at all. *)
Theorem phase2_is_robust buf recordDataOffset declared p :
  let pos := recordDataOffset + declared - 1 in
  0 <= pos <= byteLength buf ->
  exists r p',
    phase2 recordDataOffset declared buf p = (Ret r, p')
    /\ 0 <= p' <= byteLength buf
    /\ match r with
       | None => byteLength buf < pos + 4 /\ p' = pos
       | Some s =>
           pos + 4 <= byteLength buf
           /\ (List.length (substitutions s) <= List.length (subDeclarations s))%nat
           /\ Z.of_nat (List.length (subDeclarations s)) < 1024
           /\ (0 < substitutionCount s < 1024 ->
               Z.of_nat (List.length (subDeclarations s)) <= substitutionCount s)
           /\ (~ 0 < substitutionCount s < 1024 ->
               subDeclarations s = [] /\ substitutions s = []
               /\ substitutionsBlockLength s = 0 /\ p' = pos + 4)
       end.
Proof.
  intros pos Hpos. unfold phase2. fold pos.
  rd_read seek_ok. do 2 rd_pure.
  destruct (pos + 4 <=? byteLength buf) eqn:E.
  - apply Z.leb_le in E.
    rd_pure. rd_read u32le_ok. rd_read seek_ok. rd_read u32be_ok. rd_read seek_ok.
    set (LE := le_val (slice buf pos 4)). set (BE := be_val (slice buf pos 4)).
    set (count := if (0 <? BE) && (BE <? 1024) then BE else LE).
    destruct ((0 <? count) && (count <? 1024)) eqn:Ec.
    + apply andb_true_iff in Ec as [Ec1 Ec2]. apply Z.ltb_lt in Ec1, Ec2.
      destruct (readDeclarations_total (Z.to_nat count) buf (pos + 4))
        as (ds & p1 & Ed & Hb1 & Hf); [unfold in_bounds; lia|].
      erewrite bind_ret by exact Ed.
      destruct (readValues_total ds buf p1 Hb1 Hf) as (vals & n & p2 & Ev & Hb2).
      erewrite bind_ret by exact Ev.
      apply readDeclarations_length in Ed. apply readValues_length in Ev.
      eexists _, p2. split; [reflexivity|]. split; [exact Hb2|]. cbn.
      split; [lia|]. split; [lia|]. split; [lia|]. split; [lia|].
      intros Hn. lia.
    + eexists _, _. split; [reflexivity|]. split; [lia|]. cbn.
      split; [lia|]. split; [lia|]. split; [lia|].
      apply andb_false_iff in Ec.
      split; [intros Hc; destruct Ec as [Ec|Ec];
              [apply Z.ltb_ge in Ec|apply Z.ltb_ge in Ec]; lia|].
      intros _. repeat split.
  - apply Z.leb_gt in E. eexists _, _. split; [reflexivity|].
    split; [lia|]. split; [lia|reflexivity].
Qed.

End RootNodeRobust.

Lemma phase2_is_robust_witness :
  let pos := 0 + 1 - 1 in
  0 <= pos <= BinaryReader.byteLength block_with_big_endian_count
  /\ exists r p',
       RootNode.phase2 (H := host_utc) 0 1 block_with_big_endian_count 0
       = (BinaryReader.Ret r, p')
       /\ 0 <= p' <= BinaryReader.byteLength block_with_big_endian_count
       /\ match r with
          | None => BinaryReader.byteLength block_with_big_endian_count < pos + 4
                    /\ p' = pos
          | Some s =>
              pos + 4 <= BinaryReader.byteLength block_with_big_endian_count
              /\ (List.length (RootNode.substitutions s)
                  <= List.length (RootNode.subDeclarations s))%nat
              /\ Z.of_nat (List.length (RootNode.subDeclarations s)) < 1024
              /\ (0 < RootNode.substitutionCount s < 1024 ->
                  Z.of_nat (List.length (RootNode.subDeclarations s))
                  <= RootNode.substitutionCount s)
              /\ (~ 0 < RootNode.substitutionCount s < 1024 ->
                  RootNode.subDeclarations s = [] /\ RootNode.substitutions s = []
                  /\ RootNode.substitutionsBlockLength s = 0 /\ p' = pos + 4)
          end.
Proof.
  split; [vm_compute; split; discriminate|].
  apply (phase2_is_robust (H := host_utc) block_with_big_endian_count 0 1 0).
  vm_compute. split; discriminate.
Defined.

Section RootNodePhase1.
Import BinaryReader Chunk RootNode.
Context `{Host}.
Variable factory : Factory.

Lemma last_template_instance_snoc l n :
  List.last (List.map Some (List.filter BXmlParser.isTemplateInstance (l ++ [n]))) None
  = if BXmlParser.isTemplateInstance n then Some n
    else List.last (List.map Some (List.filter BXmlParser.isTemplateInstance l)) None.
Proof.
  rewrite List.filter_app, List.map_app. cbn [List.filter].
  destruct (BXmlParser.isTemplateInstance n); cbn [List.map].
  - apply List.last_last.
  - rewrite List.app_nil_r. reflexivity.
Qed.

Lemma fold_length_snoc l n :
  List.fold_right Z.add 0 (List.map nodeLength (l ++ [n]))
  = List.fold_right Z.add 0 (List.map nodeLength l) + nodeLength n.
Proof.
  induction l as [|x l IH]; cbn [List.app List.map List.fold_right]; lia.
Qed.

Lemma phase1_invariant r fuel endPosition acc buf w k w' :
  phase1 factory r fuel endPosition acc buf w = (Ret k, w') ->
  parsedBxmlChildrenLength acc
  = List.fold_right Z.add 0 (List.map nodeLength (children acc)) ->
  templateInstance acc
  = List.last (List.map Some (List.filter BXmlParser.isTemplateInstance (children acc)))
      None ->
  Forall (fun n => ctor n <> UnimplementedNode) (children acc) ->
  parsedBxmlChildrenLength k
  = List.fold_right Z.add 0 (List.map nodeLength (children k))
  /\ templateInstance k
     = List.last (List.map Some (List.filter BXmlParser.isTemplateInstance (children k)))
         None
  /\ (exists rest, children k = children acc ++ rest)
  /\ (forall pre n post,
        children k = pre ++ n :: post -> ctor n = UnimplementedNode -> post = []).
Proof.
  revert acc w. induction fuel as [|fuel IH]; intros acc w E Hsum Hti Hun.
  all: assert (Hstop : forall pre n post,
                  children acc = pre ++ n :: post -> ctor n = UnimplementedNode ->
                  post = []).
  1, 3: intros pre n post Hc Hn; exfalso;
        rewrite Hc in Hun; apply Forall_app in Hun as [_ Hun];
        inversion Hun as [|? ? Hx _]; subst; apply Hx; exact Hn.
  all: assert (Hdone : forall k0 : Children, k0 = acc ->
                  parsedBxmlChildrenLength k0
                  = List.fold_right Z.add 0 (List.map nodeLength (children k0))
                  /\ templateInstance k0
                     = List.last (List.map Some
                                    (List.filter BXmlParser.isTemplateInstance
                                       (children k0))) None
                  /\ (exists rest, children k0 = children acc ++ rest)
                  /\ (forall pre n post,
                        children k0 = pre ++ n :: post ->
                        ctor n = UnimplementedNode -> post = []))
    by (intros k0 ->; repeat split; try assumption;
        exists []; rewrite List.app_nil_r; reflexivity).
  - cbn [phase1] in E. injection E as <- _. apply Hdone. reflexivity.
  - cbn [phase1] in E.
    apply bindW_inv in E as (pos & w1 & _ & E).
    destruct (pos <? endPosition); [|injection E as <- _; apply Hdone; reflexivity].
    apply bindW_inv in E as (sz & w2 & _ & E).
    destruct (sz <=? pos); [injection E as <- _; apply Hdone; reflexivity|].
    apply bindW_inv in E as (tokenPeek & w3 & _ & E).
    apply bindW_inv in E as (currentToken & w4 & _ & E).
    destruct currentToken as [currentToken|];
      [|injection E as <- _; apply Hdone; reflexivity].
    destruct (currentToken =? 0); [injection E as <- _; apply Hdone; reflexivity|].
    apply bindW_inv in E as (node & w5 & _ & E).
    destruct node as [node|]; [|injection E as <- _; apply Hdone; reflexivity].
    set (acc' := {| children := children acc ++ [node];
                    parsedBxmlChildrenLength :=
                      parsedBxmlChildrenLength acc + nodeLength node;
                    templateInstance :=
                      match ctor node with
                      | TemplateInstanceNode => Some node
                      | _ => templateInstance acc
                      end |}) in *.
    assert (Hsum' : parsedBxmlChildrenLength acc'
                    = List.fold_right Z.add 0 (List.map nodeLength (children acc')))
      by (cbn; rewrite fold_length_snoc, Hsum; reflexivity).
    assert (Hti' : templateInstance acc'
                   = List.last (List.map Some
                                  (List.filter BXmlParser.isTemplateInstance
                                     (children acc'))) None).
    { cbn [acc' children templateInstance]. rewrite last_template_instance_snoc.
      unfold BXmlParser.isTemplateInstance at 1.
      destruct (ctor node); try exact Hti; reflexivity. }
    destruct (ctor node) eqn:Ector.
    18: { injection E as <- _. split; [exact Hsum'|]. split; [exact Hti'|].
          split; [exists [node]; reflexivity|].
          intros pre n post Hc Hn. cbn [acc' children] in Hc.
          apply snoc_split in Hc as [(-> & _ & _)|(post' & -> & Hc)]; [reflexivity|].
          exfalso. rewrite Hc in Hun. apply Forall_app in Hun as [_ Hun].
          inversion Hun as [|? ? Hx _]; subst. apply Hx. exact Hn. }
    all: apply IH in E; [|exact Hsum'|exact Hti'|];
      [ destruct E as (E1 & E2 & (rest & E3) & E4);
        split; [exact E1|]; split; [exact E2|]; split; [|exact E4];
        exists (node :: rest); rewrite E3; cbn [acc' children];
        rewrite <- List.app_assoc; reflexivity
      | cbn [acc' children]; apply Forall_app; split; [exact Hun|];
        constructor; [rewrite Ector; discriminate|constructor] ].
Qed.

(** X8: what Phase 1 of the root node leaves behind, whatever the slab holds:
    the parsed length is the sum of the children's lengths, the template
    instance is the last TemplateInstanceNode among the children (none when
    there is none), and an UnimplementedNode can only be the last child. *)
Theorem phase1_children_invariants r fuel endPosition buf w k w' :
  phase1 factory r fuel endPosition
    {| children := []; parsedBxmlChildrenLength := 0; templateInstance := None |}
    buf w = (Ret k, w') ->
  parsedBxmlChildrenLength k
  = List.fold_right Z.add 0 (List.map nodeLength (children k))
  /\ templateInstance k
     = List.last (List.map Some (List.filter BXmlParser.isTemplateInstance (children k)))
         None
  /\ (forall pre n post,
        children k = pre ++ n :: post -> ctor n = UnimplementedNode -> post = []).
Proof.
  intros E. apply phase1_invariant in E; [|reflexivity|reflexivity|constructor].
  destruct E as (E1 & E2 & _ & E4). repeat split; assumption.
Qed.

End RootNodePhase1.

Lemma phase1_children_invariants_witness :
  exists k w',
    RootNode.phase1 (Nodes.fromStream (H := host_utc) 0 16) Chunk.Main 24 (0x200 + 24)
      {| RootNode.children := []; RootNode.parsedBxmlChildrenLength := 0;
         RootNode.templateInstance := None |}
      chunk_with_embedded_bxml (world_at 0x200) = (BinaryReader.Ret k, w')
    /\ RootNode.parsedBxmlChildrenLength k
       = List.fold_right Z.add 0 (List.map Chunk.nodeLength (RootNode.children k))
    /\ RootNode.templateInstance k
       = List.last (List.map Some (List.filter BXmlParser.isTemplateInstance
                                     (RootNode.children k))) None
    /\ (forall pre n post,
          RootNode.children k = pre ++ n :: post ->
          Chunk.ctor n = Chunk.UnimplementedNode -> post = []).
Proof.
  eexists. eexists. split; [vm_compute; reflexivity|].
  eapply (phase1_children_invariants (Nodes.fromStream (H := host_utc) 0 16)
            Chunk.Main 24 (0x200 + 24) chunk_with_embedded_bxml (world_at 0x200)).
  vm_compute. reflexivity.
Defined.

(** ** Node classes and extents (evtx/node-factory.ts, evtx/node-specialisations.ts) *)

Section NodeExtents.
Import BinaryReader Chunk Nodes.
Context `{Host}.
Variable offset : Z.
Variable factory : Factory.

Lemma on_step {A} r (m : Rd A) buf w p a w' :
  positionOf r w = Some p ->
  on r m buf w = (Ret a, w') ->
  exists p', m buf p = (Ret a, p') /\ positionOf r w' = Some p'.
Proof.
  intros Hp E. apply on_inv in E as (p0 & p1 & Hp0 & E & ->).
  rewrite Hp in Hp0. injection Hp0 as <-.
  exists p1. split; [exact E|]. apply (positionOf_set _ _ _ _ Hp).
Qed.

Lemma wstring_inv buf p s p' :
  wstring buf p = (Ret s, p') ->
  p' = p + 2 + 2 * Z.of_nat (List.length s)
  /\ Z.of_nat (List.length s) = u16_at buf p.
Proof.
  intros E. pose proof (wstring_length _ _ _ _ E) as Hlen. split; [|exact Hlen].
  unfold wstring in E. apply bind_inv in E as (n & p1 & En & E).
  apply u16le_inv in En as (-> & -> & H0 & H1).
  pose proof (read_units_extent (Z.to_nat (u16_at buf p)) buf (p + 2) ltac:(lia)) as Hr.
  destruct (p + 2 + 2 * Z.of_nat (Z.to_nat (u16_at buf p)) <=? byteLength buf).
  - rewrite Hr in E. injection E as _ <-. rewrite Hlen.
    pose proof (le_val_nonneg (slice buf p 2)). unfold u16_at. lia.
  - destruct Hr as (q & Hq & _). rewrite Hq in E. discriminate.
Qed.

Ltac step_on Hp E :=
  let a := fresh "a" in let w1 := fresh "w" in let Ea := fresh "Ea" in
  let p1 := fresh "q" in let Hq := fresh "Hq" in
  apply bindW_inv in E as (a & w1 & Ea & E);
  apply (on_step _ _ _ _ _ _ _ Hp) in Ea as (p1 & Ea & Hq);
  first [ apply u8_inv in Ea as (-> & -> & _ & _)
        | apply u16le_inv in Ea as (-> & -> & _ & _)
        | apply u32le_inv in Ea as (-> & -> & _ & _)
        | apply wstring_inv in Ea as (-> & ?) ];
  clear Hp; rename Hq into Hp.

(** X9: for the tokens of fixed layout (StartOfStream, EndOfStream, the three
    Close tokens, CharacterReference, EntityReference, the two processing
    instruction tokens and the two substitution tokens) the node the factory
    returns has the byte at the cursor as its token, no children, and a
    [length] equal to the number of bytes the reader has advanced. *)
Theorem dispatch_consumes_declared_length r embedded buf w p node w' :
  positionOf r w = Some p ->
  dispatch offset factory r embedded buf w = (Ret node, w') ->
  In (Z.land (le_val (slice buf p 1)) 0x0F)
     [0x0f; 0x00; 0x02; 0x03; 0x04; 0x08; 0x09; 0x0a; 0x0b; 0x0d; 0x0e] ->
  token node = le_val (slice buf p 1)
  /\ children node = []
  /\ positionOf r w' = Some (p + nodeLength node).
Proof.
  intros Hp E Hin. unfold dispatch in E.
  apply bindW_inv in E as (tok & w1 & Et & E).
  apply (on_step _ _ _ _ _ _ _ Hp) in Et as (p1 & Et & Hp1).
  apply u8_inv in Et as (-> & -> & _ & _). clear Hp.
  cbn [In] in Hin.
  repeat (destruct Hin as [Hin|Hin]; [rewrite <- Hin in E|]); try contradiction.
  all: unfold newStartOfStreamNode, newEndOfStreamNode, newCloseStartElementNode,
         newCloseEmptyElementNode, newCloseElementNode, newCharacterReferenceNode,
         newEntityReferenceNode, newProcessingInstructionTargetNode,
         newProcessingInstructionDataNode, newNormalSubstitutionNode,
         newOptionalSubstitutionNode in E.
  all: repeat step_on Hp1 E.
  all: injection E as <- <-; cbn [token children nodeLength leaf].
  all: (split; [reflexivity|]; split; [reflexivity|]).
  all: rewrite Hp1; f_equal; lia.
Qed.

Lemma nibble_cases x :
  0 <= x ->
  let m := Z.land x 0x0F in
  m = 0 \/ m = 1 \/ m = 2 \/ m = 3 \/ m = 4 \/ m = 5 \/ m = 6 \/ m = 7
  \/ m = 8 \/ m = 9 \/ m = 10 \/ m = 11 \/ m = 12 \/ m = 13 \/ m = 14 \/ m = 15.
Proof.
  intros Hx m.
  assert (Hm : m = x mod 16) by (apply (Z.land_ones x 4); lia).
  pose proof (Z.mod_pos_bound x 16 ltac:(lia)). lia.
Qed.

Ltac peel E :=
  let a := fresh "a" in let w1 := fresh "w" in
  apply bindW_inv in E as (a & w1 & _ & E); cbv beta in E;
  try match type of E with context [let '(_, _) := ?x in _] => destruct x end.

(** X10: every low nibble of a token byte has a class of its own in
    [NodeFactory.fromStream]: whatever byte is read, the node returned is
    neither an UnimplementedNode nor a FragmentHeaderNode, and its token is
    the byte that was at the cursor. *)
Theorem dispatch_class_is_implemented r embedded buf w p node w' :
  positionOf r w = Some p ->
  dispatch offset factory r embedded buf w = (Ret node, w') ->
  token node = le_val (slice buf p 1)
  /\ ctor node <> UnimplementedNode
  /\ ctor node <> FragmentHeaderNode.
Proof.
  intros Hp E. unfold dispatch in E.
  apply bindW_inv in E as (tok & w1 & Et & E).
  apply (on_step _ _ _ _ _ _ _ Hp) in Et as (p1 & Et & Hp1).
  apply u8_inv in Et as (-> & -> & _ & _). clear Hp.
  pose proof (nibble_cases (le_val (slice buf p 1)) (le_val_nonneg _)) as Hm.
  cbv zeta in Hm.
  repeat (destruct Hm as [Hm|Hm]; [rewrite Hm in E|]); try rewrite Hm in E.
  all: unfold newStartOfStreamNode, newEndOfStreamNode, newCloseStartElementNode,
         newCloseEmptyElementNode, newCloseElementNode, newCharacterReferenceNode,
         newEntityReferenceNode, newProcessingInstructionTargetNode,
         newProcessingInstructionDataNode, newNormalSubstitutionNode,
         newOptionalSubstitutionNode, newOpenStartElementNode, newValueTextNode,
         newAttributeNode, newCDataSectionNode, newTemplateInstanceNode in E.
  all: repeat peel E.
  all: injection E as <- _; cbn [token ctor leaf].
  all: split; [reflexivity|]; split; discriminate.
Qed.

(** X11: a CDataSectionNode counts its text in [length] but its constructor
    does not read it: the reader is left three bytes after the start of the
    node, [string_length] bytes short of the node's length. *)
Theorem cdata_text_is_not_consumed r embedded buf w p node w' :
  positionOf r w = Some p ->
  dispatch offset factory r embedded buf w = (Ret node, w') ->
  Z.land (le_val (slice buf p 1)) 0x0F = 0x07 ->
  ctor node = CDataSectionNode
  /\ nodeLength node = 3 + u16_at buf (p + 1)
  /\ positionOf r w' = Some (p + 3).
Proof.
  intros Hp E Hm. unfold dispatch in E.
  apply bindW_inv in E as (tok & w1 & Et & E).
  apply (on_step _ _ _ _ _ _ _ Hp) in Et as (p1 & Et & Hp1).
  apply u8_inv in Et as (-> & -> & _ & _). clear Hp.
  rewrite Hm in E. unfold newCDataSectionNode in E.
  step_on Hp1 E. injection E as <- <-. cbn [ctor nodeLength leaf].
  split; [reflexivity|]. split; [reflexivity|].
  rewrite Hp1. f_equal. lia.
Qed.
End NodeExtents.

Section TemplateInstanceExtent.
Import BinaryReader Chunk Nodes.
Context `{Host}.
Variable offset : Z.

Lemma addTemplate_registers factory ofs buf w t w' :
  addTemplate offset factory ofs buf w = (Ret t, w') -> templates w' !! ofs = Some t.
Proof.
  unfold addTemplate. intros E.
  apply bindW_inv in E as (cache & w1 & Ec & E). injection Ec as <- <-.
  destruct (templates w !! ofs) as [t0|] eqn:Ehit.
  - injection E as <- <-. exact Ehit.
  - apply bindW_inv in E as (cloned & w2 & _ & E).
    apply bindW_inv in E as (templateNode & w3 & _ & E).
    apply bindW_inv in E as (cache & w4 & Ec & E). injection Ec as <- <-.
    apply bindW_inv in E as ([] & w5 & Es & E). injection Es as <-.
    injection E as <- <-. cbn. apply lookup_insert_eq.
Qed.

(** X12: a TemplateInstanceNode built through the chunk's reader: outside
    embedded mode the reader ends at the start of the node plus its [length];
    in embedded mode it ends right after the ten bytes of the instance header
    whatever the length is.  The length is 10, or 34 plus the data length of
    the resident template, which is then in the chunk's template cache. *)
Theorem templateInstance_extent depth embedded token buf w node w' :
  newTemplateInstanceNode offset (fromStream offset depth) Main embedded token buf w
  = (Ret node, w') ->
  let template_offset := le_val (slice buf (position w + 5) 4) in
  position w'
  = (if embedded then position w + 9 else position w - 1 + nodeLength node)
  /\ (nodeLength node = 10
      \/ position w - 1 - offset < template_offset
         /\ exists t, templates w' !! template_offset = Some t
                      /\ nodeLength node = 10 + 24 + dataLength t).
Proof.
  intros E template_offset. unfold newTemplateInstanceNode in E.
  assert (Hp : positionOf Main w = Some (position w)) by reflexivity.
  apply bindW_inv in E as (pos & w0 & E0 & E).
  apply (on_step _ _ _ _ _ _ _ Hp) in E0 as (p0 & E0 & Hp0).
  injection E0 as <- <-. clear Hp.
  apply bindW_inv in E as (a1 & w1 & E1 & E).
  apply (on_step _ _ _ _ _ _ _ Hp0) in E1 as (p1 & E1 & Hp1).
  apply u8_inv in E1 as (-> & -> & _ & _).
  apply bindW_inv in E as (a2 & w2 & E2 & E).
  apply (on_step _ _ _ _ _ _ _ Hp1) in E2 as (p2 & E2 & Hp2).
  apply u32le_inv in E2 as (-> & -> & _ & _).
  apply bindW_inv in E as (a3 & w3 & E3 & E).
  apply (on_step _ _ _ _ _ _ _ Hp2) in E3 as (p3 & E3 & Hp3).
  apply u32le_inv in E3 as (-> & -> & _ & _).
  replace (position w + 1 + 4) with (position w + 5) in * by lia.
  fold template_offset in E.
  apply bindW_inv in E as (data_length & w4 & E4 & E).
  assert (Hkm : position w4 = position w3
                /\ (data_length = 0
                    \/ position w - 1 - offset < template_offset
                       /\ exists t, templates w4 !! template_offset = Some t
                                    /\ data_length = 24 + dataLength t)).
  { destruct (position w - 1 - offset <? template_offset) eqn:Eres.
    - apply Z.ltb_lt in Eres.
      pose proof (addTemplate_keeps_main_cursor offset (fromStream offset depth)
                    (fromStream_local offset depth) template_offset buf w3) as Hk.
      unfold tryW in E4. rewrite bindW_unfold in E4.
      destruct (addTemplate offset (fromStream offset depth) template_offset buf w3)
        as [[t|] w5] eqn:Ea; cbn [snd] in Hk.
      + injection E4 as <- <-. split; [exact Hk|]. right. split; [exact Eres|].
        exists t. split; [|reflexivity]. apply (addTemplate_registers _ _ _ _ _ _ Ea).
      + injection E4 as <- <-. split; [exact Hk|left; reflexivity].
    - injection E4 as <- <-. split; [reflexivity|left; reflexivity]. }
  destruct Hkm as [Hpos Hlen]. cbn [positionOf] in Hp3. injection Hp3 as Hp3.
  apply bindW_inv in E as ([] & w5 & E5 & E). injection E as <- <-.
  cbn [nodeLength leaf].
  assert (Hw5 : templates w5 = templates w4
                /\ position w5 = (if embedded then position w + 9
                                  else position w - 1 + (1 + 1 + 4 + 4 + data_length))).
  { destruct embedded; cbn [negb] in E5.
    - injection E5 as <-. split; [reflexivity|lia].
    - apply bindW_inv in E5 as (pos & w6 & E6 & E5).
      unfold on in E6. cbn in E6. injection E6 as <- <-.
      destruct (negb (position w4 =? position w - 1 + (1 + 1 + 4 + 4 + data_length)))
        eqn:Eat.
      + apply on_inv in E5 as (q & q' & _ & E5 & ->).
        apply seek_inv in E5 as [-> _]. split; reflexivity.
      + injection E5 as <-. apply negb_false_iff, Z.eqb_eq in Eat.
        split; [reflexivity|]. cbn. exact Eat. }
  destruct Hw5 as [Ht5 Hp5]. split.
  - exact Hp5.
  - destruct Hlen as [->|(Hres & t & Ht & ->)]; [left; reflexivity|].
    right. split; [exact Hres|]. exists t. rewrite Ht5. split; [exact Ht|lia].
Qed.
End TemplateInstanceExtent.

Lemma dispatch_consumes_declared_length_witness :
  exists node w',
    Chunk.positionOf Chunk.Main (world_at 0x200) = Some 0x200
    /\ Nodes.dispatch (H := host_utc) 0 (Nodes.fromStream (H := host_utc) 0 16)
         Chunk.Main false chunk_with_embedded_bxml (world_at 0x200)
       = (BinaryReader.Ret node, w')
    /\ In (Z.land (BinaryReader.le_val
                     (BinaryReader.slice chunk_with_embedded_bxml 0x200 1)) 0x0F)
          [0x0f; 0x00; 0x02; 0x03; 0x04; 0x08; 0x09; 0x0a; 0x0b; 0x0d; 0x0e]
    /\ Chunk.token node
       = BinaryReader.le_val (BinaryReader.slice chunk_with_embedded_bxml 0x200 1)
    /\ Chunk.children node = []
    /\ Chunk.positionOf Chunk.Main w' = Some (0x200 + Chunk.nodeLength node).
Proof.
  eexists. eexists. split; [reflexivity|]. split; [vm_compute; reflexivity|].
  split; [vm_compute; left; reflexivity|].
  eapply (dispatch_consumes_declared_length (H := host_utc) 0
            (Nodes.fromStream (H := host_utc) 0 16) Chunk.Main false
            chunk_with_embedded_bxml (world_at 0x200) 0x200);
    [reflexivity | vm_compute; reflexivity | vm_compute; left; reflexivity].
Defined.

Lemma dispatch_class_is_implemented_witness :
  exists node w',
    Chunk.positionOf Chunk.Main (world_at 0x200) = Some 0x200
    /\ Nodes.dispatch (H := host_utc) 0 (Nodes.fromStream (H := host_utc) 0 16)
         Chunk.Main false chunk_with_embedded_bxml (world_at 0x200)
       = (BinaryReader.Ret node, w')
    /\ Chunk.token node
       = BinaryReader.le_val (BinaryReader.slice chunk_with_embedded_bxml 0x200 1)
    /\ Chunk.ctor node <> Chunk.UnimplementedNode
    /\ Chunk.ctor node <> Chunk.FragmentHeaderNode.
Proof.
  eexists. eexists. split; [reflexivity|]. split; [vm_compute; reflexivity|].
  eapply (dispatch_class_is_implemented (H := host_utc) 0
            (Nodes.fromStream (H := host_utc) 0 16) Chunk.Main false
            chunk_with_embedded_bxml (world_at 0x200) 0x200);
    [reflexivity | vm_compute; reflexivity].
Defined.

Lemma cdata_text_is_not_consumed_witness :
  exists node w',
    Chunk.positionOf Chunk.Main (world_at 0) = Some 0
    /\ Nodes.dispatch (H := host_utc) 0 (Nodes.fromStream (H := host_utc) 0 16)
         Chunk.Main false cdata_bytes (world_at 0)
       = (BinaryReader.Ret node, w')
    /\ Z.land (BinaryReader.le_val (BinaryReader.slice cdata_bytes 0 1)) 0x0F = 0x07
    /\ Chunk.ctor node = Chunk.CDataSectionNode
    /\ Chunk.nodeLength node = 3 + BinaryReader.u16_at cdata_bytes (0 + 1)
    /\ Chunk.positionOf Chunk.Main w' = Some (0 + 3).
Proof.
  eexists. eexists. split; [reflexivity|]. split; [vm_compute; reflexivity|].
  split; [reflexivity|].
  eapply (cdata_text_is_not_consumed (H := host_utc) 0
            (Nodes.fromStream (H := host_utc) 0 16) Chunk.Main false
            cdata_bytes (world_at 0) 0);
    [reflexivity | vm_compute; reflexivity | reflexivity].
Defined.

(** The sample text is five units long: the node's length is 8, the reader
    stands at 3. *)
Example cdata_sample :
  exists node w',
    Nodes.dispatch (H := host_utc) 0 (Nodes.fromStream (H := host_utc) 0 16)
      Chunk.Main false cdata_bytes (world_at 0) = (BinaryReader.Ret node, w')
    /\ Chunk.nodeLength node = 8 /\ Chunk.position w' = 3.
Proof. eexists. eexists. split; [vm_compute; reflexivity|]. split; reflexivity. Qed.

Lemma templateInstance_extent_witness :
  exists node w',
    Nodes.newTemplateInstanceNode 0 (Nodes.fromStream (H := host_utc) 0 16)
      Chunk.Main false 0x0c chunk_with_embedded_bxml (world_at 0x205)
    = (BinaryReader.Ret node, w')
    /\ let template_offset :=
         BinaryReader.le_val
           (BinaryReader.slice chunk_with_embedded_bxml
              (Chunk.position (world_at 0x205) + 5) 4) in
       Chunk.position w'
       = (if false then Chunk.position (world_at 0x205) + 9
          else Chunk.position (world_at 0x205) - 1 + Chunk.nodeLength node)
       /\ (Chunk.nodeLength node = 10
           \/ Chunk.position (world_at 0x205) - 1 - 0 < template_offset
              /\ exists t, Chunk.templates w' !! template_offset = Some t
                           /\ Chunk.nodeLength node = 10 + 24 + Chunk.dataLength t).
Proof.
  eexists. eexists. split; [vm_compute; reflexivity|].
  eapply (templateInstance_extent (H := host_utc) 0 16 false 0x0c
            chunk_with_embedded_bxml (world_at 0x205)).
  vm_compute. reflexivity.
Defined.

(** ** The chunk's caches and its record iteration (evtx/ChunkHeader.ts) *)

Section CacheRoundTrips.
Import BinaryReader Chunk.
Variable offset : Z.
Variable factory : Factory.

(** X13: the template cache gives back what [addTemplate] put in: once
    [addTemplate(ofs)] has returned a template, [getTemplate(ofs)] and
    [addTemplate(ofs)] return that same template and change nothing, neither
    a reader position nor a cache. *)
Theorem addTemplate_then_lookup ofs buf w t w' :
  addTemplate offset factory ofs buf w = (Ret t, w') ->
  getTemplate offset factory ofs buf w' = (Ret (Some t), w')
  /\ addTemplate offset factory ofs buf w' = (Ret t, w').
Proof.
  intros E. pose proof (addTemplate_registers offset factory ofs buf w t w' E) as Hreg.
  split.
  - apply getTemplate_cached. exact Hreg.
  - unfold addTemplate. erewrite bindW_ret by reflexivity. rewrite Hreg. reflexivity.
Qed.

Lemma addString_registers ofs buf w n w' :
  addString offset ofs buf w = (Ret n, w') ->
  exists m, strings w' = Some (<[ofs := n]> m).
Proof.
  unfold addString. intros E.
  apply bindW_inv in E as ([] & w1 & _ & E). unfold addStringLoaded in E.
  apply bindW_inv in E as (c & w2 & _ & E).
  apply bindW_inv in E as ([] & w3 & _ & E).
  apply bindW_inv in E as (sn & w4 & _ & E).
  apply bindW_inv in E as (s & w5 & Es & E). injection Es as <- <-.
  destruct (strings w4) as [m|]; [|discriminate].
  apply bindW_inv in E as ([] & w6 & Es & E). injection Es as <-.
  injection E as <- <-. exists m. reflexivity.
Qed.

Lemma stringsTable_loaded buf w m :
  strings w = Some m -> stringsTable offset buf w = (Ret m, w).
Proof.
  intros Hm. unfold stringsTable, loadStrings.
  assert (Hg : getStrings buf w = (Ret (Some m), w))
    by (unfold getStrings; rewrite Hm; reflexivity).
  erewrite bindW_ret; [|erewrite bindW_ret by exact Hg; reflexivity].
  erewrite bindW_ret by exact Hg. reflexivity.
Qed.

(** X14: a name interned with [addString(ofs)] is found again:
    [getString(ofs)] returns the name of the node [addString] returned, and
    the table has the offset, without another read of the slab. *)
Theorem addString_then_getString ofs buf w n w' :
  addString offset ofs buf w = (Ret n, w') ->
  ChunkHeader.getString offset ofs buf w' = (Ret (Some (name n)), w')
  /\ hasString ofs buf w' = (Ret true, w').
Proof.
  intros E. destruct (addString_registers _ _ _ _ _ E) as [m Hm].
  split.
  - unfold ChunkHeader.getString.
    erewrite bindW_ret by (apply stringsTable_loaded; exact Hm).
    rewrite lookup_insert_eq. reflexivity.
  - unfold hasString.
    erewrite bindW_ret by (unfold getStrings; rewrite Hm; reflexivity).
    cbv beta iota. rewrite lookup_insert_eq. reflexivity.
Qed.
End CacheRoundTrips.

Lemma addTemplate_then_lookup_witness :
  exists t w',
    Chunk.addTemplate 0 (Nodes.fromStream (H := host_utc) 0 16) 0x40
      chunk_with_embedded_bxml (world_at 0x218) = (BinaryReader.Ret t, w')
    /\ Chunk.getTemplate 0 (Nodes.fromStream (H := host_utc) 0 16) 0x40
         chunk_with_embedded_bxml w' = (BinaryReader.Ret (Some t), w')
    /\ Chunk.addTemplate 0 (Nodes.fromStream (H := host_utc) 0 16) 0x40
         chunk_with_embedded_bxml w' = (BinaryReader.Ret t, w').
Proof.
  eexists. eexists. split; [vm_compute; reflexivity|].
  eapply (addTemplate_then_lookup 0 (Nodes.fromStream (H := host_utc) 0 16) 0x40
            chunk_with_embedded_bxml (world_at 0x218)).
  vm_compute. reflexivity.
Defined.

Lemma addString_then_getString_witness :
  exists n w',
    Chunk.addString 0 0x20b chunk_with_inline_element (world_at 0x201)
    = (BinaryReader.Ret n, w')
    /\ ChunkHeader.getString 0 0x20b chunk_with_inline_element w'
       = (BinaryReader.Ret (Some (Chunk.name n)), w')
    /\ Chunk.hasString 0x20b chunk_with_inline_element w' = (BinaryReader.Ret true, w').
Proof.
  eexists. eexists. split; [vm_compute; reflexivity|].
  eapply (addString_then_getString 0 0x20b chunk_with_inline_element (world_at 0x201)).
  vm_compute. reflexivity.
Defined.

Section RecordIteration.
Import BinaryReader ChunkHeader.

Lemma u32leAt_cases o buf p :
  (0 <= o /\ o + 4 <= byteLength buf
   /\ u32leAt o buf p = (Ret (le_val (slice buf o 4)), p))
  \/ u32leAt o buf p = (Throw, p).
Proof.
  unfold u32leAt. rewrite bind_unfold. unfold checkBounds.
  destruct ((o <? 0) || (byteLength buf <? o + 4)) eqn:E.
  - right. reflexivity.
  - left. apply orb_false_iff in E as [E1 E2].
    apply Z.ltb_ge in E1, E2. repeat split; lia.
Qed.

Lemma newRecord_cases o buf p :
  (newRecord o buf p = (Ret Constructed, p)
   /\ magic_at buf o = 0x00002a2a /\ 0 <= size_at buf o <= 0x10000
   /\ 0 <= o /\ o + 8 <= byteLength buf)
  \/ (newRecord o buf p = (Ret InvalidRecordException, p)
      /\ (magic_at buf o <> 0x00002a2a \/ 0x10000 < size_at buf o))
  \/ newRecord o buf p = (Throw, p).
Proof.
  unfold newRecord, Record.magic, Record.size, Record.u32, magic_at, size_at.
  replace (o + 0) with o by lia.
  destruct (u32leAt_cases o buf p) as [(H0 & H1 & Em)|Em].
  - erewrite bind_ret by exact Em.
    destruct (le_val (slice buf o 4) =? 10794) eqn:E; cbn [negb].
    + apply Z.eqb_eq in E.
      destruct (u32leAt_cases (o + 4) buf p) as [(H2 & H3 & Es)|Es].
      * erewrite bind_ret by exact Es.
        destruct (65536 <? le_val (slice buf (o + 4) 4)) eqn:E2.
        -- apply Z.ltb_lt in E2. right. left. split; [reflexivity|]. right. lia.
        -- apply Z.ltb_ge in E2. left. split; [reflexivity|].
           pose proof (le_val_nonneg (slice buf (o + 4) 4)). repeat split; lia.
      * right. right. apply bind_throw. exact Es.
    + apply Z.eqb_neq in E. right. left. split; [reflexivity|]. left. exact E.
  - right. right. apply bind_throw. exact Em.
Qed.

Lemma recordsLoop_framed fuel endOffset record buf p :
  magic_at buf record = 0x00002a2a -> 0 <= size_at buf record <= 0x10000 ->
  0 <= record -> record + 8 <= byteLength buf ->
  (Z.to_nat (endOffset - record) <= fuel)%nat ->
  exists y,
    recordsLoop fuel endOffset record buf p = (Ret y, p)
    /\ framed buf endOffset record (yielded y)
    /\ (rethrown y = false -> ended buf endOffset (extent buf record (yielded y))).
Proof.
  revert record. induction fuel as [|fuel IH]; intros record Hm Hs H0 H1 Hfuel.
  - exists {| yielded := []; rethrown := false |}.
    split; [reflexivity|]. split; [exact I|]. intros _. left. cbn. lia.
  - cbn [recordsLoop].
    destruct (record <? endOffset) eqn:E.
    2: { apply Z.ltb_ge in E. eexists. split; [reflexivity|]. split; [exact I|].
         intros _. left. cbn. lia. }
    apply Z.ltb_lt in E.
    assert (Esz : Record.size record buf p = (Ret (size_at buf record), p)).
    { unfold Record.size, Record.u32, size_at.
      destruct (u32leAt_cases (record + 4) buf p) as [(_ & _ & Es)|Es]; [exact Es|].
      exfalso. unfold u32leAt in Es. rewrite (bind_ret _ _ _ _ tt p) in Es
        by (apply checkBounds_ok; lia). discriminate. }
    erewrite bind_ret by (apply try_catch_ret; erewrite bind_ret by exact Esz; reflexivity).
    cbv beta iota.
    destruct (0 <? size_at buf record) eqn:Epos.
    2: { apply Z.ltb_ge in Epos. eexists. split; [reflexivity|]. split; [exact I|].
         intros _. right. left. cbn. lia. }
    apply Z.ltb_lt in Epos.
    destruct (newRecord_cases (record + size_at buf record) buf p)
      as [(En & Hm' & Hs' & H0' & H1')|[(En & Hinv)|En]].
    + erewrite bind_ret
        by (apply try_catch_ret; erewrite bind_ret by exact En; reflexivity).
      cbv beta iota.
      destruct (IH (record + size_at buf record) Hm' Hs' H0' H1' ltac:(lia))
        as (y & Ey & Hf & Hstop).
      erewrite bind_ret by exact Ey.
      eexists. split; [reflexivity|]. cbn [yielded rethrown framed].
      split; [repeat split; try assumption; lia|].
      intros Hr. cbn [extent List.fold_left]. apply Hstop. exact Hr.
    + erewrite bind_ret
        by (apply try_catch_ret; erewrite bind_ret by exact En; reflexivity).
      cbv beta iota. eexists. split; [reflexivity|]. cbn [yielded rethrown framed].
      split; [repeat split; try assumption; lia|].
      intros _. right. right. cbn. exact Hinv.
    + erewrite bind_ret
        by (unfold try_catch; rewrite (bind_throw _ _ _ _ _ En); reflexivity).
      cbv beta iota. eexists. split; [reflexivity|]. cbn [yielded rethrown framed].
      split; [repeat split; try assumption; lia|]. discriminate.
Qed.

(** [records()] always returns in the model: an error that is thrown again
    is recorded in [rethrown]. *)
Lemma records_returns offset buf p :
  let endOffset := offset + le_val (slice buf (offset + 0x30) 4) in
  exists y,
    records offset buf p = (Ret y, p)
    /\ framed buf endOffset (offset + 0x200) (yielded y)
    /\ (rethrown y = false ->
        ended buf endOffset (extent buf (offset + 0x200) (yielded y))).
Proof.
  intros endOffset. unfold records.
  destruct (newRecord_cases (offset + 0x200) buf p)
    as [(En & Hm & Hs & H0 & H1)|[(En & Hinv)|En]].
  - erewrite bind_ret
      by (apply try_catch_ret; erewrite bind_ret by exact En; reflexivity).
    cbv beta iota. unfold nextRecordOffset, Block.u32, Block.abs.
    destruct (u32leAt_cases (offset + 0x30) buf p) as [(_ & _ & Er)|Er].
    + erewrite bind_ret
        by (apply try_catch_ret; erewrite bind_ret by exact Er; reflexivity).
      cbv beta iota. fold endOffset.
      apply recordsLoop_framed; try assumption.
      pose proof (le_val_nonneg (slice buf (offset + 0x30) 4)). subst endOffset. lia.
    + erewrite bind_ret
        by (unfold try_catch; rewrite (bind_throw _ _ _ _ _ Er); reflexivity).
      eexists. split; [reflexivity|]. split; [exact I|discriminate].
  - erewrite bind_ret
      by (apply try_catch_ret; erewrite bind_ret by exact En; reflexivity).
    eexists. split; [reflexivity|]. split; [exact I|].
    intros _. right. right. exact Hinv.
  - erewrite bind_ret
      by (unfold try_catch; rewrite (bind_throw _ _ _ _ _ En); reflexivity).
    eexists. split; [reflexivity|]. split; [exact I|discriminate].
Qed.

(** X15: [records()] never moves the reader.  The records it yields lie end
    to end from chunk offset 0x200: each begins where the one before ends and
    before the chunk's next-record offset, has the record magic and a size
    between 1 and 0x10000.  When the generator ends without throwing an
    error again, it ends for a reason the code gives: the next-record offset
    is reached, or what follows has size 0, a wrong magic or too large a
    size. *)
Theorem records_are_framed offset buf p y p' :
  records offset buf p = (Ret y, p') ->
  let endOffset := offset + le_val (slice buf (offset + 0x30) 4) in
  p' = p
  /\ framed buf endOffset (offset + 0x200) (yielded y)
  /\ (rethrown y = false ->
      ended buf endOffset (extent buf (offset + 0x200) (yielded y))).
Proof.
  intros E endOffset.
  destruct (records_returns offset buf p) as (y0 & E0 & Hf & He).
  rewrite E0 in E. injection E as <- <-.
  split; [reflexivity|]. split; [exact Hf|exact He].
Qed.

End RecordIteration.

Lemma records_are_framed_witness :
  exists y p',
    ChunkHeader.records 0x1000 sample_file 0 = (BinaryReader.Ret y, p')
    /\ let endOffset :=
         0x1000 + BinaryReader.le_val (BinaryReader.slice sample_file (0x1000 + 0x30) 4) in
       p' = 0
       /\ ChunkHeader.framed sample_file endOffset (0x1000 + 0x200) (ChunkHeader.yielded y)
       /\ (ChunkHeader.rethrown y = false ->
           ChunkHeader.ended sample_file endOffset
             (ChunkHeader.extent sample_file (0x1000 + 0x200) (ChunkHeader.yielded y))).
Proof.
  eexists. eexists. split; [vm_compute; reflexivity|].
  eapply (records_are_framed 0x1000 sample_file 0).
  vm_compute. reflexivity.
Defined.

(** The chunk of the sample file: its two records, then a wrong magic. *)
Example records_sample :
  ChunkHeader.records 0x1000 sample_file 0
  = (BinaryReader.Ret {| ChunkHeader.yielded := [0x1200; 0x1220];
                         ChunkHeader.rethrown := false |}, 0).
Proof. vm_compute. reflexivity. Qed.

(** ** The file header: chunks, record lookup, verification (evtx/FileHeader.ts) *)

Section FileHeaderFacts.
Import BinaryReader FileHeader.

Lemma u16leAt_cases o buf p :
  (0 <= o /\ o + 2 <= byteLength buf
   /\ u16leAt o buf p = (Ret (u16_at buf o), p))
  \/ u16leAt o buf p = (Throw, p).
Proof.
  unfold u16leAt. rewrite bind_unfold. unfold checkBounds.
  destruct ((o <? 0) || (byteLength buf <? o + 2)) eqn:E.
  - right. reflexivity.
  - left. apply orb_false_iff in E as [E1 E2].
    apply Z.ltb_ge in E1, E2. repeat split; lia.
Qed.

Lemma u16leAt_inv o buf p v p' :
  u16leAt o buf p = (Ret v, p') ->
  v = u16_at buf o /\ p' = p /\ 0 <= o /\ o + 2 <= byteLength buf.
Proof.
  intros E. destruct (u16leAt_cases o buf p) as [(H0 & H1 & E')|E'];
    rewrite E' in E; [|discriminate].
  injection E as <- <-. repeat split; assumption.
Qed.

Lemma chunksLoop_closed fuel size maxChunks o i :
  (Z.to_nat (Z.min (maxChunks - i) ((size - o) / 0x10000)) <= fuel)%nat ->
  chunksLoop fuel size maxChunks o i
  = List.map (fun k => o + 0x10000 * Z.of_nat k)
      (List.seq 0 (Z.to_nat (Z.min (maxChunks - i) ((size - o) / 0x10000)))).
Proof.
  revert o i. induction fuel as [|fuel IH]; intros o i;
    set (n := Z.min (maxChunks - i) ((size - o) / 0x10000)); intros Hfuel.
  - replace (Z.to_nat n) with 0%nat by lia. reflexivity.
  - cbn [chunksLoop].
    assert (Hdiv : (size - (o + 0x10000)) / 0x10000 = (size - o) / 0x10000 - 1).
    { replace (size - (o + 0x10000)) with (size - o + (-1) * 0x10000) by lia.
      rewrite Z.div_add by lia. lia. }
    destruct ((o + 0x10000 <=? size) && (i <? maxChunks)) eqn:E.
    + apply andb_true_iff in E as [E1 E2]. apply Z.leb_le in E1. apply Z.ltb_lt in E2.
      assert (1 <= (size - o) / 0x10000) by (apply Z.div_le_lower_bound; lia).
      assert (Hn : 1 <= n) by (subst n; lia).
      rewrite IH by (rewrite Hdiv; subst n; lia).
      replace (Z.min (maxChunks - (i + 1)) ((size - (o + 0x10000)) / 0x10000))
        with (n - 1) by (rewrite Hdiv; subst n; lia).
      replace (Z.to_nat n) with (S (Z.to_nat (n - 1))) by lia.
      cbn [List.seq List.map]. f_equal; [lia|].
      rewrite <- List.seq_shift, List.map_map. apply List.map_ext. intros k. lia.
    + assert (Hn : n <= 0).
      { apply andb_false_iff in E as [E|E].
        - apply Z.leb_gt in E.
          assert ((size - o) / 0x10000 < 1) by (apply Z.div_lt_upper_bound; lia).
          subst n. lia.
        - apply Z.ltb_ge in E. subst n. lia. }
      replace (Z.to_nat n) with 0%nat by lia. reflexivity.
Qed.

Variable offset : Z.

(** X16: [chunks()] does not move the reader, and the chunks it yields are
    the first [n] blocks of 0x10000 bytes behind the file header, where [n]
    is the largest number of whole blocks that fit in the slab, capped by the
    header's chunk count unless inactive chunks are asked for; each of them
    lies wholly inside the slab. *)
Theorem chunks_lie_inside_the_slab includeInactive buf p cs p' :
  chunks offset includeInactive buf p = (Ret cs, p') ->
  let first := offset + u16_at buf (offset + 0x28) in
  let maxChunks := if includeInactive then MAX_SAFE_INTEGER
                   else u16_at buf (offset + 0x2A) in
  let n := Z.min maxChunks ((byteLength buf - first) / 0x10000) in
  p' = p
  /\ cs = List.map (fun k => first + 0x10000 * Z.of_nat k) (List.seq 0 (Z.to_nat n))
  /\ Forall (fun c => first <= c /\ c + 0x10000 <= byteLength buf) cs.
Proof.
  intros E first maxChunks n. unfold chunks in E.
  apply bind_inv in E as (mc & p1 & Emc & E).
  assert (Hmc : mc = maxChunks /\ p1 = p).
  { subst maxChunks. destruct includeInactive.
    - injection Emc as <- <-. split; reflexivity.
    - unfold chunkCount, Block.u16, Block.abs in Emc.
      apply u16leAt_inv in Emc as (-> & -> & _). split; reflexivity. }
  destruct Hmc as [-> ->].
  apply bind_inv in E as (hcs & p2 & Eh & E).
  unfold headerChunkSize, Block.u16, Block.abs in Eh.
  apply u16leAt_inv in Eh as (-> & -> & H0 & H1).
  apply bind_inv in E as (sz & p3 & Es & E). injection Es as <- <-.
  remember (S (Z.to_nat (byteLength buf / 0x10000))) as fuel eqn:Hfuel.
  injection E as Ecs <-. fold first in Ecs.
  pose proof (le_val_nonneg (slice buf (offset + 0x28) 2)) as Hh.
  fold (u16_at buf (offset + 0x28)) in Hh.
  assert (Hcs : cs = List.map (fun k => first + 0x10000 * Z.of_nat k)
                      (List.seq 0 (Z.to_nat n))).
  { rewrite <- Ecs. rewrite chunksLoop_closed; rewrite Z.sub_0_r; fold n.
    - reflexivity.
    -
      assert ((byteLength buf - first) / 0x10000 <= byteLength buf / 0x10000 + 1).
      { replace (byteLength buf / 0x10000 + 1)
          with ((byteLength buf + 1 * 0x10000) / 0x10000)
          by (rewrite Z.div_add by lia; reflexivity).
        apply Z.div_le_mono; subst first; lia. }
      assert (0 <= byteLength buf / 0x10000)
        by (apply Z.div_pos; unfold byteLength; lia).
      subst n fuel. lia. }
  split; [reflexivity|]. split; [exact Hcs|].
  rewrite Hcs. apply List.Forall_forall. intros c Hc.
  apply List.in_map_iff in Hc as (k & <- & Hk). apply List.in_seq in Hk.
  assert (Hkn : Z.of_nat k + 1 <= (byteLength buf - first) / 0x10000) by (subst n; lia).
  assert (0x10000 * (Z.of_nat k + 1) <= byteLength buf - first).
  { etransitivity; [apply Z.mul_le_mono_nonneg_l; [lia|exact Hkn]|].
    apply Z.mul_div_le. lia. }
  lia.
Qed.
End FileHeaderFacts.

Section GetRecord.
Import BinaryReader FileHeader.

Lemma u64leAt_inv o buf p v p' :
  u64leAt o buf p = (Ret v, p') ->
  v = u64_of buf o /\ p' = p /\ 0 <= o /\ o + 8 <= byteLength buf.
Proof.
  intros E. pose proof (reads_at_u64 o buf p) as [Hs Hb].
  rewrite E in Hs, Hb. cbn in Hs. subst p'.
  destruct (Hb v eq_refl) as [H0 H1].
  rewrite (u64leAt_ok buf p o H0 H1) in E. injection E as <-.
  repeat split; assumption.
Qed.

Lemma findRecord_inv recordNum l buf p r p' :
  findRecord recordNum l buf p = (Ret r, p') ->
  p' = p
  /\ match r with
     | Some o => In o l /\ u64_of buf (o + 0x8) = recordNum
     | None => Forall (fun o => u64_of buf (o + 0x8) <> recordNum) l
     end.
Proof.
  revert p. induction l as [|o l IH]; intros p E; cbn [findRecord] in E.
  - injection E as <- <-. split; [reflexivity|constructor].
  - apply bind_inv in E as (n & p1 & En & E).
    unfold Record.recordNum, Record.u64 in En.
    apply u64leAt_inv in En as (-> & -> & _).
    destruct (u64_of buf (o + 0x8) =? recordNum) eqn:Eq.
    + apply Z.eqb_eq in Eq. injection E as <- <-.
      split; [reflexivity|]. split; [left; reflexivity|exact Eq].
    + apply Z.eqb_neq in Eq. apply IH in E as [-> Hr]. split; [reflexivity|].
      destruct r as [o'|].
      * destruct Hr as [Hin Hn]. split; [right; exact Hin|exact Hn].
      * constructor; assumption.
Qed.

Lemma searchChunks_inv recordNum cs buf p r p' :
  searchChunks recordNum cs buf p = (Ret r, p') ->
  p' = p
  /\ match r with
     | Some o =>
         u64_of buf (o + 0x8) = recordNum
         /\ exists c y, In c cs /\ inRange buf recordNum c
                        /\ ChunkHeader.records c buf p = (Ret y, p)
                        /\ In o (ChunkHeader.yielded y)
     | None =>
         forall c y, In c cs -> inRange buf recordNum c ->
                     ChunkHeader.records c buf p = (Ret y, p) ->
                     Forall (fun o => u64_of buf (o + 0x8) <> recordNum)
                       (ChunkHeader.yielded y)
     end.
Proof.
  revert p. induction cs as [|c cs IH]; intros p E; cbn [searchChunks] in E.
  - injection E as <- <-. split; [reflexivity|]. intros c y [].
  - apply bind_inv in E as (firstRecord & p1 & Ef & E).
    unfold ChunkHeader.logFirstRecordNumber, Block.u64, Block.abs in Ef.
    apply u64leAt_inv in Ef as (-> & -> & _).
    apply bind_inv in E as (lastRecord & p2 & El & E).
    unfold ChunkHeader.logLastRecordNumber, Block.u64, Block.abs in El.
    apply u64leAt_inv in El as (-> & -> & _).
    destruct ((u64_of buf (c + 0x18) <=? recordNum)
              && (recordNum <=? u64_of buf (c + 0x20))) eqn:Er; cbn [negb] in E.
    + apply andb_true_iff in Er as [Er1 Er2]. apply Z.leb_le in Er1, Er2.
      destruct (records_returns c buf p) as (y & Ey & _).
      rewrite (bind_ret _ _ _ _ _ _ Ey) in E.
      apply bind_inv in E as (found & p3 & Efound & E).
      apply findRecord_inv in Efound as [-> Hfound].
      destruct found as [o|].
      * injection E as <- <-. destruct Hfound as [Hin Hn].
        split; [reflexivity|]. split; [exact Hn|].
        exists c, y. split; [left; reflexivity|]. split; [split; assumption|].
        split; [exact Ey|exact Hin].
      * destruct (ChunkHeader.rethrown y); [discriminate|].
        apply IH in E as [-> Hr]. split; [reflexivity|].
        destruct r as [o|].
        -- destruct Hr as (Hn & c' & y' & Hin & Hrange & Ey' & Ho).
           split; [exact Hn|]. exists c', y'. split; [right; exact Hin|].
           split; [exact Hrange|]. split; [exact Ey'|exact Ho].
        -- intros c' y' [<-|Hin] Hrange Ey'.
           ++ rewrite Ey in Ey'. injection Ey' as <-. exact Hfound.
           ++ apply (Hr c' y' Hin Hrange Ey').
    + apply IH in E as [-> Hr]. split; [reflexivity|].
      destruct r as [o|].
      * destruct Hr as (Hn & c' & y' & Hin & Hrange & Ey' & Ho).
        split; [exact Hn|]. exists c', y'. split; [right; exact Hin|].
        split; [exact Hrange|]. split; [exact Ey'|exact Ho].
      * intros c' y' [<-|Hin] Hrange Ey'.
        -- exfalso. unfold inRange in Hrange.
           apply andb_false_iff in Er as [Er|Er]; apply Z.leb_gt in Er; lia.
        -- apply (Hr c' y' Hin Hrange Ey').
Qed.

Variable offset : Z.

(** X17: [getRecord(n)] does not move the reader.  A record it returns has
    the number [n] and is one of the records yielded by a chunk of the file
    whose range of log record numbers holds [n]; when it returns [null], no
    record yielded by such a chunk has the number [n]. *)
Theorem getRecord_is_sound recordNum buf p r p' :
  getRecord offset recordNum buf p = (Ret r, p') ->
  p' = p
  /\ exists cs,
       chunks offset false buf p = (Ret cs, p)
       /\ match r with
          | Some o =>
              u64_of buf (o + 0x8) = recordNum
              /\ exists c y, In c cs /\ inRange buf recordNum c
                             /\ ChunkHeader.records c buf p = (Ret y, p)
                             /\ In o (ChunkHeader.yielded y)
          | None =>
              forall c y, In c cs -> inRange buf recordNum c ->
                          ChunkHeader.records c buf p = (Ret y, p) ->
                          Forall (fun o => u64_of buf (o + 0x8) <> recordNum)
                            (ChunkHeader.yielded y)
          end.
Proof.
  intros E. unfold getRecord in E.
  apply bind_inv in E as (cs & p1 & Ec & E).
  assert (Hp : p1 = p).
  { unfold chunks in Ec.
    apply bind_inv in Ec as (mc & q1 & Emc & Ec).
    unfold chunkCount, Block.u16, Block.abs in Emc.
    apply u16leAt_inv in Emc as (_ & -> & _).
    apply bind_inv in Ec as (hcs & q2 & Eh & Ec).
    unfold headerChunkSize, Block.u16, Block.abs in Eh.
    apply u16leAt_inv in Eh as (_ & -> & _).
    apply bind_inv in Ec as (sz & q3 & Es & Ec). injection Es as _ <-.
    injection Ec as _ <-. reflexivity. }
  subst p1. apply searchChunks_inv in E as [-> Hr].
  split; [reflexivity|]. exists cs. split; [exact Ec|exact Hr].
Qed.
End GetRecord.

Section Verify.
Import BinaryReader FileHeader.

Context `{Host}.
Variable crc32Checksum : list byte -> Z.
Variable offset : Z.

Lemma Block_bytes_value rel len buf p :
  Block.bytes offset rel len buf p
  = if (0 <=? rel) && (0 <=? len) && (0 <=? offset + rel)
       && (offset + rel + len <=? byteLength buf)
    then (Ret (slice buf (offset + rel) len), p) else (Throw, p).
Proof.
  assert (Hcb : Block.checkBounds offset rel len buf p
                = if (rel <? 0) || (len <? 0) then (Throw, p)
                  else if byteLength buf <? offset + rel + len then (Throw, p)
                       else (Ret tt, p)).
  { unfold Block.checkBounds, Block.abs.
    destruct ((rel <? 0) || (len <? 0)); [reflexivity|].
    cbv beta iota. unfold mbind, Rd_bind, bind, BinaryReader.size, inspect.
    destruct (byteLength buf <? offset + rel + len); reflexivity. }
  unfold Block.bytes, Block.abs. rewrite bind_unfold, Hcb.
  assert (Hat : bytesAt (offset + rel) len buf p
                = if (offset + rel <? 0) || (byteLength buf <? offset + rel + len)
                  then (Throw, p) else (Ret (slice buf (offset + rel) len), p)).
  { unfold bytesAt. rewrite bind_unfold. unfold checkBounds.
    destruct ((offset + rel <? 0) || (byteLength buf <? offset + rel + len));
      reflexivity. }
  destruct (rel <? 0) eqn:E1, (len <? 0) eqn:E2,
    (byteLength buf <? offset + rel + len) eqn:E3; cbn [orb]; cbv beta iota;
    try rewrite Hat; try rewrite E3;
    destruct (offset + rel <? 0) eqn:E4; cbn [orb];
    repeat match goal with
           | E : (_ <? _) = true |- _ => apply Z.ltb_lt in E
           | E : (_ <? _) = false |- _ => apply Z.ltb_ge in E
           end;
    destruct (0 <=? rel) eqn:F1, (0 <=? len) eqn:F2, (0 <=? offset + rel) eqn:F3,
      (offset + rel + len <=? byteLength buf) eqn:F4; cbn [andb];
    repeat match goal with
           | E : (_ <=? _) = true |- _ => apply Z.leb_le in E
           | E : (_ <=? _) = false |- _ => apply Z.leb_gt in E
           end;
    first [reflexivity | lia].
Qed.

Lemma checkMagic_value buf p :
  checkMagic offset buf p
  = (Ret ((0 <=? offset) && (offset + 8 <=? byteLength buf)
          && bool_decide (utf8_decode (slice buf offset 8) = ELF_FILE)), p).
Proof.
  unfold checkMagic, magic, try_catch. rewrite bind_unfold, bind_unfold.
  rewrite Block_bytes_value. replace (offset + 0) with offset by lia.
  cbn [Z.leb Z.compare andb].
  destruct (0 <=? offset); [|reflexivity].
  destruct (offset + 8 <=? byteLength buf); reflexivity.
Qed.

(** X18: [FileHeader.checkMagic] never throws: it is true exactly when the
    eight bytes at the header are readable and decode to "ElfFile" and a NUL.
    [verify()] returns false without reading anything else when the magic is
    wrong, even on a slab too short for a header; when it returns true, the
    major version is 3, the minor version 1 or 2, the header chunk size
    0x1000, and the stored checksum is the CRC-32 of the first 0x78 bytes. *)
Theorem verify_checks buf p :
  let okMagic := (0 <=? offset) && (offset + 8 <=? byteLength buf)
                 && bool_decide (utf8_decode (slice buf offset 8) = ELF_FILE) in
  checkMagic offset buf p = (Ret okMagic, p)
  /\ (okMagic = false -> verify crc32Checksum offset buf p = (Ret false, p))
  /\ (forall p', verify crc32Checksum offset buf p = (Ret true, p') ->
        p' = p /\ okMagic = true
        /\ u16_at buf (offset + 0x26) = 0x3
        /\ (u16_at buf (offset + 0x24) = 0x1 \/ u16_at buf (offset + 0x24) = 0x2)
        /\ u16_at buf (offset + 0x28) = 0x1000
        /\ le_val (slice buf (offset + 0x7C) 4)
           = crc32Checksum (slice buf offset 0x78) mod 2 ^ 32).
Proof.
  intros okMagic. pose proof (checkMagic_value buf p) as Hm. fold okMagic in Hm.
  split; [exact Hm|]. split.
  - intros Hf. unfold verify. erewrite bind_ret by exact Hm. rewrite Hf. reflexivity.
  - intros p' E. unfold verify in E. rewrite (bind_ret _ _ _ _ _ _ Hm) in E.
    destruct okMagic; cbn [negb] in E; [|discriminate].
    apply bind_inv in E as (major & p1 & Emaj & E).
    unfold majorVersion, Block.u16, Block.abs in Emaj.
    apply u16leAt_inv in Emaj as (-> & -> & _).
    destruct (u16_at buf (offset + 0x26) =? 0x3) eqn:E3; cbn [negb] in E; [|discriminate].
    apply bind_inv in E as (minor & p2 & Emin & E).
    unfold minorVersion, Block.u16, Block.abs in Emin.
    apply u16leAt_inv in Emin as (-> & -> & _).
    destruct ((u16_at buf (offset + 0x24) =? 0x1) || (u16_at buf (offset + 0x24) =? 0x2))
      eqn:E12; cbn [negb] in E; [|discriminate].
    apply bind_inv in E as (hcs & p3 & Eh & E).
    unfold headerChunkSize, Block.u16, Block.abs in Eh.
    apply u16leAt_inv in Eh as (-> & -> & _).
    destruct (u16_at buf (offset + 0x28) =? 0x1000) eqn:Eh; cbn [negb] in E;
      [|discriminate].
    apply bind_inv in E as (stored & p4 & Est & E).
    unfold checksum, Block.u32, Block.abs in Est.
    destruct (u32leAt_cases (offset + 0x7C) buf p) as [(_ & _ & Es')|Es'];
      rewrite Es' in Est; [|discriminate].
    injection Est as <- <-.
    apply bind_inv in E as (computed & p5 & Ecomp & E).
    unfold calculateChecksum in Ecomp.
    apply bind_inv in Ecomp as (data & p6 & Ed & Ecomp).
    rewrite Block_bytes_value in Ed.
    destruct ((0 <=? 0) && (0 <=? 0x78) && (0 <=? offset + 0)
              && (offset + 0 + 0x78 <=? byteLength buf)); [|discriminate].
    injection Ed as <- <-. injection Ecomp as <- <-.
    replace (offset + 0) with offset in E by lia.
    injection E as E <-. apply Z.eqb_eq in E, E3, Eh.
    apply orb_true_iff in E12 as [E12|E12]; apply Z.eqb_eq in E12;
      repeat split; auto.
Qed.
End Verify.

Lemma chunks_lie_inside_the_slab_witness :
  exists cs p',
    FileHeader.chunks 0 false sample_file 0 = (BinaryReader.Ret cs, p')
    /\ let first := 0 + BinaryReader.u16_at sample_file (0 + 0x28) in
       let maxChunks := if false then FileHeader.MAX_SAFE_INTEGER
                        else BinaryReader.u16_at sample_file (0 + 0x2A) in
       let n := Z.min maxChunks
                  ((BinaryReader.byteLength sample_file - first) / 0x10000) in
       p' = 0
       /\ cs = List.map (fun k => first + 0x10000 * Z.of_nat k)
                 (List.seq 0 (Z.to_nat n))
       /\ Forall (fun c => first <= c
                           /\ c + 0x10000 <= BinaryReader.byteLength sample_file) cs.
Proof.
  eexists. eexists. split; [vm_compute; reflexivity|].
  eapply (chunks_lie_inside_the_slab 0 false sample_file 0).
  vm_compute. reflexivity.
Defined.

Lemma getRecord_is_sound_witness :
  exists r p',
    FileHeader.getRecord 0 2 sample_file 0 = (BinaryReader.Ret r, p')
    /\ p' = 0
    /\ exists cs,
         FileHeader.chunks 0 false sample_file 0 = (BinaryReader.Ret cs, 0)
         /\ match r with
            | Some o =>
                BinaryReader.u64_of sample_file (o + 0x8) = 2
                /\ exists c y, In c cs /\ FileHeader.inRange sample_file 2 c
                               /\ ChunkHeader.records c sample_file 0
                                  = (BinaryReader.Ret y, 0)
                               /\ In o (ChunkHeader.yielded y)
            | None =>
                forall c y, In c cs -> FileHeader.inRange sample_file 2 c ->
                            ChunkHeader.records c sample_file 0
                            = (BinaryReader.Ret y, 0) ->
                            Forall (fun o => BinaryReader.u64_of sample_file (o + 0x8) <> 2)
                              (ChunkHeader.yielded y)
            end.
Proof.
  eexists. eexists. split; [vm_compute; reflexivity|].
  eapply (getRecord_is_sound 0 2 sample_file 0).
  vm_compute. reflexivity.
Defined.

(** In the sample file record 2 is the second record of the chunk, and no
    record has the number 3. *)
Example getRecord_sample :
  FileHeader.getRecord 0 2 sample_file 0 = (BinaryReader.Ret (Some 0x1220), 0)
  /\ FileHeader.getRecord 0 3 sample_file 0 = (BinaryReader.Ret None, 0).
Proof. split; vm_compute; reflexivity. Qed.

(** The sample header carries the checksum 0; with a slab of four bytes the
    magic cannot be read and [verify()] is false. *)
Example verify_sample :
  FileHeader.verify (H := host_utc) (fun _ => 0) 0 sample_file 0
  = (BinaryReader.Ret true, 0)
  /\ FileHeader.verify (H := host_utc) (fun _ => 0) 0 [x45; x6c; x66; x46] 0
     = (BinaryReader.Ret false, 0).
Proof. split; vm_compute; reflexivity. Qed.

(** ** Template definitions (evtx/TemplateNode.ts) *)

Section TemplateHeader.
Import BinaryReader Chunk.
Variable offset : Z.
Variable factory : Factory.

Lemma readBuffer_inv n buf p bs p' :
  readBuffer n buf p = (Ret bs, p') ->
  bs = slice buf p n /\ p' = p + n /\ 0 <= p /\ p + n <= byteLength buf.
Proof.
  intros E. pose proof E as E0. unfold readBuffer in E.
  apply (streaming_inv (fun pos => bytesAt pos n) n) in E;
    [|apply (reads_at_checked n (fun offset buf => slice buf offset n))].
  destruct E as (Eb & -> & H0 & H1).
  rewrite (bytesAt_ok buf p p n H0 H1) in Eb. injection Eb as <-.
  repeat split; assumption.
Qed.

Lemma firstn_slice buf o n m :
  0 <= n <= m -> List.firstn (Z.to_nat n) (slice buf o m) = slice buf o n.
Proof.
  intros Hn. unfold slice. rewrite List.firstn_firstn. f_equal. lia.
Qed.

Ltac on_read Hp E lem :=
  let a := fresh "a" in let w1 := fresh "w" in let Ea := fresh "Ea" in
  let q := fresh "q" in let Hq := fresh "Hq" in
  apply bindW_inv in E as (a & w1 & Ea & E);
  apply (on_step _ _ _ _ _ _ _ Hp) in Ea as (q & Ea & Hq);
  apply lem in Ea; clear Hp; rename Hq into Hp.

(** X19: the header a TemplateNode reads at its offset: the next offset at
    0x00, the template id at 0x04, the sixteen GUID bytes from 0x04 on, so
    that the id is the first four bytes of the GUID, and the data length at
    0x14; the whole header of 24 bytes lies inside the slab.  With a data
    length of 0 there are no children, and the reader is left right after
    the header. *)
Theorem templateNode_header reader ofs buf w p t w' :
  positionOf reader w = Some p ->
  newTemplateNode offset factory reader ofs buf w = (Ret t, w') ->
  let abs := offset + ofs in
  templateOffset t = ofs
  /\ nextOffset t = le_val (slice buf abs 4)
  /\ templateId t = le_val (slice buf (abs + 4) 4)
  /\ guid t = slice buf (abs + 4) 16
  /\ templateId t = le_val (List.firstn 4 (guid t))
  /\ dataLength t = le_val (slice buf (abs + 20) 4)
  /\ abs + 24 <= byteLength buf
  /\ (dataLength t = 0 -> templateChildren t = [] /\ positionOf reader w' = Some (abs + 24)).
Proof.
  intros Hp E abs. unfold newTemplateNode in E. fold abs in E.
  on_read Hp E seek_inv. destruct Ea as [-> _].
  apply bindW_inv in E as (sz & w1 & Es & E).
  apply (on_step _ _ _ _ _ _ _ Hp) in Es as (q1 & Es & Hp1).
  injection Es as <- <-. clear Hp.
  on_read Hp1 E readBuffer_inv. destruct Ea as (_ & -> & _).
  on_read Hp1 E seek_inv. destruct Ea as [-> _].
  on_read Hp1 E u32le_inv. destruct Ea as (-> & -> & _).
  apply bindW_inv in E as (tpos & w5 & Et & E).
  apply (on_step _ _ _ _ _ _ _ Hp1) in Et as (q5 & Et & Hp5).
  injection Et as <- <-. clear Hp1.
  on_read Hp5 E u32le_inv. destruct Ea as (-> & -> & _).
  on_read Hp5 E seek_inv. destruct Ea as [-> _].
  on_read Hp5 E readBuffer_inv. destruct Ea as (-> & -> & _).
  on_read Hp5 E u32le_inv. destruct Ea as (-> & -> & H0 & H1).
  replace (abs + 4 + 16) with (abs + 20) in * by lia.
  apply bindW_inv in E as (kids & w10 & Ek & E).
  injection E as <- <-. cbn [templateOffset nextOffset templateId guid dataLength
                              templateChildren].
  split; [reflexivity|]. split; [reflexivity|]. split; [reflexivity|].
  split; [reflexivity|].
  split.
  { change (List.firstn 4 (slice buf (abs + 4) 16))
      with (List.firstn (Z.to_nat 4) (slice buf (abs + 4) 16)).
    rewrite (firstn_slice buf (abs + 4) 4 16) by lia. reflexivity. }
  split; [reflexivity|]. split; [lia|].
  intros Hd. rewrite Hd in Ek. cbn [Z.eqb] in Ek. injection Ek as <- <-.
  split; [reflexivity|]. rewrite Hp5. f_equal. lia.
Qed.
End TemplateHeader.

Lemma templateNode_header_witness :
  exists t w',
    Chunk.positionOf Chunk.Main (world_at 0x218) = Some 0x218
    /\ Chunk.newTemplateNode 0 (Nodes.fromStream (H := host_utc) 0 16) Chunk.Main 0x40
         chunk_with_embedded_bxml (world_at 0x218) = (BinaryReader.Ret t, w')
    /\ let abs := 0 + 0x40 in
       Chunk.templateOffset t = 0x40
       /\ Chunk.nextOffset t
          = BinaryReader.le_val (BinaryReader.slice chunk_with_embedded_bxml abs 4)
       /\ Chunk.templateId t
          = BinaryReader.le_val (BinaryReader.slice chunk_with_embedded_bxml (abs + 4) 4)
       /\ Chunk.guid t = BinaryReader.slice chunk_with_embedded_bxml (abs + 4) 16
       /\ Chunk.templateId t = BinaryReader.le_val (List.firstn 4 (Chunk.guid t))
       /\ Chunk.dataLength t
          = BinaryReader.le_val (BinaryReader.slice chunk_with_embedded_bxml (abs + 20) 4)
       /\ abs + 24 <= BinaryReader.byteLength chunk_with_embedded_bxml
       /\ (Chunk.dataLength t = 0 ->
           Chunk.templateChildren t = []
           /\ Chunk.positionOf Chunk.Main w' = Some (abs + 24)).
Proof.
  eexists. eexists. split; [reflexivity|]. split; [vm_compute; reflexivity|].
  eapply (templateNode_header 0 (Nodes.fromStream (H := host_utc) 0 16) Chunk.Main
            0x40 chunk_with_embedded_bxml (world_at 0x218) 0x218);
    [reflexivity | vm_compute; reflexivity].
Defined.

(** ** XML escaping *)

Section Escape.
Import Xml.

Lemma replaceUnit_app c r a b :
  replaceUnit c r (a ++ b) = replaceUnit c r a ++ replaceUnit c r b.
Proof. unfold replaceUnit. apply List.flat_map_app. Qed.

Lemma replaceUnit_other c r x :
  (x =? c) = false -> replaceUnit c r [x] = [x].
Proof. intros E. unfold replaceUnit. cbn [List.flat_map]. rewrite E. reflexivity. Qed.

Lemma escape_unit x :
  replaceUnit 39 (js "&#x27;")
    (replaceUnit 34 (js "&quot;")
       (replaceUnit 62 (js "&gt;")
          (replaceUnit 60 (js "&lt;")
             (replaceUnit 38 (js "&amp;") [x]))))
  = escapeUnit x.
Proof.
  unfold escapeUnit.
  destruct (x =? 38) eqn:E38; [apply Z.eqb_eq in E38; subst x; reflexivity|].
  rewrite (replaceUnit_other 38) by exact E38.
  destruct (x =? 60) eqn:E60; [apply Z.eqb_eq in E60; subst x; reflexivity|].
  rewrite (replaceUnit_other 60) by exact E60.
  destruct (x =? 62) eqn:E62; [apply Z.eqb_eq in E62; subst x; reflexivity|].
  rewrite (replaceUnit_other 62) by exact E62.
  destruct (x =? 34) eqn:E34; [apply Z.eqb_eq in E34; subst x; reflexivity|].
  rewrite (replaceUnit_other 34) by exact E34.
  destruct (x =? 39) eqn:E39; [apply Z.eqb_eq in E39; subst x; reflexivity|].
  apply replaceUnit_other. exact E39.
Qed.

Lemma escape_passes l :
  replaceUnit 39 (js "&#x27;")
    (replaceUnit 34 (js "&quot;")
       (replaceUnit 62 (js "&gt;")
          (replaceUnit 60 (js "&lt;")
             (replaceUnit 38 (js "&amp;") l))))
  = List.flat_map escapeUnit l.
Proof.
  induction l as [|x l IH]; [reflexivity|].
  change (x :: l) with ([x] ++ l).
  rewrite !replaceUnit_app, IH, escape_unit. reflexivity.
Qed.

(** X20: the five replacement passes of [escapeXml] amount to one
    simultaneous replacement: every code unit that is kept is escaped exactly
    once, so the '&' of an entity written by a later pass is never escaped
    again.  The result holds no '<', '>', double or single quote and none of
    the control characters that are removed. *)
Theorem escapeXml_escapes_each_unit_once text :
  escapeXml text
  = List.flat_map escapeUnit (List.filter (fun c => negb (isInvalidXmlChar c)) text)
  /\ Forall (fun c => c <> 60 /\ c <> 62 /\ c <> 34 /\ c <> 39
                     /\ isInvalidXmlChar c = false) (escapeXml text).
Proof.
  assert (E : escapeXml text
              = List.flat_map escapeUnit
                  (List.filter (fun c => negb (isInvalidXmlChar c)) text))
    by (unfold escapeXml; apply escape_passes).
  split; [exact E|]. rewrite E. clear E.
  induction text as [|x text IH]; cbn [List.filter List.flat_map]; [constructor|].
  destruct (isInvalidXmlChar x) eqn:Ex; cbn [negb]; [exact IH|].
  cbn [List.flat_map]. apply Forall_app. split; [|exact IH].
  unfold escapeUnit.
  destruct (x =? 38) eqn:E38; [repeat constructor; discriminate|].
  destruct (x =? 60) eqn:E60; [repeat constructor; discriminate|].
  destruct (x =? 62) eqn:E62; [repeat constructor; discriminate|].
  destruct (x =? 34) eqn:E34; [repeat constructor; discriminate|].
  destruct (x =? 39) eqn:E39; [repeat constructor; discriminate|].
  apply Z.eqb_neq in E60, E62, E34, E39.
  constructor; [|constructor]. repeat split; assumption.
Qed.
End Escape.

Example escapeXml_sample :
  Xml.escapeXml (js "a<b & 'c'" ++ [0x07]) = js "a&lt;b &amp; &#x27;c&#x27;".
Proof. reflexivity. Qed.

(** ** Message templates and raw data helpers (api.ts) *)

Section PlainText.
Import Api.

Lemma matchFormatted_head x tl : x <> PERCENT -> matchFormatted (x :: tl) = None.
Proof.
  intros Hx. cbn. destruct (x =? PERCENT) eqn:E; [|reflexivity].
  apply Z.eqb_eq in E. contradiction.
Qed.

Lemma matchPlain_head x tl : x <> PERCENT -> matchPlain (x :: tl) = None.
Proof.
  intros Hx. cbn. destruct (x =? PERCENT) eqn:E; [|reflexivity].
  apply Z.eqb_eq in E. contradiction.
Qed.

Lemma matchNewline_head x tl : x <> PERCENT -> matchNewline (x :: tl) = None.
Proof.
  intros Hx. destruct tl as [|n rest]; cbn; [reflexivity|].
  destruct (x =? PERCENT) eqn:E; [|reflexivity].
  apply Z.eqb_eq in E. contradiction.
Qed.

(** A pass copies a prefix that lacks the first unit of its pattern and goes
    on with the rest as if it started there. *)
Lemma replaceAll_plain_prefix c m f a t :
  (forall x tl, x <> c -> m (x :: tl) = None) ->
  occurs c a = false -> replaceAll m f (a ++ t) = a ++ replaceAll m f t.
Proof.
  intros Hm. unfold replaceAll. induction a as [|x a IH]; intros Ha; [reflexivity|].
  cbn in Ha. apply orb_false_iff in Ha as [Hx Ha].
  cbn [List.app List.length replaceFrom].
  rewrite Hm by (intros ->; rewrite Z.eqb_refl in Hx; discriminate).
  f_equal. apply IH, Ha.
Qed.

(** X23: text without '%', '{' and '!' in front of a template comes out of
    [applyMessageTemplate] unchanged, followed by the result for the rest of
    the template: the five passes never rewrite or join across such text. *)
Theorem applyMessageTemplate_keeps_plain_text text template args :
  occurs PERCENT text = false -> occurs LBRACE text = false ->
  occurs BANG text = false ->
  applyMessageTemplate (text ++ template) args
  = text ++ applyMessageTemplate template args.
Proof.
  intros P L B. unfold applyMessageTemplate, passFormatted, passPlain, passNewline,
    passBraced, passFormatTokens.
  rewrite (replaceAll_plain_prefix PERCENT) by (apply matchFormatted_head || exact P).
  rewrite (replaceAll_plain_prefix PERCENT) by (apply matchPlain_head || exact P).
  rewrite (replaceAll_plain_prefix PERCENT) by (apply matchNewline_head || exact P).
  rewrite (replaceAll_plain_prefix LBRACE) by (apply matchBraced_head || exact L).
  rewrite (replaceAll_plain_prefix BANG) by (apply matchFormatToken_head || exact B).
  reflexivity.
Qed.
End PlainText.

Lemma applyMessageTemplate_keeps_plain_text_witness :
  Api.applyMessageTemplate (js "User: " ++ js "%1 (%2)") [js "bob"; js "7"]
  = js "User: " ++ Api.applyMessageTemplate (js "%1 (%2)") [js "bob"; js "7"].
Proof.
  apply (applyMessageTemplate_keeps_plain_text (js "User: ") (js "%1 (%2)")
           [js "bob"; js "7"]); reflexivity.
Defined.

Section Search.
Import Patterns BinaryReader.

Lemma matchesAt_firstn data pat :
  matchesAt data pat = true
  <-> List.map bz (List.firstn (List.length pat) data) = pat.
Proof.
  revert data.
  induction pat as [|b bs IH]; intros data; cbn [matchesAt List.length List.firstn].
  - split; reflexivity.
  - destruct data as [|d ds]; cbn [List.firstn List.map].
    + split; discriminate.
    + rewrite andb_true_iff, Z.eqb_eq, IH. split.
      * intros [E1 E2]. rewrite E1. f_equal. exact E2.
      * intros E. injection E as E1 E2. split; assumption.
Qed.

Lemma matchesAt_occurs data pat :
  matchesAt data pat = true <-> occursAt data pat 0.
Proof.
  unfold occursAt. change (List.skipn 0 data) with data.
  rewrite matchesAt_firstn. split; [|intros [_ E]; exact E].
  intros E. split; [|exact E].
  apply (f_equal (@List.length Z)) in E.
  rewrite List.length_map, List.length_firstn in E. lia.
Qed.

Lemma occursAt_length data pat k :
  occursAt data pat k -> (k + List.length pat <= List.length data)%nat.
Proof. intros [E _]. exact E. Qed.

Lemma occursAt_tail d ds pat k :
  occursAt (d :: ds) pat (S k) <-> occursAt ds pat k.
Proof. unfold occursAt. cbn [List.skipn List.length]. split; intros [E1 E2]; (split; [lia|exact E2]). Qed.

Lemma searchFrom_spec data pat i :
  (searchFrom data pat i = {| index := -1; length := 0 |}
   /\ forall k, ~ occursAt data pat k)
  \/ (exists k, searchFrom data pat i
               = {| index := i + Z.of_nat k; length := Z.of_nat (List.length pat) |}
             /\ occursAt data pat k
             /\ forall j, (j < k)%nat -> ~ occursAt data pat j).
Proof.
  revert i. induction data as [|d ds IH]; intros i; cbn [searchFrom].
  - destruct (Z.of_nat (List.length pat) <=? Z.of_nat (List.length [])) eqn:El.
    + destruct (matchesAt [] pat) eqn:Em.
      * right. exists 0%nat. rewrite Z.add_0_r. split; [reflexivity|].
        split; [apply matchesAt_occurs, Em|]. intros j Hj. lia.
      * left. split; [reflexivity|]. intros k Hk.
        assert (Hl := occursAt_length _ _ _ Hk). cbn in Hl.
        assert (k = 0%nat) by lia. subst k.
        apply matchesAt_occurs in Hk. congruence.
    + left. split; [reflexivity|]. intros k Hk.
      apply occursAt_length in Hk. apply Z.leb_gt in El. cbn in El, Hk. lia.
  - destruct (Z.of_nat (List.length pat) <=? Z.of_nat (List.length (d :: ds))) eqn:El.
    + destruct (matchesAt (d :: ds) pat) eqn:Em.
      * right. exists 0%nat. rewrite Z.add_0_r. split; [reflexivity|].
        split; [apply matchesAt_occurs, Em|]. intros j Hj. lia.
      * destruct (IH (i + 1)) as [[E Hn]|(k & E & Hk & Hn)].
        -- left. split; [exact E|]. intros [|k] Hk.
           ++ apply matchesAt_occurs in Hk. congruence.
           ++ apply (Hn k). apply occursAt_tail in Hk. exact Hk.
        -- right. exists (S k). split; [rewrite E; f_equal; lia|].
           split; [apply occursAt_tail, Hk|]. intros [|j] Hj Ho.
           ++ apply matchesAt_occurs in Ho. congruence.
           ++ apply (Hn j); [lia|apply occursAt_tail in Ho; exact Ho].
    + left. split; [reflexivity|]. intros k Hk.
      apply occursAt_length in Hk. apply Z.leb_gt in El. lia.
Qed.

(** X21: [findUnicodePattern] returns the index of the first place where the
    pattern, each code unit followed by a zero byte, stands in the data, with
    twice the pattern length; it returns index -1 and length 0 exactly when
    the pattern stands nowhere in the data. *)
Theorem findUnicodePattern_finds_first_occurrence data pattern :
  let r := findUnicodePattern data pattern in
  (index r = -1 /\ length r = 0
   /\ forall k, ~ occursAt data (unicodeBytes pattern) k)
  \/ (exists k, index r = Z.of_nat k
             /\ length r = 2 * Z.of_nat (List.length pattern)
             /\ occursAt data (unicodeBytes pattern) k
             /\ forall j, (j < k)%nat -> ~ occursAt data (unicodeBytes pattern) j).
Proof.
  cbv zeta. unfold findUnicodePattern.
  destruct (searchFrom_spec data (unicodeBytes pattern) 0) as [[E Hn]|(k & E & Hk & Hn)];
    rewrite E; cbn [index length].
  - left. split; [reflexivity|]. split; [reflexivity|]. exact Hn.
  - right. exists k. split; [reflexivity|]. split; [|split; assumption].
    unfold unicodeBytes. clear. induction pattern as [|c tl IH]; [reflexivity|].
    cbn [List.flat_map List.app List.length]. lia.
Qed.

(** X22: [findBinaryPattern] returns the index of the first place where the
    encoded pattern stands in the data, with the number of encoded bytes; it
    returns index -1 and length 0 exactly when the encoded pattern stands
    nowhere in the data. *)
Theorem findBinaryPattern_finds_first_occurrence encode data pattern :
  let r := findBinaryPattern encode data pattern in
  let pat := List.map bz (encode pattern) in
  (index r = -1 /\ length r = 0 /\ forall k, ~ occursAt data pat k)
  \/ (exists k, index r = Z.of_nat k
             /\ length r = Z.of_nat (List.length (encode pattern))
             /\ occursAt data pat k
             /\ forall j, (j < k)%nat -> ~ occursAt data pat j).
Proof.
  cbv zeta. unfold findBinaryPattern.
  destruct (searchFrom_spec data (List.map bz (encode pattern)) 0)
    as [[E Hn]|(k & E & Hk & Hn)]; rewrite E; cbn [index length].
  - left. split; [reflexivity|]. split; [reflexivity|]. exact Hn.
  - right. exists k. rewrite List.length_map.
    split; [reflexivity|]. split; [reflexivity|]. split; assumption.
Qed.
End Search.

Example findUnicodePattern_sample :
  Patterns.findUnicodePattern
    [x01; x41; x00; x41; x00; x42; x00; x09] (js "AB")
  = {| Patterns.index := 3; Patterns.length := 4 |}
  /\ Patterns.findUnicodePattern [x41; x42] (js "AB")
     = {| Patterns.index := -1; Patterns.length := 0 |}.
Proof. split; reflexivity. Qed.

Section Longest.
Import ReadableText BinaryReader.

Lemma printableRun_extend r Q after : printableRun r Q -> printableRun r (Q ++ after).
Proof.
  intros [Hp (b & a & ->)]. split; [exact Hp|].
  exists b, (a ++ after). rewrite <- !List.app_assoc. reflexivity.
Qed.

Lemma printableRun_suffix r C Q : printableRun r C -> printableRun r (Q ++ C).
Proof.
  intros [Hp (b & a & ->)]. split; [exact Hp|].
  exists (Q ++ b), a. rewrite <- !List.app_assoc. reflexivity.
Qed.

Lemma printableRun_whole C :
  List.Forall (fun c => isPrintable c = true) C -> printableRun C C.
Proof. intros H. split; [exact H|]. exists [], []. rewrite List.app_nil_r. reflexivity. Qed.

Lemma last_case {A} (l : list A) : l = [] \/ exists l' x, l = l' ++ [x].
Proof. induction l using List.rev_ind; eauto. Qed.

(** a printable run ends before a byte that is not printable *)
Lemma printableRun_before r P x :
  isPrintable x = false -> printableRun r (P ++ [x]) -> r <> [] -> printableRun r P.
Proof.
  intros Hx [Hp (bf & af & E)] Hr.
  destruct (last_case af) as [->|(af0 & z & ->)].
  - rewrite List.app_nil_r in E.
    destruct (last_case r) as [->|(r0 & y & ->)]; [contradiction|].
    rewrite List.app_assoc in E. apply List.app_inj_tail in E as [_ ->].
    apply List.Forall_app in Hp as [_ Hp]. apply List.Forall_inv in Hp. congruence.
  - rewrite !List.app_assoc in E. apply List.app_inj_tail in E as [E _].
    split; [exact Hp|]. exists bf, af0. rewrite E, <- List.app_assoc. reflexivity.
Qed.

(** a printable run does not straddle a byte that is not printable *)
Lemma printableRun_split r Q C :
  closed Q -> printableRun r (Q ++ C) -> r <> [] ->
  printableRun r Q \/ printableRun r C.
Proof.
  intros HQ [Hp (b & a & E)] Hr.
  apply List.app_eq_app in E as (l & [[E1 E2]|[E1 E2]]).
  - (* Q = b ++ l, r ++ a = l ++ C *)
    symmetry in E2. apply List.app_eq_app in E2 as (l' & [[E3 E4]|[E3 E4]]).
    + (* l = r ++ l' *)
      left. split; [exact Hp|]. exists b, l'. rewrite E1, E3. reflexivity.
    + (* r = l ++ l', C = l' ++ a *)
      right. destruct (last_case l) as [->|(l0 & y & ->)].
      * cbn in E3. subst r. split; [exact Hp|]. exists [], a. exact E4.
      * exfalso. destruct HQ as [HQ|(Q' & x & HQ & Hx)].
        -- subst Q. symmetry in E1. apply List.app_eq_nil in E1 as [_ E1].
           apply List.app_eq_nil in E1 as [_ E1]. discriminate.
        -- rewrite HQ in E1. rewrite List.app_assoc in E1.
           apply List.app_inj_tail in E1 as [_ ->].
           subst r. apply List.Forall_app in Hp as [Hp _].
           apply List.Forall_app in Hp as [_ Hp].
           apply List.Forall_inv in Hp. congruence.
  - (* b = Q ++ l, C = l ++ r ++ a *)
    right. split; [exact Hp|]. exists l, a. exact E2.
Qed.

Lemma better_cases L C :
  (better L C = C /\ (List.length L < List.length C)%nat /\ 10 < Z.of_nat (List.length C))
  \/ (better L C = L
      /\ ((List.length C <= List.length L)%nat \/ Z.of_nat (List.length C) <= 10)).
Proof.
  unfold better.
  destruct (Z.of_nat (List.length L) <? Z.of_nat (List.length C)) eqn:E1;
    destruct (10 <? Z.of_nat (List.length C)) eqn:E2; cbn [andb];
    try apply Z.ltb_lt in E1; try apply Z.ltb_lt in E2;
    try apply Z.ltb_ge in E1; try apply Z.ltb_ge in E2;
    [left|right|right|right]; (split; [reflexivity|]); lia.
Qed.

(** closing the current run: the state after a byte that is not printable,
    and the state the final check sees *)
Lemma inv_close Q L C after :
  inv Q L C ->
  (better L C = [] \/ (10 < Z.of_nat (List.length (better L C))
                       /\ printableRun (better L C) (Q ++ C ++ after)))
  /\ (forall r, printableRun r (Q ++ C) -> 10 < Z.of_nat (List.length r) ->
                (List.length r <= List.length (better L C))%nat).
Proof.
  intros (HC & HQ & HL & Hmax). split.
  - destruct (better_cases L C) as [(-> & Hlt & H10)|(-> & _)].
    + right. split; [exact H10|]. rewrite List.app_assoc.
      apply printableRun_extend, printableRun_suffix, printableRun_whole, HC.
    + destruct HL as [->|[H10 HL]]; [left; reflexivity|right].
      split; [exact H10|]. apply printableRun_extend, HL.
  - intros r Hr H10.
    assert (Hne : r <> []) by (intros ->; cbn in H10; lia).
    destruct (printableRun_split r Q C HQ Hr Hne) as [H|H].
    + specialize (Hmax r H H10).
      destruct (better_cases L C) as [(-> & Hlt & _)|(-> & _)]; lia.
    + assert (Hle : (List.length r <= List.length C)%nat).
      { destruct H as [_ (b & a & ->)]. rewrite !List.length_app. lia. }
      destruct (better_cases L C) as [(-> & Hlt & _)|(-> & [Hc|Hc])]; lia.
Qed.

Lemma fold_inv data : forall Q L C,
  inv Q L C ->
  exists Q' L' C',
    List.fold_left step data (L, C) = (L', C')
    /\ Q' ++ C' = Q ++ C ++ List.map bz data
    /\ inv Q' L' C'.
Proof.
  induction data as [|b data IH]; intros Q L C HI.
  - exists Q, L, C. cbn. rewrite List.app_nil_r. auto.
  - cbn [List.fold_left List.map].
    replace (step (L, C) b)
      with (if isPrintable (bz b) then (L, C ++ [bz b]) else (better L C, []))
      by reflexivity.
    destruct (isPrintable (bz b)) eqn:Ep.
    + destruct (IH Q L (C ++ [bz b])) as (Q' & L' & C' & E & EQ & HI').
      { destruct HI as (HC & HQ & HL & Hmax). split; [|auto].
        apply List.Forall_app. split; [exact HC|]. constructor; [exact Ep|constructor]. }
      exists Q', L', C'. split; [exact E|]. split; [|exact HI'].
      rewrite EQ, <- List.app_assoc. reflexivity.
    + destruct (IH (Q ++ C ++ [bz b]) (better L C) []) as (Q' & L' & C' & E & EQ & HI').
      { destruct (inv_close Q L C [bz b] HI) as [HL' Hmax'].
        split; [constructor|]. split.
        { right. exists (Q ++ C), (bz b). rewrite <- List.app_assoc. auto. }
        split; [exact HL'|].
        intros r Hr H10. apply Hmax'; [|exact H10].
        rewrite List.app_assoc in Hr. apply (printableRun_before _ _ (bz b)); [exact Ep|exact Hr|].
        intros ->; cbn in H10; lia. }
      exists Q', L', C'. split; [exact E|]. split; [|exact HI'].
      rewrite EQ, <- !List.app_assoc. reflexivity.
Qed.

(** X24: [extractLongestReadableText] returns a run of consecutive printable
    bytes (32 to 126) of the data that is more than 10 long and at least as
    long as every other such run; it returns null exactly when the data has
    no printable run of more than 10 bytes. *)
Theorem extractLongestReadableText_is_longest data :
  match extractLongestReadableText data with
  | Some text =>
      10 < Z.of_nat (List.length text)
      /\ printableRun text (List.map bz data)
      /\ forall r, printableRun r (List.map bz data) ->
                   (List.length r <= List.length text)%nat
  | None =>
      forall r, printableRun r (List.map bz data) -> Z.of_nat (List.length r) <= 10
  end.
Proof.
  unfold extractLongestReadableText.
  destruct (fold_inv data [] [] []) as (Q & L & C & E & EQ & HI).
  { split; [constructor|]. split; [left; reflexivity|]. split; [left; reflexivity|].
    intros r [_ (b & a & Er)] H10. destruct b; [destruct r|]; cbn in *; [lia|discriminate..]. }
  rewrite E. cbn [List.app] in EQ.
  destruct (inv_close Q L C [] HI) as [HL Hmax].
  rewrite List.app_nil_r, EQ in HL. rewrite EQ in Hmax.
  destruct (better L C) as [|c s] eqn:Eb.
  - intros r Hr. destruct (Z_le_gt_dec (Z.of_nat (List.length r)) 10) as [|H10]; [assumption|].
    specialize (Hmax r Hr ltac:(lia)). cbn in Hmax. lia.
  - destruct HL as [HL|[H10 HL]]; [discriminate|].
    split; [exact H10|]. split; [exact HL|].
    intros r Hr. destruct (Z_le_gt_dec (Z.of_nat (List.length r)) 10) as [Hs|Hg].
    + lia.
    + apply Hmax; [exact Hr|lia].
Qed.
End Longest.

Example extractLongestReadableText_sample :
  ReadableText.extractLongestReadableText
    (list_byte_of_string "short" ++ [x00] ++ list_byte_of_string "a readable text"
     ++ [x00; xc8] ++ list_byte_of_string "twelve chars")
  = Some (js "a readable text")
  /\ ReadableText.extractLongestReadableText
       (list_byte_of_string "ten chars." ++ [x00]) = None.
Proof. split; reflexivity. Qed.

Section Choice.
Import Api TemplateChoice.
Variables layoutCount argsLength : Z.

Lemma nth_error_snoc {A} (l : list A) x k t :
  List.nth_error (l ++ [x]) k = Some t ->
  ((k < List.length l)%nat /\ List.nth_error l k = Some t)
  \/ (k = List.length l /\ t = x).
Proof.
  intros E. destruct (Nat.lt_ge_cases k (List.length l)) as [Hk|Hk].
  - left. split; [exact Hk|]. rewrite List.nth_error_app1 in E; assumption.
  - right. rewrite List.nth_error_app2 in E by exact Hk.
    destruct (k - List.length l)%nat as [|n] eqn:En.
    + cbn in E. injection E as <-. split; [lia|reflexivity].
    + cbn in E. destruct n; discriminate.
Qed.

Lemma pickLoop_invariant rest : forall seen bestIdx bestScore,
  bestSoFar layoutCount argsLength seen bestIdx bestScore ->
  let '(i, s) := pickLoop layoutCount argsLength rest (List.length seen) bestIdx bestScore in
  bestSoFar layoutCount argsLength (seen ++ rest) i s.
Proof.
  induction rest as [|tpl rest IH]; intros seen bestIdx bestScore HI.
  - cbn [pickLoop]. rewrite List.app_nil_r. exact HI.
  - cbn [pickLoop]. cbv zeta.
    fold (fitScore layoutCount argsLength tpl).
    replace (seen ++ tpl :: rest) with ((seen ++ [tpl]) ++ rest)
      by (rewrite <- List.app_assoc; reflexivity).
    replace (S (List.length seen)) with (List.length (seen ++ [tpl]))
      by (rewrite List.length_app; cbn; lia).
    destruct (exceeds (fitScore layoutCount argsLength tpl) bestScore) eqn:Ex; apply IH.
    + (* the candidate takes the lead *)
      cbn [bestSoFar]. exists tpl. split.
      { rewrite List.nth_error_app2 by lia. rewrite Nat.sub_diag. reflexivity. }
      split; [reflexivity|]. intros k t Hk.
      apply nth_error_snoc in Hk as [[Hlt Hk]|[-> ->]]; [|lia].
      destruct bestScore as [best|]; cbn [bestSoFar exceeds] in HI, Ex.
      * destruct HI as (t0 & _ & _ & Hall). apply Z.ltb_lt in Ex.
        destruct (Hall k t Hk) as [Hle _]. lia.
      * subst seen. cbn in Hlt. lia.
    + (* the lead is kept *)
      destruct bestScore as [best|]; cbn [bestSoFar exceeds] in HI, Ex |- *; [|discriminate].
      destruct HI as (t0 & Ht0 & -> & Hall). apply Z.ltb_ge in Ex.
      exists t0. split.
      { rewrite List.nth_error_app1; [exact Ht0|]. apply List.nth_error_Some. congruence. }
      split; [reflexivity|]. intros k t Hk.
      apply nth_error_snoc in Hk as [[Hlt Hk]|[-> ->]].
      * apply Hall, Hk.
      * split; [exact Ex|]. intros Hlt. exfalso.
        assert (bestIdx < List.length seen)%nat by (apply List.nth_error_Some; congruence).
        lia.
Qed.

(** X25: among the candidates of a provider the template chosen is the first
    one with the highest fit score: no candidate scores higher, and every
    candidate before it scores strictly lower. *)
Theorem chooseTemplate_is_first_best limited :
  limited <> [] ->
  exists i tpl,
    chooseTemplate layoutCount argsLength limited = Some tpl
    /\ List.nth_error limited i = Some tpl
    /\ forall k t, List.nth_error limited k = Some t ->
         fitScore layoutCount argsLength t <= fitScore layoutCount argsLength tpl
         /\ ((k < i)%nat ->
             fitScore layoutCount argsLength t < fitScore layoutCount argsLength tpl).
Proof.
  intros Hne.
  assert (HI := pickLoop_invariant limited [] 0%nat None eq_refl).
  cbn [List.length List.app] in HI.
  unfold chooseTemplate, bestIndex.
  destruct (pickLoop layoutCount argsLength limited 0 0 None) as [i s].
  destruct s as [best|]; cbn [bestSoFar fst] in HI |- *; [|contradiction].
  destruct HI as (tpl & Ht & -> & Hall).
  exists i, tpl. split; [|split; assumption].
  destruct limited; [contradiction|exact Ht].
Qed.
End Choice.

Lemma chooseTemplate_is_first_best_witness :
  exists i tpl,
    TemplateChoice.chooseTemplate 2 2 [js "%1"; js "%1 %2"; js "%2 and %1"] = Some tpl
    /\ List.nth_error [js "%1"; js "%1 %2"; js "%2 and %1"] i = Some tpl
    /\ forall k t, List.nth_error [js "%1"; js "%1 %2"; js "%2 and %1"] k = Some t ->
         TemplateChoice.fitScore 2 2 t <= TemplateChoice.fitScore 2 2 tpl
         /\ ((k < i)%nat -> TemplateChoice.fitScore 2 2 t < TemplateChoice.fitScore 2 2 tpl).
Proof.
  apply (chooseTemplate_is_first_best 2 2 [js "%1"; js "%1 %2"; js "%2 and %1"]).
  discriminate.
Defined.

Example chooseTemplate_sample :
  TemplateChoice.chooseTemplate 2 2 [js "%1"; js "%1 %2"; js "%2 and %1"]
  = Some (js "%1 %2").
Proof. reflexivity. Qed.
